(** * The stochastic event, demography, intervention and survey operators
      of [sch_simulation/helsim_FUNC_KK/events.py]

    The population is one mutable object ([SDEquilibrium]) that every
    operator receives by reference, updates in place and returns.  The
    embedding keeps that object, together with the random generator, as the
    state of a small state-and-exception monad [Py]: a raised exception does
    not roll the object back, exactly as in Python.

    Numbers.  Worm counts, indices and counters are integers ([Z]).  Floating
    point values (rates, probabilities, dates, uniform variates) are idealised
    as exact rationals ([Q]); the reservoir update of [doFreeLive] uses the
    exponential function and is therefore carried out over the reals ([R]).
    Where the rounding of binary64 decides a property (the sum
    [t + lifeSpans] of [doDeath]), the operation is a parameter of the
    operator, with the exact and the binary64 addition as instances.
    Results of numpy divisions that may be [inf] or [nan] are kept in the
    four-point type [float64]; a reservoir level that is [nan] or [inf] is
    [NonFinite].

    Arrays are lists.  The parallel arrays of one population have the same
    length; an elementwise operation on lists of different lengths raises
    [ValueError], as numpy does for shapes that cannot be broadcast together
    (broadcasting of length-one arrays is not modelled).

    Randomness.  Every call of [np.random.uniform], [np.random.gamma],
    [np.random.binomial], [np.random.choice] and [random.sample] reads from
    an explicit generator [RNG]: an infinite sequence of variates and a
    cursor. *)

From stdpp Require Import list strings.
From Stdlib Require Import ZArith QArith Qround Reals Lra Lia.
From Stdlib Require SpecFloat.

Local Open Scope Z_scope.

(** ** Exceptions and the [Py] monad *)

Inductive PyError : Type :=
  | ValueError (msg : string)
  | IndexError
  | AssertionError
  | ZeroDivisionError.

Inductive Res (A : Type) : Type :=
  | Ok (a : A)
  | Raise (e : PyError).
Arguments Ok {A} a.
Arguments Raise {A} e.

(** ** Floating point results that may be infinite or undefined *)

Inductive float64 : Type :=
  | Fin (q : Q)
  | PosInf
  | NegInf
  | NaN.

(** [a / b] for two numpy integers: true division, [inf]/[nan] on a zero
    divisor (the module silences the warnings). *)
Definition np_true_divide (a b : Z) : float64 :=
  if b =? 0 then
    (if 0 <? a then PosInf else if a <? 0 then NegInf else NaN)
  else Fin (inject_Z a / inject_Z b)%Q.

Definition Qltb (x y : Q) : bool := negb (Qle_bool y x).
Definition Qleb (x y : Q) : bool := Qle_bool x y.

(** [u < x] for a finite [u] and a float result [x]. *)
Definition lt_float64 (u : Q) (x : float64) : bool :=
  match x with
  | Fin q => Qltb u q
  | PosInf => true
  | NegInf => false
  | NaN => false
  end.

(** ** Sums of dates in binary64

    Dates are kept as exact rationals; where the rounding of a sum matters
    ([t + lifeSpans] in [doDeath]) the addition is a parameter, which is
    either the exact [Qplus] or the binary64 addition below: both operands
    are rounded to the nearest binary64 number, added with IEEE 754
    rounding to nearest (ties to even), and the result is read back as a
    rational.  An overflow has no rational value and is outside the model;
    the exact sum stands in for it. *)





(** ** numpy helpers on lists *)

(** Normalisation of a numpy index into a list position: negative indices
    count from the end, anything outside [-len, len) is out of bounds. *)
Definition np_position (len : nat) (i : Z) : option nat :=
  if (0 <=? i) && (i <? Z.of_nat len) then Some (Z.to_nat i)
  else if (i <? 0) && (- Z.of_nat len <=? i) then Some (Z.to_nat (Z.of_nat len + i))
  else None.

(** [a[i]] *)
Definition np_item {A} (a : list A) (i : Z) : option A :=
  match np_position (length a) i with
  | Some n => a !! n
  | None => None
  end.

(** [a[i] = x] *)
Definition np_setitem {A} (a : list A) (i : Z) (x : A) : option (list A) :=
  match np_position (length a) i with
  | Some n => Some (<[n := x]> a)
  | None => None
  end.

(** [a[idx]] for an integer index array [idx] (also [np.take(a, idx)]). *)
Fixpoint np_take {A} (a : list A) (idx : list Z) : option (list A) :=
  match idx with
  | [] => Some []
  | i :: idx' =>
      match np_item a i, np_take a idx' with
      | Some x, Some xs => Some (x :: xs)
      | _, _ => None
      end
  end.

(** Elementwise binary operation; [None] when the shapes differ. *)
Fixpoint zip_with_same {A B C} (f : A -> B -> C) (a : list A) (b : list B)
  : option (list C) :=
  match a, b with
  | [], [] => Some []
  | x :: a', y :: b' =>
      match zip_with_same f a' b' with
      | Some r => Some (f x y :: r)
      | None => None
      end
  | _, _ => None
  end.

(** [np.sum] and [np.cumsum] of a float array. *)
Definition np_sum (a : list Q) : Q := fold_left Qplus a 0%Q.

Fixpoint cumsum_from (acc : Q) (a : list Q) : list Q :=
  match a with
  | [] => []
  | x :: a' => (acc + x)%Q :: cumsum_from (acc + x)%Q a'
  end.
Definition np_cumsum (a : list Q) : list Q := cumsum_from 0%Q a.

(** Position of the first [true], [0] when there is none (what [np.argmax]
    returns on a boolean array that is not empty). *)
Fixpoint first_true (b : list bool) : option nat :=
  match b with
  | [] => None
  | true :: _ => Some 0%nat
  | false :: b' => option_map S (first_true b')
  end.
Definition argmax_bool (b : list bool) : nat :=
  match first_true b with Some n => n | None => 0%nat end.

(** [np.where(mask)[0]]: the positions holding [true]. *)
Fixpoint where_from (n : nat) (mask : list bool) : list nat :=
  match mask with
  | [] => []
  | true :: m' => n :: where_from (S n) m'
  | false :: m' => where_from (S n) m'
  end.
Definition np_where (mask : list bool) : list nat := where_from 0 mask.

(** [np.extract(mask, a)] / [a[mask]] for a boolean mask of the same length. *)
Fixpoint np_extract {A} (mask : list bool) (a : list A) : list A :=
  match mask, a with
  | true :: m', x :: a' => x :: np_extract m' a'
  | false :: m', _ :: a' => np_extract m' a'
  | _, _ => []
  end.

(** [a[idx] = vals] for an array [idx] of valid positions and as many
    values, assigned from left to right (a later duplicate position
    overwrites an earlier one); this is also [np.put(a, idx, vals)]. *)
Fixpoint put_list {A} (a : list A) (idx : list nat) (vals : list A) : list A :=
  match idx, vals with
  | i :: idx', v :: vals' => put_list (<[i := v]> a) idx' vals'
  | _, _ => a
  end.

(** [a[idx] = c] for a scalar [c]. *)
Definition put_const {A} (a : list A) (idx : list nat) (c : A) : list A :=
  foldl (fun acc i => <[i := c]> acc) a idx.

(** [a[mask] = c] for a boolean mask. *)
Fixpoint mask_set {A} (mask : list bool) (c : A) (a : list A) : list A :=
  match mask, a with
  | m :: mask', x :: a' => (if m then c else x) :: mask_set mask' c a'
  | _, _ => a
  end.

(** Number of [true] entries: [sum(mask)]. *)
Fixpoint count_true (mask : list bool) : Z :=
  match mask with
  | [] => 0
  | b :: mask' => (if b then 1 else 0) + count_true mask'
  end.

(** [np.digitize(x, bins)] (with [right=False]): for increasing [bins] the
    number of bins [<= x]; for decreasing [bins] the number of bins [> x];
    [None] (a [ValueError]) when [bins] is not monotonic. *)
Fixpoint nondecreasing (b : list Q) : bool :=
  match b with
  | x :: ((y :: _) as b') => Qleb x y && nondecreasing b'
  | _ => true
  end.
Fixpoint nonincreasing (b : list Q) : bool :=
  match b with
  | x :: ((y :: _) as b') => Qleb y x && nonincreasing b'
  | _ => true
  end.
Definition np_digitize (xs : list Q) (bins : list Q) : option (list Z) :=
  if nondecreasing bins then
    Some (map (fun x => count_true (map (fun b => Qleb b x) bins)) xs)
  else if nonincreasing bins then
    Some (map (fun x => count_true (map (fun b => Qltb x b) bins)) xs)
  else None.

(** [np.place(zeros, mask, vals)] on an all-[false] array: the values go, in
    order, to the positions where [mask] holds. *)
Fixpoint np_place (mask : list bool) (vals : list bool) : list bool :=
  match mask with
  | [] => []
  | false :: mask' => false :: np_place mask' vals
  | true :: mask' =>
      match vals with
      | v :: vals' => v :: np_place mask' vals'
      | [] => false :: np_place mask' []
      end
  end.

(** [np.put(a, idx, vals)] with numpy's default bounds checking: the writes
    happen from left to right and stop at the first index out of bounds (the
    flag is [false] then, an [IndexError]). *)
Fixpoint np_put {A} (a : list A) (idx : list Z) (vals : list A) : list A * bool :=
  match idx, vals with
  | i :: idx', v :: vals' =>
      match np_setitem a i v with
      | Some a' => np_put a' idx' vals'
      | None => (a, false)
      end
  | _, _ => (a, true)
  end.

(** [a[idx] = vals] for an array of positions: numpy validates every index
    before it writes; the values must be as many as the positions. *)
Inductive assign_failure : Type := BadIndex | BadShape.
Definition assign_at {A} (a : list A) (idx : list nat) (vals : list A)
  : assign_failure + list A :=
  if forallb (fun i => (i <? length a)%nat) idx then
    if (length vals =? length idx)%nat then inr (put_list a idx vals)
    else inl BadShape
  else inl BadIndex.

Definition assign_const_at {A} (a : list A) (idx : list nat) (c : A)
  : option (list A) :=
  if forallb (fun i => (i <? length a)%nat) idx then Some (put_const a idx c)
  else None.

(** ** The population state and the parameters

    The dataclasses are declared in [helsim_structures]; the fields below are
    the ones [events.py] reads or writes, with the types it uses them at. *)

Record Worms : Type := {
  total : list Z;
  female : list Z
}.

Record Demography : Type := {
  birthDate : list Q;
  deathDate : list Q
}.

(** A non-finite reservoir level stands for numpy's [nan] and [inf]. *)
Inductive level : Type :=
  | Finite (r : R)
  | NonFinite.

(** [doChemo] logs the boolean mask of treated hosts, [doChemoAgeRange] an
    index array. *)
Inductive Attendance : Type :=
  | AttendanceMask (m : list bool)
  | AttendanceIndex (k : list nat).

Record SDEquilibrium : Type := {
  si : list Q;
  sv : list Z;
  worms : Worms;
  freeLiving : level;
  demography : Demography;
  contactAgeGroupIndices : list Z;
  treatmentAgeGroupIndices : list Z;
  VaccTreatmentAgeGroupIndices : option (list Z);
  adherenceFactors : list Q;
  compliers : list bool;
  attendanceRecord : list Attendance;
  ageAtChemo : list (list Q);
  adherenceFactorAtChemo : list (list Q);
  vaccCount : Z;
  numSurvey : Z;
  numSurveyTwo : option Z;
  nChemo1 : option Z;
  nChemo2 : option Z
}.

Record Parameters : Type := {
  N : Z;
  v1 : list Q;
  v2 : list R;
  v3 : list Q;
  rho : list R;
  reproFuncName : string;
  SR : bool;
  lambda_egg : R;
  gamma : R;
  psi : R;
  LDecayRate : R;
  k : Q;
  propNeverCompliers : Q;
  contactAgeGroupBreaks : option (list Q);
  treatmentAgeGroupBreaks : option (list Q);
  VaccTreatmentAgeGroupBreaks : option (list Q);
  VaccTreatmentBreaks : list Q;
  DrugEfficacy1 : Q;
  DrugEfficacy2 : Q;
  drug1Years : option (list Q);
  drug2Years : option (list Q);
  drug1Split : option (list Q);
  drug2Split : option (list Q);
  minSurveyAge : Q;
  maxSurveyAge : Q;
  Unfertilized : bool
}.

(** Field updates ([SD.field = x]). *)
Definition set_si x (SD : SDEquilibrium) : SDEquilibrium :=
  {| si := x; sv := sv SD; worms := worms SD; freeLiving := freeLiving SD;
     demography := demography SD; contactAgeGroupIndices := contactAgeGroupIndices SD;
     treatmentAgeGroupIndices := treatmentAgeGroupIndices SD;
     VaccTreatmentAgeGroupIndices := VaccTreatmentAgeGroupIndices SD;
     adherenceFactors := adherenceFactors SD; compliers := compliers SD;
     attendanceRecord := attendanceRecord SD; ageAtChemo := ageAtChemo SD;
     adherenceFactorAtChemo := adherenceFactorAtChemo SD; vaccCount := vaccCount SD;
     numSurvey := numSurvey SD; numSurveyTwo := numSurveyTwo SD; nChemo1 := nChemo1 SD;
     nChemo2 := nChemo2 SD |}.
Definition set_sv x (SD : SDEquilibrium) : SDEquilibrium :=
  {| si := si SD; sv := x; worms := worms SD; freeLiving := freeLiving SD;
     demography := demography SD; contactAgeGroupIndices := contactAgeGroupIndices SD;
     treatmentAgeGroupIndices := treatmentAgeGroupIndices SD;
     VaccTreatmentAgeGroupIndices := VaccTreatmentAgeGroupIndices SD;
     adherenceFactors := adherenceFactors SD; compliers := compliers SD;
     attendanceRecord := attendanceRecord SD; ageAtChemo := ageAtChemo SD;
     adherenceFactorAtChemo := adherenceFactorAtChemo SD; vaccCount := vaccCount SD;
     numSurvey := numSurvey SD; numSurveyTwo := numSurveyTwo SD; nChemo1 := nChemo1 SD;
     nChemo2 := nChemo2 SD |}.
Definition set_worms x (SD : SDEquilibrium) : SDEquilibrium :=
  {| si := si SD; sv := sv SD; worms := x; freeLiving := freeLiving SD;
     demography := demography SD; contactAgeGroupIndices := contactAgeGroupIndices SD;
     treatmentAgeGroupIndices := treatmentAgeGroupIndices SD;
     VaccTreatmentAgeGroupIndices := VaccTreatmentAgeGroupIndices SD;
     adherenceFactors := adherenceFactors SD; compliers := compliers SD;
     attendanceRecord := attendanceRecord SD; ageAtChemo := ageAtChemo SD;
     adherenceFactorAtChemo := adherenceFactorAtChemo SD; vaccCount := vaccCount SD;
     numSurvey := numSurvey SD; numSurveyTwo := numSurveyTwo SD; nChemo1 := nChemo1 SD;
     nChemo2 := nChemo2 SD |}.
Definition set_freeLiving x (SD : SDEquilibrium) : SDEquilibrium :=
  {| si := si SD; sv := sv SD; worms := worms SD; freeLiving := x;
     demography := demography SD; contactAgeGroupIndices := contactAgeGroupIndices SD;
     treatmentAgeGroupIndices := treatmentAgeGroupIndices SD;
     VaccTreatmentAgeGroupIndices := VaccTreatmentAgeGroupIndices SD;
     adherenceFactors := adherenceFactors SD; compliers := compliers SD;
     attendanceRecord := attendanceRecord SD; ageAtChemo := ageAtChemo SD;
     adherenceFactorAtChemo := adherenceFactorAtChemo SD; vaccCount := vaccCount SD;
     numSurvey := numSurvey SD; numSurveyTwo := numSurveyTwo SD; nChemo1 := nChemo1 SD;
     nChemo2 := nChemo2 SD |}.
Definition set_demography x (SD : SDEquilibrium) : SDEquilibrium :=
  {| si := si SD; sv := sv SD; worms := worms SD; freeLiving := freeLiving SD;
     demography := x; contactAgeGroupIndices := contactAgeGroupIndices SD;
     treatmentAgeGroupIndices := treatmentAgeGroupIndices SD;
     VaccTreatmentAgeGroupIndices := VaccTreatmentAgeGroupIndices SD;
     adherenceFactors := adherenceFactors SD; compliers := compliers SD;
     attendanceRecord := attendanceRecord SD; ageAtChemo := ageAtChemo SD;
     adherenceFactorAtChemo := adherenceFactorAtChemo SD; vaccCount := vaccCount SD;
     numSurvey := numSurvey SD; numSurveyTwo := numSurveyTwo SD; nChemo1 := nChemo1 SD;
     nChemo2 := nChemo2 SD |}.
Definition set_contactAgeGroupIndices x (SD : SDEquilibrium) : SDEquilibrium :=
  {| si := si SD; sv := sv SD; worms := worms SD; freeLiving := freeLiving SD;
     demography := demography SD; contactAgeGroupIndices := x;
     treatmentAgeGroupIndices := treatmentAgeGroupIndices SD;
     VaccTreatmentAgeGroupIndices := VaccTreatmentAgeGroupIndices SD;
     adherenceFactors := adherenceFactors SD; compliers := compliers SD;
     attendanceRecord := attendanceRecord SD; ageAtChemo := ageAtChemo SD;
     adherenceFactorAtChemo := adherenceFactorAtChemo SD; vaccCount := vaccCount SD;
     numSurvey := numSurvey SD; numSurveyTwo := numSurveyTwo SD; nChemo1 := nChemo1 SD;
     nChemo2 := nChemo2 SD |}.
Definition set_treatmentAgeGroupIndices x (SD : SDEquilibrium) : SDEquilibrium :=
  {| si := si SD; sv := sv SD; worms := worms SD; freeLiving := freeLiving SD;
     demography := demography SD; contactAgeGroupIndices := contactAgeGroupIndices SD;
     treatmentAgeGroupIndices := x;
     VaccTreatmentAgeGroupIndices := VaccTreatmentAgeGroupIndices SD;
     adherenceFactors := adherenceFactors SD; compliers := compliers SD;
     attendanceRecord := attendanceRecord SD; ageAtChemo := ageAtChemo SD;
     adherenceFactorAtChemo := adherenceFactorAtChemo SD; vaccCount := vaccCount SD;
     numSurvey := numSurvey SD; numSurveyTwo := numSurveyTwo SD; nChemo1 := nChemo1 SD;
     nChemo2 := nChemo2 SD |}.
Definition set_VaccTreatmentAgeGroupIndices x (SD : SDEquilibrium) : SDEquilibrium :=
  {| si := si SD; sv := sv SD; worms := worms SD; freeLiving := freeLiving SD;
     demography := demography SD; contactAgeGroupIndices := contactAgeGroupIndices SD;
     treatmentAgeGroupIndices := treatmentAgeGroupIndices SD;
     VaccTreatmentAgeGroupIndices := x; adherenceFactors := adherenceFactors SD;
     compliers := compliers SD; attendanceRecord := attendanceRecord SD;
     ageAtChemo := ageAtChemo SD; adherenceFactorAtChemo := adherenceFactorAtChemo SD;
     vaccCount := vaccCount SD; numSurvey := numSurvey SD;
     numSurveyTwo := numSurveyTwo SD; nChemo1 := nChemo1 SD; nChemo2 := nChemo2 SD |}.
Definition set_adherenceFactors x (SD : SDEquilibrium) : SDEquilibrium :=
  {| si := si SD; sv := sv SD; worms := worms SD; freeLiving := freeLiving SD;
     demography := demography SD; contactAgeGroupIndices := contactAgeGroupIndices SD;
     treatmentAgeGroupIndices := treatmentAgeGroupIndices SD;
     VaccTreatmentAgeGroupIndices := VaccTreatmentAgeGroupIndices SD;
     adherenceFactors := x; compliers := compliers SD;
     attendanceRecord := attendanceRecord SD; ageAtChemo := ageAtChemo SD;
     adherenceFactorAtChemo := adherenceFactorAtChemo SD; vaccCount := vaccCount SD;
     numSurvey := numSurvey SD; numSurveyTwo := numSurveyTwo SD; nChemo1 := nChemo1 SD;
     nChemo2 := nChemo2 SD |}.
Definition set_compliers x (SD : SDEquilibrium) : SDEquilibrium :=
  {| si := si SD; sv := sv SD; worms := worms SD; freeLiving := freeLiving SD;
     demography := demography SD; contactAgeGroupIndices := contactAgeGroupIndices SD;
     treatmentAgeGroupIndices := treatmentAgeGroupIndices SD;
     VaccTreatmentAgeGroupIndices := VaccTreatmentAgeGroupIndices SD;
     adherenceFactors := adherenceFactors SD; compliers := x;
     attendanceRecord := attendanceRecord SD; ageAtChemo := ageAtChemo SD;
     adherenceFactorAtChemo := adherenceFactorAtChemo SD; vaccCount := vaccCount SD;
     numSurvey := numSurvey SD; numSurveyTwo := numSurveyTwo SD; nChemo1 := nChemo1 SD;
     nChemo2 := nChemo2 SD |}.
Definition set_attendanceRecord x (SD : SDEquilibrium) : SDEquilibrium :=
  {| si := si SD; sv := sv SD; worms := worms SD; freeLiving := freeLiving SD;
     demography := demography SD; contactAgeGroupIndices := contactAgeGroupIndices SD;
     treatmentAgeGroupIndices := treatmentAgeGroupIndices SD;
     VaccTreatmentAgeGroupIndices := VaccTreatmentAgeGroupIndices SD;
     adherenceFactors := adherenceFactors SD; compliers := compliers SD;
     attendanceRecord := x; ageAtChemo := ageAtChemo SD;
     adherenceFactorAtChemo := adherenceFactorAtChemo SD; vaccCount := vaccCount SD;
     numSurvey := numSurvey SD; numSurveyTwo := numSurveyTwo SD; nChemo1 := nChemo1 SD;
     nChemo2 := nChemo2 SD |}.
Definition set_ageAtChemo x (SD : SDEquilibrium) : SDEquilibrium :=
  {| si := si SD; sv := sv SD; worms := worms SD; freeLiving := freeLiving SD;
     demography := demography SD; contactAgeGroupIndices := contactAgeGroupIndices SD;
     treatmentAgeGroupIndices := treatmentAgeGroupIndices SD;
     VaccTreatmentAgeGroupIndices := VaccTreatmentAgeGroupIndices SD;
     adherenceFactors := adherenceFactors SD; compliers := compliers SD;
     attendanceRecord := attendanceRecord SD; ageAtChemo := x;
     adherenceFactorAtChemo := adherenceFactorAtChemo SD; vaccCount := vaccCount SD;
     numSurvey := numSurvey SD; numSurveyTwo := numSurveyTwo SD; nChemo1 := nChemo1 SD;
     nChemo2 := nChemo2 SD |}.
Definition set_adherenceFactorAtChemo x (SD : SDEquilibrium) : SDEquilibrium :=
  {| si := si SD; sv := sv SD; worms := worms SD; freeLiving := freeLiving SD;
     demography := demography SD; contactAgeGroupIndices := contactAgeGroupIndices SD;
     treatmentAgeGroupIndices := treatmentAgeGroupIndices SD;
     VaccTreatmentAgeGroupIndices := VaccTreatmentAgeGroupIndices SD;
     adherenceFactors := adherenceFactors SD; compliers := compliers SD;
     attendanceRecord := attendanceRecord SD; ageAtChemo := ageAtChemo SD;
     adherenceFactorAtChemo := x; vaccCount := vaccCount SD; numSurvey := numSurvey SD;
     numSurveyTwo := numSurveyTwo SD; nChemo1 := nChemo1 SD; nChemo2 := nChemo2 SD |}.
Definition set_vaccCount x (SD : SDEquilibrium) : SDEquilibrium :=
  {| si := si SD; sv := sv SD; worms := worms SD; freeLiving := freeLiving SD;
     demography := demography SD; contactAgeGroupIndices := contactAgeGroupIndices SD;
     treatmentAgeGroupIndices := treatmentAgeGroupIndices SD;
     VaccTreatmentAgeGroupIndices := VaccTreatmentAgeGroupIndices SD;
     adherenceFactors := adherenceFactors SD; compliers := compliers SD;
     attendanceRecord := attendanceRecord SD; ageAtChemo := ageAtChemo SD;
     adherenceFactorAtChemo := adherenceFactorAtChemo SD; vaccCount := x;
     numSurvey := numSurvey SD; numSurveyTwo := numSurveyTwo SD; nChemo1 := nChemo1 SD;
     nChemo2 := nChemo2 SD |}.
Definition set_numSurvey x (SD : SDEquilibrium) : SDEquilibrium :=
  {| si := si SD; sv := sv SD; worms := worms SD; freeLiving := freeLiving SD;
     demography := demography SD; contactAgeGroupIndices := contactAgeGroupIndices SD;
     treatmentAgeGroupIndices := treatmentAgeGroupIndices SD;
     VaccTreatmentAgeGroupIndices := VaccTreatmentAgeGroupIndices SD;
     adherenceFactors := adherenceFactors SD; compliers := compliers SD;
     attendanceRecord := attendanceRecord SD; ageAtChemo := ageAtChemo SD;
     adherenceFactorAtChemo := adherenceFactorAtChemo SD; vaccCount := vaccCount SD;
     numSurvey := x; numSurveyTwo := numSurveyTwo SD; nChemo1 := nChemo1 SD;
     nChemo2 := nChemo2 SD |}.
Definition set_numSurveyTwo x (SD : SDEquilibrium) : SDEquilibrium :=
  {| si := si SD; sv := sv SD; worms := worms SD; freeLiving := freeLiving SD;
     demography := demography SD; contactAgeGroupIndices := contactAgeGroupIndices SD;
     treatmentAgeGroupIndices := treatmentAgeGroupIndices SD;
     VaccTreatmentAgeGroupIndices := VaccTreatmentAgeGroupIndices SD;
     adherenceFactors := adherenceFactors SD; compliers := compliers SD;
     attendanceRecord := attendanceRecord SD; ageAtChemo := ageAtChemo SD;
     adherenceFactorAtChemo := adherenceFactorAtChemo SD; vaccCount := vaccCount SD;
     numSurvey := numSurvey SD; numSurveyTwo := x; nChemo1 := nChemo1 SD;
     nChemo2 := nChemo2 SD |}.
Definition set_nChemo1 x (SD : SDEquilibrium) : SDEquilibrium :=
  {| si := si SD; sv := sv SD; worms := worms SD; freeLiving := freeLiving SD;
     demography := demography SD; contactAgeGroupIndices := contactAgeGroupIndices SD;
     treatmentAgeGroupIndices := treatmentAgeGroupIndices SD;
     VaccTreatmentAgeGroupIndices := VaccTreatmentAgeGroupIndices SD;
     adherenceFactors := adherenceFactors SD; compliers := compliers SD;
     attendanceRecord := attendanceRecord SD; ageAtChemo := ageAtChemo SD;
     adherenceFactorAtChemo := adherenceFactorAtChemo SD; vaccCount := vaccCount SD;
     numSurvey := numSurvey SD; numSurveyTwo := numSurveyTwo SD; nChemo1 := x;
     nChemo2 := nChemo2 SD |}.
Definition set_nChemo2 x (SD : SDEquilibrium) : SDEquilibrium :=
  {| si := si SD; sv := sv SD; worms := worms SD; freeLiving := freeLiving SD;
     demography := demography SD; contactAgeGroupIndices := contactAgeGroupIndices SD;
     treatmentAgeGroupIndices := treatmentAgeGroupIndices SD;
     VaccTreatmentAgeGroupIndices := VaccTreatmentAgeGroupIndices SD;
     adherenceFactors := adherenceFactors SD; compliers := compliers SD;
     attendanceRecord := attendanceRecord SD; ageAtChemo := ageAtChemo SD;
     adherenceFactorAtChemo := adherenceFactorAtChemo SD; vaccCount := vaccCount SD;
     numSurvey := numSurvey SD; numSurveyTwo := numSurveyTwo SD; nChemo1 := nChemo1 SD;
     nChemo2 := x |}.
Definition set_total x (SD : SDEquilibrium) : SDEquilibrium :=
  set_worms {| total := x; female := female (worms SD) |} SD.
Definition set_female x (SD : SDEquilibrium) : SDEquilibrium :=
  set_worms {| total := total (worms SD); female := x |} SD.
Definition set_birthDate x (SD : SDEquilibrium) : SDEquilibrium :=
  set_demography {| birthDate := x; deathDate := deathDate (demography SD) |} SD.
Definition set_deathDate x (SD : SDEquilibrium) : SDEquilibrium :=
  set_demography {| birthDate := birthDate (demography SD); deathDate := x |} SD.

(** ** The random generator

    [uniform_src] is the sequence of variates that [np.random.uniform(0, 1)]
    (and Python's [random]) hands out, [gamma_src] the sequence handed out by
    [np.random.gamma]; [cursor] counts the variates consumed so far. *)

Record RNG : Type := {
  uniform_src : nat -> Q;
  gamma_src : nat -> Q;
  cursor : nat
}.

Definition advance (n : nat) (g : RNG) : RNG :=
  {| uniform_src := uniform_src g; gamma_src := gamma_src g;
     cursor := (cursor g + n)%nat |}.

(** A sampler that only touches the generator. *)
Definition Rand (A : Type) : Type := RNG -> A * RNG.

Definition uniform_draws (n : nat) : Rand (list Q) :=
  fun g => (map (uniform_src g) (seq (cursor g) n), advance n g).

Definition gamma_draws (n : nat) : Rand (list Q) :=
  fun g => (map (gamma_src g) (seq (cursor g) n), advance n g).

(** ** The monad *)

Record World : Type := {
  population : SDEquilibrium;
  generator : RNG
}.

Definition Py (A : Type) : Type := World -> Res A * World.

Definition ret {A} (a : A) : Py A := fun w => (Ok a, w).

Definition bind {A B} (m : Py A) (f : A -> Py B) : Py B :=
  fun w =>
    match m w with
    | (Ok a, w') => f a w'
    | (Raise e, w') => (Raise e, w')
    end.

Definition raise {A} (e : PyError) : Py A := fun w => (Raise e, w).

Declare Scope py_scope.
Delimit Scope py_scope with py.
Notation "x <- c1 ;; c2" := (bind c1 (fun x => c2))
  (at level 100, c1 at next level, right associativity) : py_scope.
Notation "c1 ;; c2" := (bind c1 (fun _ => c2))
  (at level 100, right associativity) : py_scope.
Local Open Scope py_scope.

(** The population object as it is now. *)
Definition get_SD : Py SDEquilibrium := fun w => (Ok (population w), w).

(** An in-place update of the population object. *)
Definition update_SD (f : SDEquilibrium -> SDEquilibrium) : Py unit :=
  fun w => (Ok tt, {| population := f (population w); generator := generator w |}).

(** Running a sampler on the generator. *)
Definition sample {A} (r : Rand A) : Py A :=
  fun w =>
    let (a, g) := r (generator w) in
    (Ok a, {| population := population w; generator := g |}).

Definition or_raise {A} (o : option A) (e : PyError) : Py A :=
  match o with
  | Some a => ret a
  | None => raise e
  end.

Definition broadcast_error : PyError :=
  ValueError "operands could not be broadcast together".
Definition negative_dimensions : PyError :=
  ValueError "negative dimensions are not allowed".
Definition empty_argmax : PyError :=
  ValueError "attempt to get argmax of an empty sequence".

(** [np.random.uniform(low=0, high=1, size=n)] for a Python integer [n]. *)
Definition np_random_uniform (n : Z) : Py (list Q) :=
  if n <? 0 then raise negative_dimensions
  else sample (uniform_draws (Z.to_nat n)).

(** [np.random.uniform(low=0, high=1, size=1)], used as a scalar. *)
Definition uniform1 : Py Q :=
  sample (fun g => (uniform_src g (cursor g), advance 1 g)).

(** [np.argmax] of a boolean array. *)
Definition np_argmax (b : list bool) : Py nat :=
  match b with
  | [] => raise empty_argmax
  | _ => ret (argmax_bool b)
  end.

(** [a[i] += d] for an integer array. *)
Definition item_add (a : list Z) (i : Z) (d : Z) : option (list Z) :=
  match np_item a i with
  | Some x => np_setitem a i (x + d)
  | None => None
  end.

(** In-place updates of single array elements of the population object. *)
Definition total_item_add (i d : Z) : Py unit :=
  SD <- get_SD ;;
  a <- or_raise (item_add (total (worms SD)) i d) IndexError ;;
  update_SD (set_total a).

Definition female_item_add (i d : Z) : Py unit :=
  SD <- get_SD ;;
  a <- or_raise (item_add (female (worms SD)) i d) IndexError ;;
  update_SD (set_female a).

Definition sv_setitem (i x : Z) : Py unit :=
  SD <- get_SD ;;
  a <- or_raise (np_setitem (sv SD) i x) IndexError ;;
  update_SD (set_sv a).

(** ** EventSampler, single draw: [doEvent] *)

(** [u * np.sum(rates) < np.cumsum(rates)] *)
Definition below_cumsum (u : Q) (rates : list Q) : list bool :=
  map (fun c => Qltb (u * np_sum rates) c) (np_cumsum rates).

(** [SD.worms.total * params.v1[SD.sv]] *)
Definition death_weights (params : Parameters) (SD : SDEquilibrium) : Py (list Q) :=
  v1s <- or_raise (np_take (v1 params) (sv SD)) IndexError ;;
  or_raise (zip_with_same (fun t v => (inject_Z t * v)%Q) (total (worms SD)) v1s)
           broadcast_error.

(** The body of [if event == len(rates) - 1:]. *)
Definition worm_death (params : Parameters) : Py unit :=
  u_d <- uniform1 ;;
  SD <- get_SD ;;
  w <- death_weights params SD ;;
  deathIndex <- np_argmax (below_cumsum u_d w) ;;
  total_item_add (Z.of_nat deathIndex) (-1) ;;
  u_f <- uniform1 ;;
  SD <- get_SD ;;
  f <- or_raise (np_item (female (worms SD)) (Z.of_nat deathIndex)) IndexError ;;
  t <- or_raise (np_item (total (worms SD)) (Z.of_nat deathIndex)) IndexError ;;
  if lt_float64 u_f (np_true_divide f t)
  then female_item_add (Z.of_nat deathIndex) (-1)
  else ret tt.

(** The body of [if event <= params.N:]. *)
Definition worm_acquisition (params : Parameters) (event : Z) : Py unit :=
  u_g <- uniform1 ;;
  SD <- get_SD ;;
  s <- or_raise (np_item (sv SD) event) IndexError ;;
  p <- or_raise (np_item (v3 params) s) IndexError ;;
  if Qltb u_g p then
    total_item_add event 1 ;;
    u_s <- uniform1 ;;
    if Qltb u_s (1 # 2) then female_item_add event 1 else ret tt
  else ret tt.

Definition doEvent (rates : list Q) (params : Parameters) : Py unit :=
  u <- uniform1 ;;
  event <- np_argmax (below_cumsum u rates) ;;
  let event := Z.of_nat event in
  (if event =? Z.of_nat (length rates) - 1 then worm_death params else ret tt) ;;
  if event <=? N params then worm_acquisition params event
  else if event <=? 2 * N params then
    let hostIndex := event - N params in
    sv_setitem hostIndex 0
  else ret tt.

(** ** EventSampler, batched draw: [doEvent2] *)

(** numpy's integer [//] and [%]: floor division, both [0] on a zero
    divisor. *)
Definition np_floor_divide (a b : Z) : Z := if b =? 0 then 0 else a / b.
Definition np_remainder (a b : Z) : Z := if b =? 0 then 0 else a mod b.

(** [np.where(b, x, 0)] *)
Definition where_else_zero (x : Z) (b : list bool) : list Z :=
  map (fun c : bool => if c then x else 0) b.

(** [np.put] on a field of the population object. *)
Definition put_field {A} (read : SDEquilibrium -> list A)
    (write : list A -> SDEquilibrium -> SDEquilibrium)
    (idx : list Z) (vals : list A) : Py unit :=
  SD <- get_SD ;;
  let (a, ok) := np_put (read SD) idx vals in
  update_SD (write a) ;;
  if ok then ret tt else raise IndexError.

Definition doEvent2 (sum_rates : Q) (cumsum_rates : list Q)
    (params : Parameters) (multiplier : Z) : Py unit :=
  let n_pop := N params in
  let param_v3 := v3 params in
  us <- np_random_uniform multiplier ;;
  let rand_array := map (fun u => (u * sum_rates)%Q) us in
  events_array <-
    match cumsum_rates with
    | [] => raise empty_argmax
    | _ => ret (map (fun r => Z.of_nat
                       (argmax_bool (map (fun c => Qltb r c) cumsum_rates)))
                    rand_array)
    end ;;
  let event_types_array := map (fun e => np_floor_divide e n_pop + 1) events_array in
  let host_index_array := map (fun e => np_remainder e n_pop) events_array in
  let event1_bools := map (fun ty => ty =? 1) event_types_array in
  let event2_bools := map (fun ty => ty =? 2) event_types_array in
  let event3_bools := map (fun ty => ty =? 3) event_types_array in
  let event1_hosts := np_extract event1_bools host_index_array in
  let event2_hosts := np_extract event2_bools host_index_array in
  let event3_hosts := np_extract event3_bools host_index_array in
  SD <- get_SD ;;
  sv1 <- or_raise (np_take (sv SD) event1_hosts) IndexError ;;
  param_v3s <- or_raise (np_take param_v3 sv1) IndexError ;;
  u1 <- np_random_uniform (Z.of_nat (length event1_hosts)) ;;
  let event1_total_true_bools := zip_with Qltb u1 param_v3s in
  let event1_total_bools := np_place event1_bools event1_total_true_bools in
  let total_array :=
    zip_with Z.add (where_else_zero 1 event1_total_bools)
                   (where_else_zero (-1) event3_bools) in
  f3 <- or_raise (np_take (female (worms SD)) event3_hosts) IndexError ;;
  t3 <- or_raise (np_take (total (worms SD)) event3_hosts) IndexError ;;
  let event3_worm_ratio := zip_with np_true_divide f3 t3 in
  u3 <- np_random_uniform (Z.of_nat (length event3_hosts)) ;;
  let event3_total_true_bools := zip_with lt_float64 u3 event3_worm_ratio in
  let event3_total_bools := np_place event3_bools event3_total_true_bools in
  u_s <- np_random_uniform multiplier ;;
  let females_array :=
    zip_with Z.add
      (where_else_zero 1
         (zip_with andb event1_total_bools (map (fun u => Qltb u (1 # 2)) u_s)))
      (where_else_zero (-1) event3_total_bools) in
  (* Sort event 2 *)
  put_field sv set_sv event2_hosts (map (fun _ => 0) event2_hosts) ;;
  (* Sort event 1 & 3 *)
  SD <- get_SD ;;
  old_total <- or_raise (np_take (total (worms SD)) host_index_array) IndexError ;;
  put_field (fun SD => total (worms SD)) set_total host_index_array
            (zip_with Z.add old_total total_array) ;;
  SD <- get_SD ;;
  old_female <- or_raise (np_take (female (worms SD)) host_index_array) IndexError ;;
  put_field (fun SD => female (worms SD)) set_female host_index_array
            (zip_with Z.add old_female females_array).

(** ** FreeLivingUpdater: [doFreeLive] *)

Definition Rsum (a : list R) : R := fold_right Rplus 0%R a.

Definition unsupported_reproFuncName (name : string) : PyError :=
  ValueError ("Unsupported reproFuncName : " +:+ name).

Definition productive_female_worms (params : Parameters) (SD : SDEquilibrium)
  : Py (list Z) :=
  if String.eqb (reproFuncName params) "epgFertility" && SR params then
    (* polygamous reproduction *)
    or_raise (zip_with_same (fun t f => if t =? f then 0 else f)
                (total (worms SD)) (female (worms SD))) broadcast_error
  else if String.eqb (reproFuncName params) "epgFertility" && negb (SR params) then
    ret (female (worms SD))
  else if String.eqb (reproFuncName params) "epgMonog" then
    (* monogamous reproduction *)
    or_raise (zip_with_same (fun t f => Z.min (t - f) f)
                (total (worms SD)) (female (worms SD))) broadcast_error
  else raise (unsupported_reproFuncName (reproFuncName params)).

(** [2 * psi * np.sum(eggOutputPerHost * rho[contactAgeGroupIndices]) / N];
    the division by a zero host count gives [inf] or [nan]. *)
Definition eggs_prod_rate (params : Parameters) (SD : SDEquilibrium)
    (productivefemaleworms : list Z) : Py level :=
  a <- or_raise
         (zip_with_same
            (fun p t => (lambda_egg params * IZR p * exp (- IZR t * gamma params))%R)
            productivefemaleworms (total (worms SD))) broadcast_error ;;
  v2s <- or_raise (np_take (v2 params) (sv SD)) IndexError ;;
  eggOutputPerHost <- or_raise (zip_with_same Rmult a v2s) broadcast_error ;;
  rhos <- or_raise (np_take (rho params) (contactAgeGroupIndices SD)) IndexError ;;
  weighted <- or_raise (zip_with_same Rmult eggOutputPerHost rhos) broadcast_error ;;
  ret (if N params =? 0 then NonFinite
       else Finite (2 * psi params * Rsum weighted / IZR (N params))%R).

(** [freeLiving * expFactor + eggsProdRate * (1 - expFactor) / LDecayRate]:
    a zero decay rate divides zero by zero, and a level or rate that is not
    finite stays so. *)
Definition reservoir_step (params : Parameters) (dt : R)
    (freeLiving0 eggsProdRate : level) : level :=
  let expFactor := exp (- LDecayRate params * dt) in
  match freeLiving0, eggsProdRate with
  | Finite f, Finite r =>
      if Req_dec_T (LDecayRate params) 0 then NonFinite
      else Finite (f * expFactor + r * (1 - expFactor) / LDecayRate params)%R
  | _, _ => NonFinite
  end.

Definition doFreeLive (params : Parameters) (dt : R) : Py unit :=
  SD <- get_SD ;;
  productivefemaleworms <- productive_female_worms params SD ;;
  eggsProdRate <- eggs_prod_rate params SD productivefemaleworms ;;
  update_SD (fun SD => set_freeLiving
                         (reservoir_step params dt (freeLiving SD) eggsProdRate) SD).

(** ** DemographicUpdater: [doDeath] *)

(** [SD.field[idx] = vals] and [SD.field[idx] = c] on the population object. *)
Definition assign_field {A} (read : SDEquilibrium -> list A)
    (write : list A -> SDEquilibrium -> SDEquilibrium)
    (idx : list nat) (vals : list A) : Py unit :=
  SD <- get_SD ;;
  match assign_at (read SD) idx vals with
  | inr a => update_SD (write a)
  | inl BadIndex => raise IndexError
  | inl BadShape => raise (ValueError "shape mismatch")
  end.

Definition assign_const_field {A} (read : SDEquilibrium -> list A)
    (write : list A -> SDEquilibrium -> SDEquilibrium)
    (idx : list nat) (c : A) : Py unit :=
  SD <- get_SD ;;
  a <- or_raise (assign_const_at (read SD) idx c) IndexError ;;
  update_SD (write a).

Definition not_monotonic : PyError :=
  ValueError "bins must be monotonically increasing or decreasing".

(** [np.digitize(t - SD.demography.birthDate, breaks) - 1] *)
Definition age_group_indices (t : Q) (SD : SDEquilibrium) (breaks : list Q)
  : option (list Z) :=
  match np_digitize (map (fun b => (t - b)%Q) (birthDate (demography SD))) breaks with
  | Some d => Some (map (fun i => i - 1) d)
  | None => None
  end.

(** [np.random.gamma(size=n, scale=1 / k, shape=k)] with a Python float [k]. *)
Definition np_random_gamma (n : nat) (k : Q) : Py (list Q) :=
  if Qeq_bool k 0 then raise ZeroDivisionError
  else if Qltb k 0 then raise (ValueError "shape < 0")
  else sample (gamma_draws n).

Section Demography.

(** The lifespan sampler of [utils]: [getLifeSpans(n, params)] hands back
    remaining-lifetime draws and touches nothing but the generator. *)
Variable getLifeSpans : nat -> Parameters -> Rand (list Q).

(** [doDeath], with the addition [date_add] used for [t + lifeSpans]. *)
Definition doDeath_with (date_add : Q -> Q -> Q) (params : Parameters) (t : Q)
  : Py unit :=
  (* identify the indices of the dead *)
  SD <- get_SD ;;
  let theDead := np_where (map (fun d => Qltb d t) (deathDate (demography SD))) in
  (if negb (length theDead =? 0)%nat then
     (* they also need new force of infections (FOIs) *)
     g <- np_random_gamma (length theDead) (k params) ;;
     assign_field si set_si theDead g ;;
     assign_const_field sv set_sv theDead 0 ;;
     (* update the birth dates and death dates *)
     assign_const_field (fun SD => birthDate (demography SD)) set_birthDate
                        theDead (t - (1 # 1000))%Q ;;
     lifeSpans <- sample (getLifeSpans (length theDead) params) ;;
     assign_field (fun SD => deathDate (demography SD)) set_deathDate
                  theDead (map (fun l => date_add t l) lifeSpans) ;;
     (* kill all their worms *)
     assign_const_field (fun SD => total (worms SD)) set_total theDead 0 ;;
     assign_const_field (fun SD => female (worms SD)) set_female theDead 0 ;;
     (* update the adherence factors *)
     u_a <- sample (uniform_draws (length theDead)) ;;
     assign_field adherenceFactors set_adherenceFactors theDead u_a ;;
     (* assign the newly-born to either comply or not *)
     u_c <- sample (uniform_draws (length theDead)) ;;
     assign_field compliers set_compliers theDead
                  (map (fun u => Qltb (propNeverCompliers params) u) u_c)
   else ret tt) ;;
  contactBreaks <- or_raise (contactAgeGroupBreaks params) AssertionError ;;
  (* update the contact age categories *)
  SD <- get_SD ;;
  contactIdx <- or_raise (age_group_indices t SD contactBreaks) not_monotonic ;;
  update_SD (set_contactAgeGroupIndices contactIdx) ;;
  treatmentBreaks <- or_raise (treatmentAgeGroupBreaks params) AssertionError ;;
  vaccBreaks <- or_raise (VaccTreatmentAgeGroupBreaks params) AssertionError ;;
  (* update the treatment age categories *)
  SD <- get_SD ;;
  treatmentIdx <- or_raise (age_group_indices t SD treatmentBreaks) not_monotonic ;;
  update_SD (set_treatmentAgeGroupIndices treatmentIdx) ;;
  SD <- get_SD ;;
  vaccIdx <- or_raise (age_group_indices t SD vaccBreaks) not_monotonic ;;
  update_SD (set_VaccTreatmentAgeGroupIndices (Some vaccIdx)).

(** [doDeath] with exact sums of dates. *)
Definition doDeath : Parameters -> Q -> Py unit := doDeath_with Qplus.

(** [doRegular]: deaths and rebirths first, then the reservoir. *)
Definition doRegular (params : Parameters) (t : Q) (dt : R) : Py unit :=
  doDeath params t ;;
  doFreeLive params dt.

End Demography.

(** ** InterventionEngine: [doChemoAgeRange] and [doVaccine] *)

(** [np.array(x, dtype="int32")] on a 64-bit integer. *)
Definition to_int32 (z : Z) : Z := (z + 2 ^ 31) mod 2 ^ 32 - 2 ^ 31.

(** One [np.random.binomial(n, p)] variate: the number of successes among
    [n] Bernoulli trials, one uniform variate per trial. *)
Definition binomial_draw (p : Q) (n : Z) : Rand Z :=
  fun g =>
    let (us, g') := uniform_draws (Z.to_nat n) g in
    (count_true (map (fun u => Qltb u p) us), g').

Fixpoint binomial_draws (p : Q) (ns : list Z) : Rand (list Z) :=
  fun g =>
    match ns with
    | [] => ([], g)
    | n :: ns' =>
        let (x, g') := binomial_draw p n g in
        let (xs, g'') := binomial_draws p ns' g' in
        (x :: xs, g'')
    end.

(** [np.random.binomial(size=len(ns), n=ns, p=p)] *)
Definition np_random_binomial (ns : list Z) (p : Q) : Py (list Z) :=
  if Qltb p 0 || Qltb 1 p then raise (ValueError "p < 0, p > 1 or p is NaN")
  else if existsb (fun n => n <? 0) ns then raise (ValueError "n < 0")
  else sample (binomial_draws p ns).

(** Drawing without replacement: each uniform variate picks one of the
    elements still in the pool. *)
Fixpoint pick_without_replacement {A} (pool : list A) (us : list Q) : list A :=
  match us with
  | [] => []
  | u :: us' =>
      let j := Nat.min (Z.to_nat (Qfloor (u * inject_Z (Z.of_nat (length pool)))))
                       (length pool - 1) in
      match pool !! j with
      | Some x => x :: pick_without_replacement (delete j pool) us'
      | None => []
      end
  end.

(** [random.sample(range(m), cnt)] *)
Definition random_sample_range (m : nat) (cnt : Z) : Py (list nat) :=
  if (cnt <? 0) || (Z.of_nat m <? cnt)
  then raise (ValueError "Sample larger than population or is negative")
  else us <- sample (uniform_draws (Z.to_nat cnt)) ;;
       ret (pick_without_replacement (seq 0 m) us).

(** [np.random.choice(a=a, size=size, replace=False)] *)
Definition np_random_choice (a : list Q) (size : Z) : Py (list Q) :=
  if size <? 0 then raise negative_dimensions
  else if Z.of_nat (length a) <? size
  then raise (ValueError
                "Cannot take a larger sample than population when replace is False")
  else us <- sample (uniform_draws (Z.to_nat size)) ;;
       ret (pick_without_replacement a us).

(** [t in years], then [split[np.where(years == t)[0][0]]]; share [0] when
    the year is not listed. *)
Definition drug_share (t : Q) (years split : list Q) : Py Q :=
  match first_true (map (fun y => Qeq_bool y t) years) with
  | Some i => or_raise (split !! i) IndexError
  | None => ret 0%Q
  end.

(** The treatment with one drug: binomial kills among the female and the
    male worms of the hosts at positions [k], then the log and the counter. *)
Definition treat_with_drug (dEff : Q) (idx : list nat)
    (read_counter : SDEquilibrium -> option Z)
    (write_counter : option Z -> SDEquilibrium -> SDEquilibrium) : Py unit :=
  let zk := map Z.of_nat idx in
  SD <- get_SD ;;
  fk <- or_raise (np_take (female (worms SD)) zk) IndexError ;;
  femaleToDie <- np_random_binomial (map to_int32 fk) dEff ;;
  tk <- or_raise (np_take (total (worms SD)) zk) IndexError ;;
  fk' <- or_raise (np_take (female (worms SD)) zk) IndexError ;;
  maleToDie <- np_random_binomial (map to_int32 (zip_with Z.sub tk fk')) dEff ;;
  assign_field (fun SD => female (worms SD)) set_female idx
               (zip_with Z.sub fk femaleToDie) ;;
  SD <- get_SD ;;
  tk' <- or_raise (np_take (total (worms SD)) zk) IndexError ;;
  assign_field (fun SD => total (worms SD)) set_total idx
               (zip_with Z.sub tk' (zip_with Z.add maleToDie femaleToDie)) ;;
  (* save actual attendance record and the age of each host when treated *)
  update_SD (fun SD => set_attendanceRecord
                         (attendanceRecord SD ++ [AttendanceIndex idx]) SD) ;;
  SD <- get_SD ;;
  c <- or_raise (read_counter SD) AssertionError ;;
  update_SD (write_counter (Some (c + Z.of_nat (length idx)))).

Definition doChemoAgeRange (params : Parameters) (t : Q) (minAge maxAge : Z)
    (coverage : Q) : Py unit :=
  (* decide which individuals are treated, treatment is random *)
  us <- np_random_uniform (N params) ;;
  let attendance := map (fun u => Qltb u coverage) us in
  (* get age of each individual *)
  SD <- get_SD ;;
  let ages := map (fun b => (t - b)%Q) (birthDate (demography SD)) in
  (* choose individuals in correct age range *)
  let correctAges :=
    map (fun a => Qleb a (inject_Z maxAge) && Qleb (inject_Z minAge) a) ages in
  (* they're compliers, in the right age group and it's their turn *)
  toTreatNow <- or_raise (zip_with_same andb attendance (compliers SD)) broadcast_error ;;
  toTreatNow <- or_raise (zip_with_same andb toTreatNow correctAges) broadcast_error ;;
  (* get the actual share of each drug for this treatment. *)
  years1 <- or_raise (drug1Years params) AssertionError ;;
  years2 <- or_raise (drug2Years params) AssertionError ;;
  split1 <- or_raise (drug1Split params) AssertionError ;;
  split2 <- or_raise (drug2Split params) AssertionError ;;
  d1Share <- drug_share t years1 split1 ;;
  d2Share <- drug_share t years2 split2 ;;
  (* assign which drug each person will take *)
  let n_treated := Z.to_nat (count_true toTreatNow) in
  let drug := repeat 1 n_treated in
  drug <- (if Qltb 0 d2Share then
             chosen <- random_sample_range n_treated
                         (Qfloor (inject_Z (Z.of_nat n_treated) * d2Share)) ;;
             ret (put_const drug chosen 2)
           else ret drug) ;;
  (* if drug 1 share is > 0, then treat the appropriate individuals with drug 1 *)
  (if Qltb 0 d1Share then
     treat_with_drug (DrugEfficacy1 params) (np_where (map (fun d => d =? 1) drug))
                     nChemo1 set_nChemo1
   else ret tt) ;;
  (* if drug 2 share is > 0, then treat the appropriate individuals with drug 2 *)
  (if Qltb 0 d2Share then
     treat_with_drug (DrugEfficacy2 params) (np_where (map (fun d => d =? 2) drug))
                     nChemo2 set_nChemo2
   else ret tt) ;;
  update_SD (fun SD => set_ageAtChemo
                         (ageAtChemo SD ++ [map (fun b => (t - b)%Q)
                                                (birthDate (demography SD))]) SD) ;;
  update_SD (fun SD => set_adherenceFactorAtChemo
                         (adherenceFactorAtChemo SD ++ [adherenceFactors SD]) SD).

(** [SD.sv[mask] = c]: the boolean mask must be as long as the array. *)
Definition sv_mask_set (mask : list bool) (c : Z) : Py unit :=
  SD <- get_SD ;;
  if (length mask =? length (sv SD))%nat
  then update_SD (set_sv (mask_set mask c (sv SD)))
  else raise IndexError.

(** [indicesToVaccinate]: [1 + i * 2] for [i] in
    [range(len(params.VaccTreatmentBreaks))]. *)
Definition indicesToVaccinate (params : Parameters) : list Z :=
  map (fun i => 1 + Z.of_nat i * 2) (seq 0 (length (VaccTreatmentBreaks params))).

Definition doVaccine (params : Parameters) (t : Q) (VaccCoverage : list Q) : Py unit :=
  SD <- get_SD ;;
  vaccIdx <- or_raise (VaccTreatmentAgeGroupIndices SD) AssertionError ;;
  let temp := map (fun i => (i + 1) / 2 - 1) vaccIdx in
  us <- np_random_uniform (N params) ;;
  coverages <- or_raise (np_take VaccCoverage temp) IndexError ;;
  vaccinate <- or_raise (zip_with_same Qltb us coverages) broadcast_error ;;
  let Hosts4Vaccination :=
    map (fun i => existsb (Z.eqb i) (indicesToVaccinate params)) vaccIdx in
  vaccNow <- or_raise (zip_with_same andb Hosts4Vaccination vaccinate) broadcast_error ;;
  sv_mask_set vaccNow 1 ;;
  update_SD (fun SD => set_vaccCount
                         (vaccCount SD + (count_true Hosts4Vaccination
                                          + count_true vaccinate)) SD).

(** ** InterventionEngine: [doChemo] and [doVaccineAgeRange] *)

(** [a[mask]] for a boolean mask, which must be as long as the array. *)
Definition np_mask_index {A} (mask : list bool) (a : list A) : option (list A) :=
  if (length mask =? length a)%nat then Some (np_extract mask a) else None.

(** [a[mask] -= vals]: the values go, in order, to the positions where
    [mask] holds. *)
Fixpoint mask_sub (mask : list bool) (a : list Z) (vals : list Z) : list Z :=
  match mask, a with
  | true :: mask', x :: a' =>
      match vals with
      | v :: vals' => (x - v) :: mask_sub mask' a' vals'
      | [] => x :: mask_sub mask' a' []
      end
  | false :: mask', x :: a' => x :: mask_sub mask' a' vals
  | _, _ => a
  end.

(** [SD.field[mask] -= vals] on the population object. *)
Definition mask_sub_field (read : SDEquilibrium -> list Z)
    (write : list Z -> SDEquilibrium -> SDEquilibrium)
    (mask : list bool) (vals : list Z) : Py unit :=
  SD <- get_SD ;;
  if (length mask =? length (read SD))%nat
  then update_SD (write (mask_sub mask (read SD) vals))
  else raise IndexError.

Section Chemo.

(** [params.DrugEfficacy], the single-drug efficacy that only [doChemo]
    reads. *)
Variable DrugEfficacy : Q.

Definition doChemo (params : Parameters) (t : Q) (coverage : list Q) : Py unit :=
  (* decide which individuals are treated, treatment is random *)
  us <- np_random_uniform (N params) ;;
  SD <- get_SD ;;
  cov <- or_raise (np_take coverage (treatmentAgeGroupIndices SD)) IndexError ;;
  attendance <- or_raise (zip_with_same Qltb us cov) broadcast_error ;;
  (* they're compliers and it's their turn *)
  toTreatNow <- or_raise (zip_with_same andb attendance (compliers SD)) broadcast_error ;;
  (* calculate the number of dead worms *)
  fem <- or_raise (np_mask_index toTreatNow (female (worms SD))) IndexError ;;
  femaleToDie <- np_random_binomial fem DrugEfficacy ;;
  tot <- or_raise (np_mask_index toTreatNow (total (worms SD))) IndexError ;;
  maleToDie <- np_random_binomial (zip_with Z.sub tot fem) DrugEfficacy ;;
  mask_sub_field (fun SD => female (worms SD)) set_female toTreatNow femaleToDie ;;
  mask_sub_field (fun SD => total (worms SD)) set_total toTreatNow
                 (zip_with Z.add maleToDie femaleToDie) ;;
  (* save actual attendance record and the age of each host when treated *)
  update_SD (fun SD => set_attendanceRecord
                         (attendanceRecord SD ++ [AttendanceMask toTreatNow]) SD) ;;
  update_SD (fun SD => set_ageAtChemo
                         (ageAtChemo SD ++ [map (fun b => (t - b)%Q)
                                                (birthDate (demography SD))]) SD) ;;
  update_SD (fun SD => set_adherenceFactorAtChemo
                         (adherenceFactorAtChemo SD ++ [adherenceFactors SD]) SD).

End Chemo.

(** [doVaccineAgeRange] with a flat coverage value. *)
Definition doVaccineAgeRange (params : Parameters) (t : Q) (minAge maxAge : Q)
    (coverage : Q) : Py unit :=
  us <- np_random_uniform (N params) ;;
  let vaccinate := map (fun u => Qltb u coverage) us in
  SD <- get_SD ;;
  let ages := map (fun b => (t - b)%Q) (birthDate (demography SD)) in
  let correctAges := map (fun a => Qleb a maxAge && Qleb minAge a) ages in
  (* they're compliers and it's their turn *)
  vaccNow <- or_raise (zip_with_same andb vaccinate (compliers SD)) broadcast_error ;;
  vaccNow <- or_raise (zip_with_same andb vaccNow correctAges) broadcast_error ;;
  sv_mask_set vaccNow 1 ;;
  update_SD (fun SD => set_vaccCount (vaccCount SD + count_true vaccNow) SD).

(** ** SurveyEngine: [conductSurvey] and [conductSurveyTwo] *)

Section Survey.

(** The egg-count sampler of [utils]:
    [getSetOfEggCounts(total, female, params, Unfertilized=...)] hands back
    one simulated reading per host and touches nothing but the generator. *)
Variable getSetOfEggCounts : list Z -> list Z -> Parameters -> bool -> Rand (list Q).

Definition egg_reading (params : Parameters) : Py (list Q) :=
  SD <- get_SD ;;
  sample (getSetOfEggCounts (total (worms SD)) (female (worms SD)) params
                            (Unfertilized params)).

(** [for _ in range(n): eggCounts = np.add(eggCounts, getSetOfEggCounts(...))] *)
Fixpoint add_readings (params : Parameters) (n : nat) (eggCounts : list Q)
  : Py (list Q) :=
  match n with
  | O => ret eggCounts
  | S n' =>
      r <- egg_reading params ;;
      eggCounts' <- or_raise (zip_with_same Qplus eggCounts r) broadcast_error ;;
      add_readings params n' eggCounts'
  end.

(** [np.sum(sampledEggs > 0.9) / KKSampleSize] *)
Definition prevalence (sampledEggs : list Q) (KKSampleSize : Z) : float64 :=
  np_true_divide (count_true (map (fun e => Qltb (9 # 10) e) sampledEggs)) KKSampleSize.

Definition conductSurvey (params : Parameters) (t : Q) (sampleSize nSamples : Z)
  : Py float64 :=
  (* get min and max age for survey *)
  let minAge := minSurveyAge params in
  let maxAge := maxSurveyAge params in
  (* get Kato-Katz eggs for each individual *)
  if nSamples <? 1 then raise (ValueError "nSamples < 1")
  else
    eggCounts <- egg_reading params ;;
    eggCounts <- add_readings params (Z.to_nat (nSamples - 1)) eggCounts ;;
    let eggCounts := map (fun e => (e / inject_Z nSamples)%Q) eggCounts in
    (* get individuals in chosen survey age group *)
    SD <- get_SD ;;
    let ages := map (fun b => (- (b - t))%Q) (birthDate (demography SD)) in
    let surveyAged := map (fun a => Qleb minAge a && Qleb a maxAge) ages in
    (* get egg counts for those individuals *)
    surveyEggs <- (if (length surveyAged =? length eggCounts)%nat
                   then ret (np_extract surveyAged eggCounts)
                   else raise IndexError) ;;
    (* get sampled individuals *)
    let KKSampleSize := Z.min sampleSize (count_true surveyAged) in
    sampledEggs <- np_random_choice surveyEggs KKSampleSize ;;
    update_SD (fun SD => set_numSurvey (numSurvey SD + 1) SD) ;;
    (* return the prevalence *)
    ret (prevalence sampledEggs KKSampleSize).

Definition conductSurveyTwo (params : Parameters) (t : Q) (sampleSize nSamples : Z)
  : Py float64 :=
  (* get Kato-Katz eggs for each individual *)
  if nSamples <? 1 then raise (ValueError "nSamples < 1")
  else
    eggCounts <- egg_reading params ;;
    eggCounts <- add_readings params (Z.to_nat nSamples) eggCounts ;;
    let eggCounts := map (fun e => (e / inject_Z nSamples)%Q) eggCounts in
    (* get sampled individuals *)
    let KKSampleSize := Z.min sampleSize (N params) in
    sampledEggs <- np_random_choice eggCounts KKSampleSize ;;
    SD <- get_SD ;;
    n2 <- or_raise (numSurveyTwo SD) AssertionError ;;
    update_SD (set_numSurveyTwo (Some (n2 + 1))) ;;
    (* return the prevalence *)
    ret (prevalence sampledEggs KKSampleSize).

End Survey.

(** ** Atomic state changes of the single-draw sampler

    The three kinds of change an event can make to the population: one worm
    more for one host (female or not), the vaccine status of one host back
    to 0, one worm less for one host (female or not). *)

Inductive Change : Type :=
  | Acquisition (host : Z) (isFemale : bool)
  | VaccineReset (host : Z)
  | WormDeath (host : Z) (isFemale : bool).

Definition change_worms (host : Z) (d : Z) (isFemale : bool) (SD : SDEquilibrium)
  : option SDEquilibrium :=
  match item_add (total (worms SD)) host d with
  | Some t' =>
      if isFemale then
        match item_add (female (worms SD)) host d with
        | Some f' => Some (set_female f' (set_total t' SD))
        | None => None
        end
      else Some (set_total t' SD)
  | None => None
  end.

Definition apply_change (c : Change) (SD : SDEquilibrium) : option SDEquilibrium :=
  match c with
  | Acquisition host isFemale => change_worms host 1 isFemale SD
  | VaccineReset host =>
      match np_setitem (sv SD) host 0 with
      | Some s => Some (set_sv s SD)
      | None => None
      end
  | WormDeath host isFemale => change_worms host (-1) isFemale SD
  end.



(** ** Concrete populations, parameters and generators *)

Module Fixtures.

(** A generator that hands out the listed uniform variates, then zeros. *)
Definition rng_of (us : list Q) : RNG :=
  {| uniform_src := fun n => nth n us 0%Q; gamma_src := fun _ => 1%Q; cursor := 0 |}.

Definition host_population (tot fem status : list Z) (births deaths : list Q)
    (compl : list bool) : SDEquilibrium :=
  {| si := map (fun _ => 1%Q) tot; sv := status;
     worms := {| total := tot; female := fem |};
     freeLiving := Finite 10%R;
     demography := {| birthDate := births; deathDate := deaths |};
     contactAgeGroupIndices := map (fun _ => 0) tot;
     treatmentAgeGroupIndices := map (fun _ => 0) tot;
     VaccTreatmentAgeGroupIndices := Some (map (fun _ => 0) tot);
     adherenceFactors := map (fun _ => 0%Q) tot;
     compliers := compl;
     attendanceRecord := []; ageAtChemo := []; adherenceFactorAtChemo := [];
     vaccCount := 0; numSurvey := 0; numSurveyTwo := Some 0;
     nChemo1 := Some 0; nChemo2 := Some 0 |}.

(** Parameters for [n] hosts with reservoir decay rate [decay] and vaccine
    age breaks [vaccAgeBreaks]: unvaccinated hosts always acquire
    ([v3[0] = 1]), vaccinated ones half of the time; both drugs kill every
    worm; drug 1 is given to everybody in year 10; there is one vaccination
    break. *)
Definition make_params (n : Z) (decay : R) (vaccAgeBreaks : list Q) : Parameters :=
  {| N := n; v1 := [1%Q; 1%Q]; v2 := [1%R; 1%R]; v3 := [1%Q; (1 # 2)%Q];
     rho := [1%R];
     reproFuncName := "epgMonog"; SR := false;
     lambda_egg := 1%R; gamma := 0%R; psi := 1%R; LDecayRate := decay;
     k := 1%Q; propNeverCompliers := 0%Q;
     contactAgeGroupBreaks := Some [0%Q; 100%Q];
     treatmentAgeGroupBreaks := Some [0%Q; 100%Q];
     VaccTreatmentAgeGroupBreaks := Some vaccAgeBreaks;
     VaccTreatmentBreaks := [5%Q];
     DrugEfficacy1 := 1%Q; DrugEfficacy2 := 1%Q;
     drug1Years := Some [10%Q]; drug2Years := Some [];
     drug1Split := Some [1%Q]; drug2Split := Some [];
     minSurveyAge := 0%Q; maxSurveyAge := 100%Q; Unfertilized := false |}.

Definition base_params (n : Z) : Parameters := make_params n 1%R [0%Q; 100%Q].


(** Two hosts and a rate vector of length one: its only slot is the death
    slot and at the same time an acquisition slot. *)
Definition short_world : World :=
  {| population := host_population [5; 6] [2; 3] [0; 0] [0%Q; 0%Q] [50%Q; 50%Q]
                                   [true; true];
     generator := rng_of [(1 # 2)%Q; (1 # 2)%Q; (9 # 10)%Q; (1 # 10)%Q; (9 # 10)%Q] |}.

(** One host with 10 worms, 4 of them female; the variates select the
    death slot, then host 0, then compare [0.42] with the female
    fraction. *)
Definition death_world : World :=
  {| population := host_population [10] [4] [0] [0%Q] [50%Q] [true];
     generator := rng_of [(1 # 2)%Q; (1 # 2)%Q; (21 # 50)%Q] |}.
Definition death_rates : list Q := [0%Q; 0%Q; 0%Q; 1%Q].
(** The same with [2 N + 1] slots: the death slot is slot [2 N]. *)
Definition death_rates_short : list Q := [0%Q; 0%Q; 1%Q].

(** One host with 5 worms; a batch of two draws ([0.1] and [0.2] of the
    rate sum 3) that both resolve to slot 0, the acquisition slot of host
    0; both pass the gate ([0.5 < v3[0] = 1]) and neither new worm is
    female. *)
Definition batch_world : World :=
  {| population := host_population [5] [2] [0] [0%Q] [50%Q] [true];
     generator := rng_of [(1 # 10)%Q; (2 # 10)%Q; (1 # 2)%Q; (1 # 2)%Q;
                          (9 # 10)%Q; (9 # 10)%Q] |}.
Definition batch_cumsum : list Q := [1%Q; 2%Q; 3%Q].

(** Two hosts aged 10 at time 10; host 0 never complies, host 1 does;
    every variate is 0, so both attend under coverage 1. *)
Definition chemo_world : World :=
  {| population := host_population [5; 7] [2; 3] [0; 0] [0%Q; 0%Q] [50%Q; 50%Q]
                                   [false; true];
     generator := rng_of [] |}.

(** An egg-count sampler whose readings alternate between [0, 1] and
    [1, 0] for the two hosts; each reading consumes one variate. *)
Definition alternating_readings
  : list Z -> list Z -> Parameters -> bool -> Rand (list Q) :=
  fun _ _ _ _ g =>
    (if Nat.even (cursor g) then [0%Q; 1%Q] else [1%Q; 0%Q], advance 1 g).

(** One host born at time 0, in vaccine age group 3 at time 10 under the
    age breaks [0, 5, 6, 10, 100], with a single vaccination break. *)
Definition vaccine_world : World :=
  {| population :=
       set_VaccTreatmentAgeGroupIndices (Some [3])
         (host_population [5] [2] [0] [0%Q] [50%Q] [true]);
     generator := rng_of [] |}.
Definition vaccine_coverage : list Q := [1%Q; 1%Q].
Definition vaccine_params : Parameters :=
  make_params 1 1%R [0%Q; 5%Q; 6%Q; 10%Q; 100%Q].

(** Parameters with a reservoir that does not decay. *)
Definition no_decay_params : Parameters := make_params 1 0%R [0%Q; 100%Q].

(** Parameters and a population without any host. *)
Definition no_host_params : Parameters := make_params 0 1%R [0%Q; 100%Q].
Definition empty_world : World :=
  {| population := host_population [] [] [] [] [] [];
     generator := rng_of [] |}.

(** Two hosts, the first of which died before time 10; every lifespan draw
    is 50. *)
Definition demography_world : World :=
  {| population := host_population [5; 7] [2; 3] [1; 1] [0%Q; 3%Q] [8%Q; 60%Q]
                                   [true; true];
     generator := rng_of [(1 # 2)%Q; (1 # 2)%Q] |}.
Definition fixed_lifespans : nat -> Parameters -> Rand (list Q) :=
  fun n _ g => (repeat 50%Q n, g).

(** Two vaccinated hosts; with four slots and [N = 2] the death slot 3 is
    also the reset slot of host 1.  The variates select slot 3 and then
    host 1 for the death. *)
Definition reset_world : World :=
  {| population := host_population [5; 7] [2; 3] [1; 1] [0%Q; 0%Q] [50%Q; 50%Q]
                                   [true; true];
     generator := rng_of [(1 # 2)%Q; (1 # 2)%Q] |}.


End Fixtures.

(** ** Vocabulary for the properties *)

(** A computation that never writes to the population object. *)
Definition reads_only {A} (m : Py A) : Prop :=
  forall w, population (snd (m w)) = population w.

(** A computation that never raises the exception [e0]. *)
Definition never_raises {A} (e0 : PyError) (m : Py A) : Prop :=
  forall w, fst (m w) <> Raise e0.

(** The world with its population object replaced. *)
Definition with_population (SD : SDEquilibrium) (w : World) : World :=
  {| population := SD; generator := generator w |}.

(** ** Outcome of a vaccination round

    [eligible] tells which vaccine age-group indices are eligible; the round
    sets the status of the hosts that are eligible and selected by their
    coverage draw, and adds the number of eligible hosts plus the number of
    selected hosts to [vaccCount]. *)

Definition vaccination_outcome (eligible : Z -> bool) (params : Parameters)
    (VaccCoverage : list Q) (w w' : World) : Prop :=
  exists vaccIdx coverages,
    VaccTreatmentAgeGroupIndices (population w) = Some vaccIdx
    /\ np_take VaccCoverage (map (fun i => (i + 1) / 2 - 1) vaccIdx) = Some coverages
    /\ let vaccinate :=
         zip_with Qltb (fst (uniform_draws (Z.to_nat (N params)) (generator w)))
                  coverages in
       (forall i idx sel,
          vaccIdx !! i = Some idx -> vaccinate !! i = Some sel ->
          sv (population w') !! i
          = if eligible idx && sel then Some 1 else sv (population w) !! i)
       /\ vaccCount (population w')
          = vaccCount (population w)
            + (count_true (map eligible vaccIdx) + count_true vaccinate).

(** Eligibility as "the index is odd", that is one of 1, 3, 5, ... *)
Definition odd_index (idx : Z) : bool := Z.odd idx && (0 <? idx).

(** Eligibility as "the index is one of 1, 3, ..., 2 L - 1", for [L]
    vaccination breaks. *)
Definition banded_index (params : Parameters) (idx : Z) : bool :=
  Z.odd idx && (1 <=? idx)
  && (idx <=? 2 * Z.of_nat (length (VaccTreatmentBreaks params)) - 1).

(** The parallel arrays [doDeath] writes to are as long as [deathDate]. *)
Definition parallel_arrays (SD : SDEquilibrium) : Prop :=
  let n := length (deathDate (demography SD)) in
  length (si SD) = n /\ length (sv SD) = n
  /\ length (birthDate (demography SD)) = n
  /\ length (total (worms SD)) = n /\ length (female (worms SD)) = n
  /\ length (adherenceFactors SD) = n /\ length (compliers SD) = n.

Definition monotonic (bins : list Q) : Prop :=
  nondecreasing bins = true \/ nonincreasing bins = true.



(** ** Vocabulary for invariants and frames *)

(** A computation that keeps the property [P] of the population object,
    whether it returns or raises. *)
Definition keeps {A} (P : SDEquilibrium -> Prop) (m : Py A) : Prop :=
  forall w, P (population w) -> P (population (snd (m w))).

(** The population with the fields the event samplers write ([sv] and the
    worm arrays) blanked out. *)
Definition outside_events (SD : SDEquilibrium) : SDEquilibrium :=
  set_sv [] (set_worms {| total := []; female := [] |} SD).

(** The population with the reservoir level blanked out. *)
Definition outside_reservoir (SD : SDEquilibrium) : SDEquilibrium :=
  set_freeLiving NonFinite SD.

(** Every vaccine status is 0 or 1. *)
Definition binary_status (SD : SDEquilibrium) : Prop :=
  Forall (fun s => s = 0 \/ s = 1) (sv SD).

(** The lengths of the per-host arrays the operators write. *)
Definition array_lengths (SD : SDEquilibrium) : list nat :=
  [length (si SD); length (sv SD);
   length (total (worms SD)); length (female (worms SD));
   length (birthDate (demography SD)); length (deathDate (demography SD));
   length (adherenceFactors SD); length (compliers SD)].

(** The number of [true] entries of [mask] before position [i]: the place
    of host [i] among the hosts the mask selects. *)
Fixpoint rank (mask : list bool) (i : nat) : nat :=
  match i, mask with
  | S i', b :: mask' => (if b then 1 else 0) + rank mask' i'
  | _, _ => 0
  end.

(** A computation that, when it raises, has not written to the population
    object. *)
Definition atomic_on_error {A} (m : Py A) : Prop :=
  forall w e, fst (m w) = Raise e -> population (snd (m w)) = population w.

(** ** Further populations and parameters *)

Module Scenarios.

(** One host with three worms, none of them female. *)
Definition male_only_world : World :=
  {| population := Fixtures.host_population [3] [0] [0] [0%Q] [50%Q] [true];
     generator := Fixtures.rng_of [] |}.

(** The parameters of [Fixtures.base_params 1] with a reproduction function
    name that [doFreeLive] does not know. *)
Definition unknown_repro_params : Parameters :=
  let p := Fixtures.base_params 1 in
  {| N := N p; v1 := v1 p; v2 := v2 p; v3 := v3 p; rho := rho p;
     reproFuncName := "epgTypo"; SR := SR p;
     lambda_egg := lambda_egg p; gamma := gamma p; psi := psi p;
     LDecayRate := LDecayRate p;
     k := k p; propNeverCompliers := propNeverCompliers p;
     contactAgeGroupBreaks := contactAgeGroupBreaks p;
     treatmentAgeGroupBreaks := treatmentAgeGroupBreaks p;
     VaccTreatmentAgeGroupBreaks := VaccTreatmentAgeGroupBreaks p;
     VaccTreatmentBreaks := VaccTreatmentBreaks p;
     DrugEfficacy1 := DrugEfficacy1 p; DrugEfficacy2 := DrugEfficacy2 p;
     drug1Years := drug1Years p; drug2Years := drug2Years p;
     drug1Split := drug1Split p; drug2Split := drug2Split p;
     minSurveyAge := minSurveyAge p; maxSurveyAge := maxSurveyAge p;
     Unfertilized := Unfertilized p |}.

End Scenarios.

(** * Properties *)

(** ** Reasoning about [Py] computations *)

Lemma bind_ok_inv {A B} (m : Py A) (f : A -> Py B) w b w' :
  bind m f w = (Ok b, w') ->
  exists a w1, m w = (Ok a, w1) /\ f a w1 = (Ok b, w').
Proof.
  unfold bind. destruct (m w) as [[a | e] w1]; intros H.
  - exists a, w1. split; [reflexivity | exact H].
  - discriminate H.
Qed.

Lemma or_raise_ok_inv {A} (o : option A) e w a w' :
  or_raise o e w = (Ok a, w') -> o = Some a /\ w' = w.
Proof.
  destruct o as [x |]; cbn; intros H; inversion H; auto.
Qed.

Lemma reads_only_ret {A} (a : A) : reads_only (ret a).
Proof. intros w. reflexivity. Qed.

Lemma reads_only_raise {A} e : reads_only (@raise A e).
Proof. intros w. reflexivity. Qed.

Lemma reads_only_bind {A B} (m : Py A) (f : A -> Py B) :
  reads_only m -> (forall a, reads_only (f a)) -> reads_only (bind m f).
Proof.
  intros Hm Hf w. unfold bind. specialize (Hm w).
  destruct (m w) as [[a | e] w1]; cbn in *.
  - rewrite (Hf a w1). exact Hm.
  - exact Hm.
Qed.

Lemma reads_only_get_SD : reads_only get_SD.
Proof. intros w. reflexivity. Qed.

Lemma reads_only_sample {A} (r : Rand A) : reads_only (sample r).
Proof. intros w. unfold sample. destruct (r (generator w)). reflexivity. Qed.

Lemma reads_only_or_raise {A} (o : option A) e : reads_only (or_raise o e).
Proof. destruct o; intros w; reflexivity. Qed.

Lemma reads_only_np_random_uniform n : reads_only (np_random_uniform n).
Proof.
  unfold np_random_uniform. destruct (n <? 0).
  - apply reads_only_raise.
  - apply reads_only_sample.
Qed.

Lemma reads_only_np_random_choice a size : reads_only (np_random_choice a size).
Proof.
  unfold np_random_choice.
  destruct (size <? 0); [apply reads_only_raise |].
  destruct (_ <? size); [apply reads_only_raise |].
  apply reads_only_bind; [apply reads_only_sample | intros; apply reads_only_ret].
Qed.

Create HintDb py_frame.
#[local] Hint Resolve reads_only_ret reads_only_raise reads_only_get_SD
  reads_only_sample reads_only_or_raise reads_only_np_random_uniform
  reads_only_np_random_choice : py_frame.

Lemma reads_only_ok {A} (m : Py A) w a w' :
  reads_only m -> m w = (Ok a, w') -> population w' = population w.
Proof. intros Hm H. specialize (Hm w). rewrite H in Hm. exact Hm. Qed.

Lemma never_raises_ret {A} e0 (a : A) : never_raises e0 (ret a).
Proof. intros w. discriminate. Qed.

Lemma never_raises_raise {A} e0 e : e <> e0 -> never_raises e0 (@raise A e).
Proof. intros Hne w H. cbn in H. congruence. Qed.

Lemma never_raises_bind {A B} e0 (m : Py A) (f : A -> Py B) :
  never_raises e0 m -> (forall a, never_raises e0 (f a)) ->
  never_raises e0 (bind m f).
Proof.
  intros Hm Hf w. unfold bind. specialize (Hm w).
  destruct (m w) as [[a | e] w1]; cbn in *.
  - apply Hf.
  - intros H. apply Hm. congruence.
Qed.

Lemma never_raises_sample {A} e0 (r : Rand A) : never_raises e0 (sample r).
Proof. intros w. unfold sample. destruct (r (generator w)). discriminate. Qed.

Lemma never_raises_or_raise {A} e0 (o : option A) e :
  e <> e0 -> never_raises e0 (or_raise o e).
Proof.
  intros Hne. destruct o; [apply never_raises_ret | apply never_raises_raise, Hne].
Qed.

Lemma never_raises_get_SD e0 : never_raises e0 get_SD.
Proof. intros w. discriminate. Qed.

Lemma never_raises_update_SD e0 f : never_raises e0 (update_SD f).
Proof. intros w. discriminate. Qed.

Lemma never_raises_np_random_choice a size :
  never_raises (ValueError "nSamples < 1") (np_random_choice a size).
Proof.
  unfold np_random_choice.
  destruct (size <? 0); [apply never_raises_raise; discriminate |].
  destruct (_ <? size); [apply never_raises_raise; discriminate |].
  apply never_raises_bind; [apply never_raises_sample | intros; apply never_raises_ret].
Qed.

Lemma or_raise_world {A} (o : option A) e w : snd (or_raise o e w) = w.
Proof. destruct o; reflexivity. Qed.

(** ** Arrays *)

Lemma Qltb_lt (x y : Q) : Qltb x y = true <-> (x < y)%Q.
Proof.
  unfold Qltb. rewrite negb_true_iff. split.
  - intros H. apply Qnot_le_lt. intros Hle. apply Qle_bool_iff in Hle. congruence.
  - intros H. destruct (Qle_bool y x) eqn:E; [| reflexivity].
    apply Qle_bool_iff in E. exfalso. exact (Qlt_not_le _ _ H E).
Qed.

Lemma map_lookup {A B} (f : A -> B) (l : list A) (i : nat) :
  map f l !! i = option_map f (l !! i).
Proof.
  revert i. induction l as [| x l IH]; intros [| i]; cbn; auto.
Qed.

Lemma elem_of_where_from (mask : list bool) (n i : nat) :
  i ∈ where_from n mask <->
  exists j, i = (n + j)%nat /\ mask !! j = Some true.
Proof.
  revert n. induction mask as [| b mask IH]; intros n; cbn.
  - split; [intros H; inversion H | intros (j & _ & H); discriminate H].
  - destruct b.
    + rewrite elem_of_cons, IH. split.
      * intros [-> | (j & -> & Hj)].
        -- exists 0%nat. split; [lia | reflexivity].
        -- exists (S j). split; [lia | exact Hj].
      * intros ([| j] & -> & Hj).
        -- left. lia.
        -- right. exists j. split; [lia | exact Hj].
    + rewrite IH. split.
      * intros (j & -> & Hj). exists (S j). split; [lia | exact Hj].
      * intros ([| j] & -> & Hj); [discriminate Hj |].
        exists j. split; [lia | exact Hj].
Qed.

Lemma elem_of_np_where (mask : list bool) (i : nat) :
  i ∈ np_where mask <-> mask !! i = Some true.
Proof.
  unfold np_where. rewrite elem_of_where_from. split.
  - intros (j & -> & Hj). exact Hj.
  - intros H. exists i. split; [reflexivity | exact H].
Qed.

Lemma put_const_lookup_other {A} (a : list A) (idx : list nat) (c : A) (i : nat) :
  i ∉ idx -> put_const a idx c !! i = a !! i.
Proof.
  unfold put_const. revert a. induction idx as [| j idx IH]; intros a Hi; cbn.
  - reflexivity.
  - apply not_elem_of_cons in Hi as [Hne Hi].
    rewrite IH by exact Hi. apply list_lookup_insert_ne. congruence.
Qed.

Lemma put_const_length {A} (a : list A) (idx : list nat) (c : A) :
  length (put_const a idx c) = length a.
Proof.
  unfold put_const. revert a. induction idx as [| j idx IH]; intros a; cbn.
  - reflexivity.
  - rewrite IH. apply length_insert.
Qed.

Lemma put_const_lookup_in {A} (a : list A) (idx : list nat) (c : A) (i : nat) :
  i ∈ idx -> (i < length a)%nat -> put_const a idx c !! i = Some c.
Proof.
  unfold put_const. revert a. induction idx as [| j idx IH]; intros a Hi Hlen; cbn.
  - inversion Hi.
  - destruct (decide (i ∈ idx)) as [Hin | Hnin].
    + apply IH; [exact Hin | rewrite length_insert; exact Hlen].
    + apply elem_of_cons in Hi as [-> | Hin]; [| contradiction].
      fold (put_const (<[j := c]> a) idx c).
      rewrite put_const_lookup_other by exact Hnin.
      apply list_lookup_insert_eq. exact Hlen.
Qed.

Lemma put_list_lookup_other {A} (a : list A) (idx : list nat) (vals : list A) (i : nat) :
  i ∉ idx -> put_list a idx vals !! i = a !! i.
Proof.
  revert a vals. induction idx as [| j idx IH]; intros a vals Hi; cbn.
  - reflexivity.
  - destruct vals as [| v vals]; [reflexivity |].
    apply not_elem_of_cons in Hi as [Hne Hi].
    rewrite IH by exact Hi. apply list_lookup_insert_ne. congruence.
Qed.

Lemma put_list_lookup_in {A} (a : list A) (idx : list nat) (vals : list A) (i : nat) :
  i ∈ idx -> length vals = length idx -> (i < length a)%nat ->
  exists v, v ∈ vals /\ put_list a idx vals !! i = Some v.
Proof.
  revert a vals. induction idx as [| j idx IH]; intros a vals Hi Hlen Hia.
  - inversion Hi.
  - destruct vals as [| v vals]; [discriminate Hlen |]. cbn.
    destruct (decide (i ∈ idx)) as [Hin | Hnin].
    + destruct (IH (<[j := v]> a) vals Hin) as (x & Hx & Hlook).
      * cbn in Hlen. lia.
      * rewrite length_insert. exact Hia.
      * exists x. split; [apply elem_of_cons; right; exact Hx | exact Hlook].
    + apply elem_of_cons in Hi as [-> | Hin]; [| contradiction].
      exists v. split; [apply elem_of_cons; left; reflexivity |].
      rewrite put_list_lookup_other by exact Hnin.
      apply list_lookup_insert_eq. exact Hia.
Qed.

Lemma forallb_lt_elem (idx : list nat) (n i : nat) :
  forallb (fun j => (j <? n)%nat) idx = true -> i ∈ idx -> (i < n)%nat.
Proof.
  intros H Hi. induction idx as [| j idx IH]; [inversion Hi |].
  cbn in H. apply andb_true_iff in H as [Hj H].
  apply elem_of_cons in Hi as [-> | Hi]; [apply Nat.ltb_lt, Hj | apply IH; assumption].
Qed.

Lemma assign_const_at_lookup {A} (a a' : list A) (idx : list nat) (c : A) (i : nat) :
  assign_const_at a idx c = Some a' ->
  a' !! i = if decide (i ∈ idx) then Some c else a !! i.
Proof.
  unfold assign_const_at. destruct (forallb _ idx) eqn:Hall; [| discriminate].
  intros [= <-]. destruct (decide (i ∈ idx)) as [Hin | Hnin].
  - apply put_const_lookup_in; [exact Hin | exact (forallb_lt_elem _ _ _ Hall Hin)].
  - apply put_const_lookup_other, Hnin.
Qed.

Lemma assign_at_lookup_other {A} (a a' : list A) (idx : list nat) (vals : list A) i :
  assign_at a idx vals = inr a' -> i ∉ idx -> a' !! i = a !! i.
Proof.
  unfold assign_at. destruct (forallb _ idx); [| discriminate].
  destruct (_ =? _)%nat; [| discriminate].
  intros [= <-] Hi. apply put_list_lookup_other, Hi.
Qed.

Lemma assign_at_lookup_in {A} (a a' : list A) (idx : list nat) (vals : list A) i :
  assign_at a idx vals = inr a' -> i ∈ idx ->
  exists v, v ∈ vals /\ a' !! i = Some v.
Proof.
  unfold assign_at. destruct (forallb _ idx) eqn:Hall; [| discriminate].
  destruct (_ =? _)%nat eqn:Hlen; [| discriminate].
  intros [= <-] Hi. apply put_list_lookup_in.
  - exact Hi.
  - apply Nat.eqb_eq, Hlen.
  - exact (forallb_lt_elem _ _ _ Hall Hi).
Qed.

Lemma np_where_bounded (mask : list bool) (n : nat) :
  (length mask <= n)%nat ->
  forallb (fun i => (i <? n)%nat) (np_where mask) = true.
Proof.
  intros Hlen. apply forallb_forall. intros i Hi.
  apply list_elem_of_In, elem_of_np_where, lookup_lt_Some in Hi.
  apply Nat.ltb_lt. lia.
Qed.

Lemma count_true_bounds (b : list bool) : 0 <= count_true b <= Z.of_nat (length b).
Proof. induction b as [| [|] b IH]; cbn [count_true length]; lia. Qed.






Lemma np_digitize_monotonic xs bins :
  nondecreasing bins = true \/ nonincreasing bins = true ->
  exists d, np_digitize xs bins = Some d.
Proof.
  unfold np_digitize. intros [-> | H].
  - eexists. reflexivity.
  - destruct (nondecreasing bins); [eexists; reflexivity |].
    rewrite H. eexists. reflexivity.
Qed.

(** ** In-place updates of the population object *)

Lemma assign_field_ok_inv {A} (read : SDEquilibrium -> list A) write idx vals w u w' :
  assign_field read write idx vals w = (Ok u, w') ->
  exists a, assign_at (read (population w)) idx vals = inr a
            /\ w' = with_population (write a (population w)) w.
Proof.
  unfold assign_field, bind, get_SD. cbn.
  destruct (assign_at _ idx vals) as [[|] | a]; cbn; try discriminate.
  intros [= <- <-]. exists a. split; reflexivity.
Qed.

Lemma assign_const_field_ok_inv {A} (read : SDEquilibrium -> list A) write idx c w u w' :
  assign_const_field read write idx c w = (Ok u, w') ->
  exists a, assign_const_at (read (population w)) idx c = Some a
            /\ w' = with_population (write a (population w)) w.
Proof.
  unfold assign_const_field, bind, get_SD. cbn.
  destruct (assign_const_at _ idx c) as [a |]; cbn; try discriminate.
  intros [= <- <-]. exists a. split; reflexivity.
Qed.

Lemma sample_ok_inv {A} (r : Rand A) w a w' :
  sample r w = (Ok a, w') ->
  a = fst (r (generator w))
  /\ w' = {| population := population w; generator := snd (r (generator w)) |}.
Proof.
  unfold sample. destruct (r (generator w)) as [x g]. intros [= <- <-]. auto.
Qed.

Lemma np_random_gamma_ok_inv n k w g w' :
  np_random_gamma n k w = (Ok g, w') ->
  w' = {| population := population w; generator := advance n (generator w) |}.
Proof.
  unfold np_random_gamma. destruct (Qeq_bool k 0); [discriminate |].
  destruct (Qltb k 0); [discriminate |].
  intros H. apply sample_ok_inv in H as [_ ->]. reflexivity.
Qed.

Lemma assign_field_run {A} (read : SDEquilibrium -> list A) write idx vals w :
  forallb (fun i => (i <? length (read (population w)))%nat) idx = true ->
  length vals = length idx ->
  assign_field read write idx vals w
  = (Ok tt, with_population
              (write (put_list (read (population w)) idx vals) (population w)) w).
Proof.
  intros Hidx Hlen. unfold assign_field, bind, get_SD, assign_at. cbv beta iota.
  rewrite Hidx, Hlen, Nat.eqb_refl. reflexivity.
Qed.

Lemma assign_const_field_run {A} (read : SDEquilibrium -> list A) write idx c w :
  forallb (fun i => (i <? length (read (population w)))%nat) idx = true ->
  assign_const_field read write idx c w
  = (Ok tt, with_population
              (write (put_const (read (population w)) idx c) (population w)) w).
Proof.
  intros Hidx. unfold assign_const_field, bind, get_SD, assign_const_at. cbv beta iota.
  rewrite Hidx. reflexivity.
Qed.

Lemma np_position_lt len i n : np_position len i = Some n -> (n < len)%nat.
Proof.
  unfold np_position.
  destruct ((0 <=? i) && (i <? Z.of_nat len)) eqn:H1.
  - apply andb_true_iff in H1 as [Hlo Hhi].
    apply Z.leb_le in Hlo. apply Z.ltb_lt in Hhi. intros [= <-]. lia.
  - destruct ((i <? 0) && (- Z.of_nat len <=? i)) eqn:H2; [| discriminate].
    apply andb_true_iff in H2 as [Hlo Hhi].
    apply Z.ltb_lt in Hlo. apply Z.leb_le in Hhi. intros [= <-]. lia.
Qed.

Lemma np_setitem_insert {A} (a : list A) i x a' :
  np_setitem a i x = Some a' ->
  exists n, (n < length a)%nat /\ a' = <[n := x]> a.
Proof.
  unfold np_setitem. destruct (np_position (length a) i) as [n |] eqn:Hn;
    [| discriminate].
  intros [= <-]. exists n. split; [exact (np_position_lt _ _ _ Hn) | reflexivity].
Qed.



(** ** EventSampler, single draw *)

Lemma total_item_add_run i d w :
  total_item_add i d w
  = match item_add (total (worms (population w))) i d with
    | Some a => (Ok tt, with_population (set_total a (population w)) w)
    | None => (Raise IndexError, w)
    end.
Proof.
  unfold total_item_add, bind, get_SD. destruct (item_add _ i d); reflexivity.
Qed.

Lemma female_item_add_run i d w :
  female_item_add i d w
  = match item_add (female (worms (population w))) i d with
    | Some a => (Ok tt, with_population (set_female a (population w)) w)
    | None => (Raise IndexError, w)
    end.
Proof.
  unfold female_item_add, bind, get_SD. destruct (item_add _ i d); reflexivity.
Qed.

Lemma sv_setitem_run i x w :
  sv_setitem i x w
  = match np_setitem (sv (population w)) i x with
    | Some a => (Ok tt, with_population (set_sv a (population w)) w)
    | None => (Raise IndexError, w)
    end.
Proof.
  unfold sv_setitem, bind, get_SD. destruct (np_setitem _ i x); reflexivity.
Qed.

#[local] Arguments total_item_add : simpl never.
#[local] Arguments female_item_add : simpl never.
#[local] Arguments sv_setitem : simpl never.







(** A change of worm counts leaves the vaccine statuses alone. *)
Lemma change_worms_sv host d isFemale SD SD' :
  change_worms host d isFemale SD = Some SD' -> sv SD' = sv SD.
Proof.
  unfold change_worms.
  destruct (item_add (total (worms SD)) host d) as [t' |]; [| discriminate].
  destruct isFemale.
  - destruct (item_add (female (worms SD)) host d); [| discriminate].
    intros [= <-]. reflexivity.
  - intros [= <-]. reflexivity.
Qed.





(** The slip next to C1: with a rate vector of length one, slot 0 is the
    death slot and also satisfies [event <= N]; one call takes a worm from
    host 1 and gives a worm to host 0. *)
Example doEvent_death_slot_also_acquires :
  let r := doEvent [1%Q] (Fixtures.base_params 2) Fixtures.short_world in
  fst r = Ok tt
  /\ total (worms (population Fixtures.short_world)) = [5; 6]
  /\ total (worms (population (snd r))) = [6; 5].
Proof. vm_compute. auto. Qed.

(** The second slip next to C1: with four slots and [N = 2], slot 3 is the
    death slot and also the reset slot of host 1; one call takes a worm
    from host 1 and resets its vaccine status, which no single atomic
    change does. *)
Example doEvent_death_slot_also_resets :
  let w := Fixtures.reset_world in
  let r := doEvent Fixtures.death_rates (Fixtures.base_params 2) w in
  fst r = Ok tt
  /\ total (worms (population w)) = [5; 7] /\ sv (population w) = [1; 1]
  /\ total (worms (population (snd r))) = [5; 6] /\ sv (population (snd r)) = [1; 0]
  /\ ~ exists c : Change, apply_change c (population w) = Some (population (snd r)).
Proof.
  intros w r.
  assert (Ht : total (worms (population (snd r))) = [5; 6]) by (vm_compute; reflexivity).
  assert (Hs : sv (population (snd r)) = [1; 0]) by (vm_compute; reflexivity).
  repeat split; try (vm_compute; reflexivity).
  intros [c Hc]. destruct c as [h f | h | h f]; unfold apply_change in Hc.
  - apply change_worms_sv in Hc. rewrite Hs in Hc. discriminate Hc.
  - destruct (np_setitem (sv (population w)) h 0); [| discriminate Hc].
    apply (f_equal (option_map (fun SD => total (worms SD)))) in Hc.
    cbv beta iota delta [option_map] in Hc. rewrite Ht in Hc. discriminate Hc.
  - apply change_worms_sv in Hc. rewrite Hs in Hc. discriminate Hc.
Qed.

(** C2, concrete call: one host with 10 worms, 4 of them female.  The
    death slot is selected, host 0 loses a worm, and the variate [0.42] is
    compared with [4 / 9] (the total already decremented): the female count
    drops to 3 although [0.42] is not below the female fraction [4 / 10]
    the host had.  With [2 N + 1] slots the worm counts end the same, and
    the call then raises [IndexError] at [SD.sv[N] = 0]. *)
Theorem doEvent_death_uses_decremented_total :
  let w := Fixtures.death_world in
  let r := doEvent Fixtures.death_rates (Fixtures.base_params 1) w in
  let r' := doEvent Fixtures.death_rates_short (Fixtures.base_params 1) w in
  fst r = Ok tt
  /\ total (worms (population w)) = [10] /\ female (worms (population w)) = [4]
  /\ uniform_src (generator w) 2 = (21 # 50)%Q
  /\ ~ (21 # 50 < 4 # 10)%Q
  /\ total (worms (population (snd r))) = [9]
  /\ female (worms (population (snd r))) = [3]
  /\ fst r' = Raise IndexError
  /\ worms (population (snd r')) = worms (population (snd r)).
Proof.
  vm_compute. repeat split; try reflexivity. intros H. discriminate H.
Qed.

(** ** EventSampler, batched draw *)

(** C3, concrete call: one host with 5 worms and a batch of two draws that
    both resolve to slot 0 (acquisition by host 0) and both pass the [v3]
    gate: the call leaves the host with 6 worms, the effect of one draw,
    not with 7. *)
Theorem doEvent2_repeated_host_gets_one_effect :
  let w := Fixtures.batch_world in
  let r := doEvent2 3%Q Fixtures.batch_cumsum (Fixtures.base_params 1) 2 w in
  fst r = Ok tt
  /\ total (worms (population w)) = [5]
  /\ map (fun u => argmax_bool (map (fun c => Qltb (u * 3)%Q c) Fixtures.batch_cumsum))
         (fst (uniform_draws 2 (generator w))) = [0%nat; 0%nat]
  /\ np_take (v3 (Fixtures.base_params 1)) (sv (population w)) = Some [1%Q]
  /\ total (worms (population (snd r))) = [6].
Proof. vm_compute. auto 10. Qed.

(** ** FreeLivingUpdater *)

Lemma productive_female_worms_world params SD w :
  snd (productive_female_worms params SD w) = w.
Proof.
  unfold productive_female_worms.
  repeat match goal with |- context [if ?b then _ else _] => destruct b end;
    try apply or_raise_world; reflexivity.
Qed.

Lemma eggs_prod_rate_world params SD pfw w :
  snd (eggs_prod_rate params SD pfw w) = w.
Proof.
  unfold eggs_prod_rate, bind.
  repeat match goal with
         | |- context [or_raise ?o ?e w] => destruct o; cbn
         end; reflexivity.
Qed.

Lemma set_freeLiving_same SD : set_freeLiving (freeLiving SD) SD = SD.
Proof. destruct SD. reflexivity. Qed.

Lemma reservoir_step_zero params f r :
  LDecayRate params <> 0%R ->
  reservoir_step params 0 f (Finite r) = f.
Proof.
  intros HL. unfold reservoir_step. destruct f as [f |]; [| reflexivity].
  destruct (Req_dec_T (LDecayRate params) 0) as [E | _]; [contradiction |].
  rewrite Rmult_0_r, exp_0. f_equal. field. exact HL.
Qed.

(** [(1 - exp(-L dt)) / L >= 0] for a non-zero rate [L] and [dt >= 0]. *)
Lemma decay_gain_nonneg (L dt : R) :
  L <> 0%R -> (0 <= dt)%R -> (0 <= (1 - exp (- L * dt)) / L)%R.
Proof.
  intros HL Hdt. destruct (Rlt_le_dec 0 L) as [Hpos | Hneg].
  - assert (exp (- L * dt) <= 1)%R as He.
    { rewrite <- exp_0. destruct (Req_dec_T (- L * dt) 0) as [-> | Hne].
      - apply Rle_refl.
      - left. apply exp_increasing. nra. }
    apply Rmult_le_pos; [lra |]. left. apply Rinv_0_lt_compat, Hpos.
  - assert (L < 0)%R as Hlt by lra.
    assert (1 <= exp (- L * dt))%R as He.
    { rewrite <- exp_0. destruct (Req_dec_T (- L * dt) 0) as [-> | Hne].
      - apply Rle_refl.
      - left. apply exp_increasing. nra. }
    unfold Rdiv. replace ((1 - exp (- L * dt)) * / L)%R
      with ((exp (- L * dt) - 1) * / (- L))%R.
    + apply Rmult_le_pos; [lra |]. left. apply Rinv_0_lt_compat. lra.
    + field. exact HL.
Qed.

Lemma reservoir_step_nonneg params dt f r :
  LDecayRate params <> 0%R -> (0 <= dt)%R -> (0 <= f)%R -> (0 <= r)%R ->
  exists f', reservoir_step params dt (Finite f) (Finite r) = Finite f'
             /\ (0 <= f')%R.
Proof.
  intros HL Hdt Hf Hr. unfold reservoir_step.
  destruct (Req_dec_T (LDecayRate params) 0) as [E | _]; [contradiction |].
  eexists. split; [reflexivity |].
  apply Rplus_le_le_0_compat.
  - apply Rmult_le_pos; [exact Hf | left; apply exp_pos].
  - unfold Rdiv. rewrite Rmult_assoc. apply Rmult_le_pos; [exact Hr |].
    apply (decay_gain_nonneg _ _ HL Hdt).
Qed.

(** C8 (amended): for a reservoir decay rate other than zero,
    [doFreeLive] with [dt = 0] and a host count other than zero leaves the
    reservoir and the rest of the state as they are; and for [dt >= 0], when
    the production rate it computes and the reservoir level are
    non-negative numbers, the call returns and the new level is a
    non-negative number. *)
Theorem doFreeLive_reservoir params dt w :
  LDecayRate params <> 0%R ->
  (N params <> 0 -> dt = 0%R -> snd (doFreeLive params dt w) = w)
  /\ ((0 <= dt)%R ->
      forall productivefemaleworms r f,
        fst (productive_female_worms params (population w) w)
          = Ok productivefemaleworms ->
        fst (eggs_prod_rate params (population w) productivefemaleworms w)
          = Ok (Finite r) ->
        (0 <= r)%R ->
        freeLiving (population w) = Finite f -> (0 <= f)%R ->
        fst (doFreeLive params dt w) = Ok tt
        /\ exists f', freeLiving (population (snd (doFreeLive params dt w))) = Finite f'
                      /\ (0 <= f')%R).
Proof.
  intros HL.
  assert (Hstep :
    doFreeLive params dt w
    = match productive_female_worms params (population w) w with
      | (Ok p, _) =>
          match eggs_prod_rate params (population w) p w with
          | (Ok rate, _) =>
              (Ok tt, with_population
                        (set_freeLiving
                           (reservoir_step params dt (freeLiving (population w)) rate)
                           (population w)) w)
          | (Raise e, _) => (Raise e, w)
          end
      | (Raise e, _) => (Raise e, w)
      end).
  { unfold doFreeLive, bind, get_SD.
    pose proof (productive_female_worms_world params (population w) w) as Hp.
    destruct (productive_female_worms params (population w) w) as [[p | e] w1];
      cbn in Hp; subst w1; [| reflexivity].
    pose proof (eggs_prod_rate_world params (population w) p w) as Hr.
    destruct (eggs_prod_rate params (population w) p w) as [[rate | e] w2];
      cbn in Hr; subst w2; reflexivity. }
  split.
  - intros HN ->. rewrite Hstep.
    destruct (productive_female_worms params (population w) w) as [[p | e] w1];
      [| reflexivity].
    destruct (eggs_prod_rate params (population w) p w) as [[rate | e] w2] eqn:Hrate;
      [| reflexivity].
    assert (exists r, rate = Finite r) as [r ->].
    { unfold eggs_prod_rate, bind in Hrate.
      repeat match type of Hrate with
             | context [or_raise ?o ?e w] => destruct o; cbn in Hrate
             end; try discriminate Hrate.
      apply Z.eqb_neq in HN. rewrite HN in Hrate.
      inversion Hrate. eexists. reflexivity. }
    rewrite reservoir_step_zero by exact HL.
    rewrite set_freeLiving_same. destruct w. reflexivity.
  - intros Hdt p r f Hp Hr Hr0 Hf Hf0. rewrite Hstep.
    destruct (productive_female_worms params (population w) w) as [[p' | e] w1];
      cbn in Hp; [| discriminate Hp]. injection Hp as ->.
    destruct (eggs_prod_rate params (population w) p w) as [[rate | e] w2];
      cbn in Hr; [| discriminate Hr]. injection Hr as ->.
    cbn. split; [reflexivity |]. rewrite Hf.
    apply reservoir_step_nonneg; assumption.
Qed.

(** C8, concrete call: one host, a reservoir at level 10 and a decay rate
    of zero.  With [dt = 0] the update divides zero by zero: the call
    returns and the reservoir level is no longer a number. *)
Lemma doFreeLive_zero_decay_rate_loses_level :
  let w := Fixtures.death_world in
  let r := doFreeLive Fixtures.no_decay_params 0%R w in
  fst r = Ok tt
  /\ freeLiving (population w) = Finite 10%R
  /\ freeLiving (population (snd r)) = NonFinite
  /\ freeLiving (population (snd r)) <> freeLiving (population w).
Proof.
  cbn. unfold reservoir_step. cbn.
  destruct (Req_dec_T 0 0) as [_ | Hne]; [| contradiction Hne; reflexivity].
  repeat split; try reflexivity. discriminate.
Qed.

(** Next to C8: with a host count of zero the production rate is [0 / 0],
    and the reservoir level is lost in the same way. *)
Example doFreeLive_zero_hosts_loses_level :
  let w := Fixtures.empty_world in
  let r := doFreeLive Fixtures.no_host_params 0%R w in
  fst r = Ok tt
  /\ freeLiving (population w) = Finite 10%R
  /\ freeLiving (population (snd r)) = NonFinite.
Proof. cbn. auto. Qed.

(** C8 at one host, decay rate 1 and [dt = 0]. *)
Lemma doFreeLive_reservoir_witness :
  let w := Fixtures.death_world in
  let r := doFreeLive (Fixtures.base_params 1) 0%R w in
  snd r = w
  /\ fst r = Ok tt
  /\ exists f', freeLiving (population (snd r)) = Finite f' /\ (0 <= f')%R.
Proof.
  intros w r.
  assert (HL : LDecayRate (Fixtures.base_params 1) <> 0%R) by (cbn; lra).
  destruct (doFreeLive_reservoir (Fixtures.base_params 1) 0%R w HL) as [Hnoop Hpos].
  split.
  - apply Hnoop; [discriminate | reflexivity].
  - eapply Hpos.
    + lra.
    + reflexivity.
    + reflexivity.
    + cbn. change (IZR (Z.min (10 - 4) 4)) with 4%R.
      pose proof (exp_pos (- (10) * 0)) as He. lra.
    + reflexivity.
    + lra.
Defined.

(** ** DemographicUpdater *)

Section DemographyFacts.

Variable getLifeSpans : nat -> Parameters -> Rand (list Q).

(** The addition used for [t + lifeSpans]. *)
Variable date_add : Q -> Q -> Q.



(** On parallel arrays, with a positive aggregation parameter [k],
    monotonic age breaks and a lifespan sampler that hands back as many
    draws as it is asked for, [doDeath] returns, whatever the addition. *)
Lemma doDeath_returns params t w cb tb vb :
  parallel_arrays (population w) ->
  (0 < k params)%Q ->
  contactAgeGroupBreaks params = Some cb -> monotonic cb ->
  treatmentAgeGroupBreaks params = Some tb -> monotonic tb ->
  VaccTreatmentAgeGroupBreaks params = Some vb -> monotonic vb ->
  (forall n g, length (fst (getLifeSpans n params g)) = n) ->
  exists w', doDeath_with getLifeSpans date_add params t w = (Ok tt, w').
Proof.
  intros (Hsi & Hsv & Hb & Ht & Hf & Ha & Hc) Hk Hcb Mcb Htb Mtb Hvb Mvb Hls.
  unfold doDeath_with. unfold bind at 1. cbn [get_SD].
  set (theDead := np_where (map (fun d => Qltb d t)
                                (deathDate (demography (population w))))).
  assert (Hbound : forall n, n = length (deathDate (demography (population w))) ->
            forallb (fun i => (i <? n)%nat) theDead = true).
  { intros n ->. apply np_where_bounded. rewrite length_map. lia. }
  assert (Hrest : forall w1,
    exists w', (contactBreaks <- or_raise (contactAgeGroupBreaks params) AssertionError ;;
       SD <- get_SD ;;
       contactIdx <- or_raise (age_group_indices t SD contactBreaks) not_monotonic ;;
       update_SD (set_contactAgeGroupIndices contactIdx) ;;
       treatmentBreaks <- or_raise (treatmentAgeGroupBreaks params) AssertionError ;;
       vaccBreaks <- or_raise (VaccTreatmentAgeGroupBreaks params) AssertionError ;;
       SD <- get_SD ;;
       treatmentIdx <- or_raise (age_group_indices t SD treatmentBreaks) not_monotonic ;;
       update_SD (set_treatmentAgeGroupIndices treatmentIdx) ;;
       SD <- get_SD ;;
       vaccIdx <- or_raise (age_group_indices t SD vaccBreaks) not_monotonic ;;
       update_SD (set_VaccTreatmentAgeGroupIndices (Some vaccIdx))) w1 = (Ok tt, w')).
  { intros w1. rewrite Hcb, Htb, Hvb. unfold bind, age_group_indices. cbn.
    destruct (np_digitize_monotonic
                (map (fun b => (t - b)%Q) (birthDate (demography (population w1))))
                cb Mcb) as [d1 ->].
    cbn.
    destruct (np_digitize_monotonic
                (map (fun b => (t - b)%Q) (birthDate (demography (population w1))))
                tb Mtb) as [d2 ->].
    cbn.
    destruct (np_digitize_monotonic
                (map (fun b => (t - b)%Q) (birthDate (demography (population w1))))
                vb Mvb) as [d3 ->].
    cbn. eexists. reflexivity. }
  destruct (negb (length theDead =? 0)%nat).
  2:{ unfold bind at 1. cbn [ret]. apply Hrest. }
  unfold bind at 1.
  assert (Hgamma : np_random_gamma (length theDead) (k params) w
                   = sample (gamma_draws (length theDead)) w).
  { unfold np_random_gamma.
    assert (Qeq_bool (k params) 0 = false) as ->.
    { destruct (Qeq_bool (k params) 0) eqn:E; [| reflexivity].
      apply Qeq_bool_iff in E. rewrite E in Hk. exfalso. exact (Qlt_irrefl _ Hk). }
    assert (Qltb (k params) 0 = false) as ->.
    { destruct (Qltb (k params) 0) eqn:E; [| reflexivity].
      apply Qltb_lt in E. exfalso. exact (Qlt_irrefl _ (Qlt_trans _ _ _ Hk E)). }
    reflexivity. }
  unfold bind at 1. rewrite Hgamma. cbn [sample gamma_draws].
  unfold bind at 1. rewrite assign_field_run;
    [| cbn; apply Hbound; exact Hsi | cbn; rewrite length_map, length_seq; reflexivity].
  unfold bind at 1. rewrite assign_const_field_run; [| cbn; apply Hbound; exact Hsv].
  unfold bind at 1. rewrite assign_const_field_run; [| cbn; apply Hbound; exact Hb].
  unfold bind at 1. unfold sample at 1. cbn [generator with_population].
  destruct (getLifeSpans (length theDead) params (advance (length theDead) (generator w)))
    as [ls g1] eqn:Els.
  unfold bind at 1. rewrite assign_field_run;
    [| cbn; apply Hbound; reflexivity
     | rewrite length_map; specialize (Hls (length theDead)
                             (advance (length theDead) (generator w)));
       rewrite Els in Hls; exact Hls].
  unfold bind at 1. rewrite assign_const_field_run; [| cbn; apply Hbound; exact Ht].
  unfold bind at 1. rewrite assign_const_field_run; [| cbn; apply Hbound; exact Hf].
  unfold bind at 1. cbn [sample uniform_draws generator with_population].
  unfold bind at 1. rewrite assign_field_run;
    [| cbn; apply Hbound; exact Ha | cbn; rewrite length_map, length_seq; reflexivity].
  unfold bind at 1. cbn [sample uniform_draws generator with_population].
  rewrite assign_field_run;
    [| cbn; apply Hbound; exact Hc
     | cbn; rewrite !length_map, length_seq; reflexivity].
  apply Hrest.
Qed.

End DemographyFacts.



(** ** InterventionEngine: vaccination *)

Lemma zip_with_same_Some {A B C} (f : A -> B -> C) a b r :
  zip_with_same f a b = Some r -> r = zip_with f a b /\ length a = length b.
Proof.
  revert b r. induction a as [| x a IH]; intros [| y b] r; cbn; try discriminate.
  - intros [= <-]. auto.
  - destruct (zip_with_same f a b) as [r' |] eqn:E; [| discriminate].
    intros [= <-]. destruct (IH b r' E) as [-> Hlen]. auto.
Qed.

Lemma mask_set_lookup {A} (mask : list bool) (c : A) (a : list A) (i : nat) :
  length mask = length a ->
  mask_set mask c a !! i
  = match mask !! i with Some true => Some c | _ => a !! i end.
Proof.
  revert a i. induction mask as [| m mask IH]; intros [| x a] i Hlen;
    try discriminate Hlen; cbn.
  - reflexivity.
  - destruct i as [| i]; cbn.
    + destruct m; reflexivity.
    + apply IH. cbn in Hlen. lia.
Qed.

Lemma indicesToVaccinate_banded params idx :
  existsb (Z.eqb idx) (indicesToVaccinate params) = banded_index params idx.
Proof.
  unfold indicesToVaccinate, banded_index.
  set (L := length (VaccTreatmentBreaks params)).
  apply eq_true_iff_eq. rewrite existsb_exists. split.
  - intros (x & Hx & Heq). apply Z.eqb_eq in Heq. subst x.
    apply in_map_iff in Hx as (j & <- & Hj). apply in_seq in Hj.
    rewrite !andb_true_iff. repeat split.
    + replace (1 + Z.of_nat j * 2) with (2 * Z.of_nat j + 1) by lia.
      apply Z.odd_odd.
    + apply Z.leb_le. lia.
    + apply Z.leb_le. lia.
  - rewrite !andb_true_iff. intros [[Hodd Hlo] Hhi].
    apply Z.leb_le in Hlo, Hhi. apply Z.odd_spec in Hodd as [m ->].
    exists (2 * m + 1). split; [| apply Z.eqb_refl].
    apply in_map_iff. exists (Z.to_nat m). split; [lia | apply in_seq; lia].
Qed.

(** C6 (amended): a vaccination round that returns has set the vaccine
    status to 1 exactly for the hosts whose age-group index is one of
    1, 3, ..., 2 len(VaccTreatmentBreaks) - 1 and whose uniform draw is below
    the coverage at index [(idx + 1) // 2 - 1], and has added the number of
    eligible hosts plus the number of selected hosts to [vaccCount]. *)
Theorem doVaccine_banded_outcome params t VaccCoverage w w' :
  doVaccine params t VaccCoverage w = (Ok tt, w') ->
  vaccination_outcome (banded_index params) params VaccCoverage w w'.
Proof.
  intros H. unfold doVaccine in H.
  apply bind_ok_inv in H as (SD & w0 & H0 & H). inversion H0; subst SD w0; clear H0.
  apply bind_ok_inv in H as (vaccIdx & w0 & Hidx & H).
  apply or_raise_ok_inv in Hidx as [Hidx ->].
  apply bind_ok_inv in H as (us & w1 & Hus & H).
  unfold np_random_uniform in Hus. destruct (N params <? 0); [discriminate Hus |].
  apply sample_ok_inv in Hus as [-> ->].
  apply bind_ok_inv in H as (coverages & w2 & Hcov & H).
  apply or_raise_ok_inv in Hcov as [Hcov ->].
  apply bind_ok_inv in H as (vaccinate & w2 & Hv & H).
  apply or_raise_ok_inv in Hv as [Hv ->].
  apply zip_with_same_Some in Hv as [-> Hlen_v].
  apply bind_ok_inv in H as (vaccNow & w2 & Hnow & H).
  apply or_raise_ok_inv in Hnow as [Hnow ->].
  apply zip_with_same_Some in Hnow as [-> Hlen_now].
  apply bind_ok_inv in H as ([] & w2 & Hset & H).
  unfold sv_mask_set, bind, get_SD in Hset. cbn in Hset.
  destruct (_ =? _)%nat eqn:Hlen_sv; [| discriminate Hset].
  apply Nat.eqb_eq in Hlen_sv.
  inversion Hset; subst w2; clear Hset. inversion H; subst w'; clear H. cbn.
  exists vaccIdx, coverages. split; [exact Hidx |]. split; [exact Hcov |]. split.
  - intros i idx sel Hi Hsel. unfold uniform_draws in Hsel. cbn in Hsel |- *.
    rewrite mask_set_lookup by exact Hlen_sv.
    rewrite lookup_zip_with, map_lookup, Hi. cbn. rewrite Hsel. cbn.
    rewrite indicesToVaccinate_banded.
    destruct (banded_index params idx && sel); reflexivity.
  - unfold uniform_draws. cbn. do 2 f_equal. f_equal. apply map_ext. intros idx. apply indicesToVaccinate_banded.
Qed.

(** C6, concrete round: the only host has age 10 and age-group index 3,
    which is odd, and is selected ([0 < 1]), but with a single vaccination
    break the eligible indices are just [1]: the round returns and the host
    is not vaccinated. *)
Lemma doVaccine_odd_index_not_eligible :
  let w := Fixtures.vaccine_world in
  let w' := snd (doVaccine Fixtures.vaccine_params 10%Q Fixtures.vaccine_coverage w) in
  age_group_indices 10%Q (population w) [0%Q; 5%Q; 6%Q; 10%Q; 100%Q]
    = VaccTreatmentAgeGroupIndices (population w)
  /\ doVaccine Fixtures.vaccine_params 10%Q Fixtures.vaccine_coverage w = (Ok tt, w')
  /\ sv (population w') = [0]
  /\ ~ vaccination_outcome odd_index Fixtures.vaccine_params
         Fixtures.vaccine_coverage w w'.
Proof.
  split; [vm_compute; reflexivity |].
  split; [vm_compute; reflexivity |].
  split; [vm_compute; reflexivity |].
  intros (vaccIdx & coverages & Hidx & Hcov & Hsv & _).
  cbn in Hidx. injection Hidx as <-.
  cbn in Hcov. injection Hcov as <-.
  specialize (Hsv 0%nat 3 true eq_refl eq_refl).
  vm_compute in Hsv. discriminate Hsv.
Qed.

(** C6 at the same round: the outcome with the banded eligibility. *)
Lemma doVaccine_banded_outcome_witness :
  let w' := snd (doVaccine Fixtures.vaccine_params 10%Q Fixtures.vaccine_coverage
                           Fixtures.vaccine_world) in
  vaccination_outcome (banded_index Fixtures.vaccine_params) Fixtures.vaccine_params
    Fixtures.vaccine_coverage Fixtures.vaccine_world w'.
Proof.
  intros w'.
  apply (doVaccine_banded_outcome Fixtures.vaccine_params 10%Q
           Fixtures.vaccine_coverage Fixtures.vaccine_world w').
  vm_compute. reflexivity.
Defined.

(** ** InterventionEngine: chemotherapy by age range *)

(** C4, concrete call: host 0 never complies, host 1 complies, attends and
    is in the age range, so host 1 is the whole cohort.  Drug 1 with
    efficacy 1 is given at position 0 of the cohort, and the kills are
    applied to position 0 of the population: host 0 loses all its worms and
    host 1 keeps all of its own. *)
Theorem doChemoAgeRange_treats_wrong_host :
  let w := Fixtures.chemo_world in
  let r := doChemoAgeRange (Fixtures.base_params 2) 10%Q 5 15 1%Q w in
  fst r = Ok tt
  /\ compliers (population w) = [false; true]
  /\ total (worms (population w)) = [5; 7] /\ female (worms (population w)) = [2; 3]
  /\ total (worms (population (snd r))) = [0; 7]
  /\ female (worms (population (snd r))) = [0; 3]
  /\ attendanceRecord (population (snd r)) = [AttendanceIndex [0%nat]].
Proof. vm_compute. auto 10. Qed.

(** ** SurveyEngine *)

Section SurveyFacts.

Variable getSetOfEggCounts : list Z -> list Z -> Parameters -> bool -> Rand (list Q).

Lemma reads_only_egg_reading params :
  reads_only (egg_reading getSetOfEggCounts params).
Proof.
  unfold egg_reading. apply reads_only_bind; auto with py_frame.
Qed.

Lemma reads_only_add_readings params n eggCounts :
  reads_only (add_readings getSetOfEggCounts params n eggCounts).
Proof.
  revert eggCounts. induction n as [| n IH]; intros eggCounts; cbn.
  - apply reads_only_ret.
  - apply reads_only_bind; [apply reads_only_egg_reading |].
    intros r. apply reads_only_bind; [apply reads_only_or_raise |].
    intros c. apply IH.
Qed.

Lemma never_raises_egg_reading e0 params :
  never_raises e0 (egg_reading getSetOfEggCounts params).
Proof.
  unfold egg_reading. apply never_raises_bind.
  - apply never_raises_get_SD.
  - intros SD. apply never_raises_sample.
Qed.

Lemma never_raises_add_readings params n eggCounts :
  never_raises (ValueError "nSamples < 1")
               (add_readings getSetOfEggCounts params n eggCounts).
Proof.
  revert eggCounts. induction n as [| n IH]; intros eggCounts; cbn.
  - apply never_raises_ret.
  - apply never_raises_bind; [apply never_raises_egg_reading |].
    intros r. apply never_raises_bind.
    + apply never_raises_or_raise. discriminate.
    + intros c. apply IH.
Qed.

(** C9: with [nSamples < 1] both surveys raise [ValueError("nSamples < 1")]
    at once, leaving the population object (and the generator) exactly as
    they were; with [nSamples >= 1] neither survey raises that error. *)
Theorem survey_rejects_nSamples_below_one params t sampleSize nSamples w :
  (nSamples < 1 ->
     conductSurvey getSetOfEggCounts params t sampleSize nSamples w
       = (Raise (ValueError "nSamples < 1"), w)
     /\ conductSurveyTwo getSetOfEggCounts params t sampleSize nSamples w
       = (Raise (ValueError "nSamples < 1"), w))
  /\ (1 <= nSamples ->
     fst (conductSurvey getSetOfEggCounts params t sampleSize nSamples w)
       <> Raise (ValueError "nSamples < 1")
     /\ fst (conductSurveyTwo getSetOfEggCounts params t sampleSize nSamples w)
       <> Raise (ValueError "nSamples < 1")).
Proof.
  split.
  - intros Hlt. unfold conductSurvey, conductSurveyTwo.
    apply Z.ltb_lt in Hlt. rewrite Hlt. split; reflexivity.
  - intros Hge. unfold conductSurvey, conductSurveyTwo.
    assert (Hnlt : (nSamples <? 1) = false) by (apply Z.ltb_ge; lia).
    rewrite Hnlt. split.
    + apply never_raises_bind; [apply never_raises_egg_reading |]. intros e1.
      apply never_raises_bind; [apply never_raises_add_readings |]. intros e2.
      apply never_raises_bind; [apply never_raises_get_SD |]. intros SD.
      apply never_raises_bind.
      { destruct (_ =? _)%nat;
          [apply never_raises_ret | apply never_raises_raise; discriminate]. }
      intros eggs.
      apply never_raises_bind; [apply never_raises_np_random_choice |]. intros s.
      apply never_raises_bind; [apply never_raises_update_SD |]. intros _.
      apply never_raises_ret.
    + apply never_raises_bind; [apply never_raises_egg_reading |]. intros e1.
      apply never_raises_bind; [apply never_raises_add_readings |]. intros e2.
      apply never_raises_bind; [apply never_raises_np_random_choice |]. intros s.
      apply never_raises_bind; [apply never_raises_get_SD |]. intros SD.
      apply never_raises_bind; [apply never_raises_or_raise; discriminate |].
      intros n2.
      apply never_raises_bind; [apply never_raises_update_SD |]. intros _.
      apply never_raises_ret.
Qed.

(** C10: a survey call that returns has changed nothing in the population
    object but its own counter, which it has incremented by one:
    [numSurvey] for [conductSurvey], [numSurveyTwo] for
    [conductSurveyTwo]. *)
Theorem survey_only_increments_its_counter params t sampleSize nSamples w :
  (forall prev w',
     conductSurvey getSetOfEggCounts params t sampleSize nSamples w = (Ok prev, w') ->
     population w' = set_numSurvey (numSurvey (population w) + 1) (population w))
  /\ (forall prev w',
     conductSurveyTwo getSetOfEggCounts params t sampleSize nSamples w = (Ok prev, w') ->
     exists n2, numSurveyTwo (population w) = Some n2
       /\ population w' = set_numSurveyTwo (Some (n2 + 1)) (population w)).
Proof.
  split; intros prev w' H.
  - unfold conductSurvey in H. destruct (nSamples <? 1); [discriminate H |].
    apply bind_ok_inv in H as (e1 & w1 & H1 & H).
    apply (reads_only_ok _ _ _ _ (reads_only_egg_reading params)) in H1.
    apply bind_ok_inv in H as (e2 & w2 & H2 & H).
    apply (reads_only_ok _ _ _ _ (reads_only_add_readings params _ _)) in H2.
    apply bind_ok_inv in H as (SD & w3 & H3 & H). inversion H3; subst SD w3; clear H3.
    apply bind_ok_inv in H as (eggs & w4 & H4 & H).
    assert (population w4 = population w2) as E4.
    { destruct (_ =? _)%nat; inversion H4; reflexivity. }
    apply bind_ok_inv in H as (s & w5 & H5 & H).
    apply (reads_only_ok _ _ _ _ (reads_only_np_random_choice _ _)) in H5.
    apply bind_ok_inv in H as ([] & w6 & H6 & H).
    inversion H6; subst w6; clear H6. inversion H; subst; clear H. cbn.
    rewrite H5, E4, H2, H1. reflexivity.
  - unfold conductSurveyTwo in H. destruct (nSamples <? 1); [discriminate H |].
    apply bind_ok_inv in H as (e1 & w1 & H1 & H).
    apply (reads_only_ok _ _ _ _ (reads_only_egg_reading params)) in H1.
    apply bind_ok_inv in H as (e2 & w2 & H2 & H).
    apply (reads_only_ok _ _ _ _ (reads_only_add_readings params _ _)) in H2.
    apply bind_ok_inv in H as (s & w3 & H3 & H).
    apply (reads_only_ok _ _ _ _ (reads_only_np_random_choice _ _)) in H3.
    apply bind_ok_inv in H as (SD & w4 & H4 & H). inversion H4; subst SD w4; clear H4.
    apply bind_ok_inv in H as (n2 & w5 & H5 & H).
    apply or_raise_ok_inv in H5 as [Hn2 ->].
    apply bind_ok_inv in H as ([] & w6 & H6 & H).
    inversion H6; subst w6; clear H6. inversion H; subst; clear H. cbn.
    exists n2. rewrite H3, H2, H1 in *. split; [exact Hn2 | reflexivity].
Qed.

End SurveyFacts.

(** C9 at [nSamples = 0]. *)
Lemma survey_rejects_nSamples_below_one_witness :
  conductSurvey Fixtures.alternating_readings (Fixtures.base_params 2) 10%Q 2 0
                Fixtures.chemo_world
  = (Raise (ValueError "nSamples < 1"), Fixtures.chemo_world)
  /\ conductSurveyTwo Fixtures.alternating_readings (Fixtures.base_params 2) 10%Q 2 0
                      Fixtures.chemo_world
     = (Raise (ValueError "nSamples < 1"), Fixtures.chemo_world).
Proof.
  apply (proj1 (survey_rejects_nSamples_below_one Fixtures.alternating_readings
                  (Fixtures.base_params 2) 10%Q 2 0 Fixtures.chemo_world)).
  lia.
Defined.

(** C10 at a survey of two hosts with [nSamples = 1]. *)
Lemma survey_only_increments_its_counter_witness :
  let w := Fixtures.chemo_world in
  let w' := snd (conductSurvey Fixtures.alternating_readings (Fixtures.base_params 2)
                               10%Q 2 1 w) in
  population w' = set_numSurvey (numSurvey (population w) + 1) (population w).
Proof.
  intros w w'.
  apply (proj1 (survey_only_increments_its_counter Fixtures.alternating_readings
                  (Fixtures.base_params 2) 10%Q 2 1 w) (Fin (1 # 2)) w').
  vm_compute. reflexivity.
Defined.

(** C5, concrete call: two hosts, [nSamples = 1], [sampleSize = N = 2]; the
    sampler's readings are [0, 1], then [1, 0].  [conductSurveyTwo] takes
    both readings (the generator has moved by two readings and two
    sampling variates), sums them and divides by 1: prevalence [2 / 2],
    while the fraction of hosts with a reading above 0.9 is [1 / 2] in
    either single reading, which is what [conductSurvey] returns. *)
Theorem conductSurveyTwo_takes_one_reading_more :
  let w := Fixtures.chemo_world in
  let r := conductSurveyTwo Fixtures.alternating_readings (Fixtures.base_params 2)
                            10%Q 2 1 w in
  fst r = Ok (Fin (2 # 2))
  /\ cursor (generator (snd r)) = 4%nat
  /\ prevalence [0%Q; 1%Q] 2 = Fin (1 # 2)
  /\ prevalence [1%Q; 0%Q] 2 = Fin (1 # 2)
  /\ fst (conductSurvey Fixtures.alternating_readings (Fixtures.base_params 2)
                        10%Q 2 1 w) = Ok (Fin (1 # 2)).
Proof. vm_compute. auto 10. Qed.

(** * Further properties *)

(** ** Lengths of updated arrays *)

Lemma np_setitem_length {A} (a a' : list A) i x :
  np_setitem a i x = Some a' -> length a' = length a.
Proof.
  intros H. apply np_setitem_insert in H as (n & _ & ->). apply length_insert.
Qed.

Lemma item_add_length a i d a' : item_add a i d = Some a' -> length a' = length a.
Proof.
  unfold item_add. destruct (np_item a i); [| discriminate].
  apply np_setitem_length.
Qed.

Lemma np_put_length {A} (a : list A) idx vals :
  length (fst (np_put a idx vals)) = length a.
Proof.
  revert a vals. induction idx as [| i idx IH]; intros a vals; cbn; [reflexivity |].
  destruct vals as [| v vals]; [reflexivity |].
  destruct (np_setitem a i v) as [a' |] eqn:E; [| reflexivity].
  rewrite IH. exact (np_setitem_length _ _ _ _ E).
Qed.

Lemma put_list_length {A} (a : list A) idx vals :
  length (put_list a idx vals) = length a.
Proof.
  revert a vals. induction idx as [| i idx IH]; intros a vals; cbn; [reflexivity |].
  destruct vals as [| v vals]; [reflexivity |].
  rewrite IH. apply length_insert.
Qed.

Lemma assign_at_length {A} (a a' : list A) idx vals :
  assign_at a idx vals = inr a' -> length a' = length a.
Proof.
  unfold assign_at. destruct (forallb _ idx); [| discriminate].
  destruct (_ =? _)%nat; [| discriminate].
  intros [= <-]. apply put_list_length.
Qed.

Lemma assign_const_at_length {A} (a a' : list A) idx c :
  assign_const_at a idx c = Some a' -> length a' = length a.
Proof.
  unfold assign_const_at. destruct (forallb _ idx); [| discriminate].
  intros [= <-]. apply put_const_length.
Qed.

Lemma mask_set_length {A} mask (c : A) a : length (mask_set mask c a) = length a.
Proof.
  revert a. induction mask as [| m mask IH]; intros [| x a]; cbn; try reflexivity.
  rewrite IH. reflexivity.
Qed.

Lemma mask_sub_length mask a vals : length (mask_sub mask a vals) = length a.
Proof.
  revert a vals. induction mask as [| m mask IH]; intros [| x a] vals;
    try reflexivity; try (destruct m; reflexivity).
  destruct m; [destruct vals |]; cbn [mask_sub length]; rewrite IH; reflexivity.
Qed.

(** ** Invariants of [Py] computations

    The lemmas below reduce "the computation keeps [P]" to "every write it
    makes keeps [P]", where a write replaces an array by one of the same
    length. *)

Lemma keeps_ret {A} P (a : A) : keeps P (ret a).
Proof. intros w H. exact H. Qed.

Lemma keeps_raise {A} P e : keeps P (@raise A e).
Proof. intros w H. exact H. Qed.

Lemma keeps_bind {A B} P (m : Py A) (f : A -> Py B) :
  keeps P m -> (forall a, keeps P (f a)) -> keeps P (bind m f).
Proof.
  intros Hm Hf w H. unfold bind. specialize (Hm w H).
  destruct (m w) as [[a | e] w1]; cbn in *.
  - apply Hf. exact Hm.
  - exact Hm.
Qed.

Lemma keeps_reads_only {A} P (m : Py A) : reads_only m -> keeps P m.
Proof. intros Hm w H. rewrite Hm. exact H. Qed.

Lemma keeps_update_SD P f :
  (forall SD, P SD -> P (f SD)) -> keeps P (update_SD f).
Proof. intros Hf w H. cbn. apply Hf, H. Qed.

Lemma keeps_if {A} P (b : bool) (m1 m2 : Py A) :
  keeps P m1 -> keeps P m2 -> keeps P (if b then m1 else m2).
Proof. destruct b; auto. Qed.

Lemma reads_only_uniform1 : reads_only uniform1.
Proof. apply reads_only_sample. Qed.

Lemma reads_only_np_argmax b : reads_only (np_argmax b).
Proof. destruct b; [apply reads_only_raise | apply reads_only_ret]. Qed.

Lemma reads_only_death_weights params SD : reads_only (death_weights params SD).
Proof.
  unfold death_weights. apply reads_only_bind; [apply reads_only_or_raise |].
  intros v. apply reads_only_or_raise.
Qed.

Lemma reads_only_np_random_binomial ns p : reads_only (np_random_binomial ns p).
Proof.
  unfold np_random_binomial.
  destruct (_ || _); [apply reads_only_raise |].
  destruct (existsb _ ns); [apply reads_only_raise | apply reads_only_sample].
Qed.

Lemma reads_only_np_random_gamma n k : reads_only (np_random_gamma n k).
Proof.
  unfold np_random_gamma. destruct (Qeq_bool k 0); [apply reads_only_raise |].
  destruct (Qltb k 0); [apply reads_only_raise | apply reads_only_sample].
Qed.

Lemma reads_only_random_sample_range m cnt : reads_only (random_sample_range m cnt).
Proof.
  unfold random_sample_range. destruct (_ || _); [apply reads_only_raise |].
  apply reads_only_bind; [apply reads_only_sample | intros; apply reads_only_ret].
Qed.

Lemma reads_only_drug_share t years split : reads_only (drug_share t years split).
Proof.
  unfold drug_share. destruct (first_true _);
    [apply reads_only_or_raise | apply reads_only_ret].
Qed.

#[local] Hint Resolve reads_only_uniform1 reads_only_np_argmax
  reads_only_death_weights reads_only_np_random_binomial
  reads_only_np_random_gamma reads_only_random_sample_range
  reads_only_drug_share : py_frame.

Lemma keeps_total_item_add P i d :
  (forall SD a, P SD -> length a = length (total (worms SD)) -> P (set_total a SD)) ->
  keeps P (total_item_add i d).
Proof.
  intros Hf w H. rewrite total_item_add_run.
  destruct (item_add _ i d) as [a |] eqn:E; cbn; [| exact H].
  apply Hf; [exact H | exact (item_add_length _ _ _ _ E)].
Qed.

Lemma keeps_female_item_add P i d :
  (forall SD a, P SD -> length a = length (female (worms SD)) -> P (set_female a SD)) ->
  keeps P (female_item_add i d).
Proof.
  intros Hf w H. rewrite female_item_add_run.
  destruct (item_add _ i d) as [a |] eqn:E; cbn; [| exact H].
  apply Hf; [exact H | exact (item_add_length _ _ _ _ E)].
Qed.

Lemma keeps_sv_setitem P i x :
  (forall SD a, P SD -> np_setitem (sv SD) i x = Some a -> P (set_sv a SD)) ->
  keeps P (sv_setitem i x).
Proof.
  intros Hf w H. rewrite sv_setitem_run.
  destruct (np_setitem _ i x) as [a |] eqn:E; cbn; [| exact H].
  exact (Hf _ _ H E).
Qed.

Lemma keeps_put_field {A} P (read : SDEquilibrium -> list A) write idx vals :
  (forall SD, P SD -> P (write (fst (np_put (read SD) idx vals)) SD)) ->
  keeps P (put_field read write idx vals).
Proof.
  intros Hf w H. unfold put_field, bind, get_SD. cbv beta iota.
  specialize (Hf (population w) H).
  destruct (np_put (read (population w)) idx vals) as [a ok]. cbn in *.
  destruct ok; cbn; exact Hf.
Qed.

Lemma keeps_put_field_length {A} P (read : SDEquilibrium -> list A) write idx vals :
  (forall SD a, P SD -> length a = length (read SD) -> P (write a SD)) ->
  keeps P (put_field read write idx vals).
Proof.
  intros Hf. apply keeps_put_field. intros SD H.
  apply Hf; [exact H | apply np_put_length].
Qed.

Lemma keeps_assign_field {A} P (read : SDEquilibrium -> list A) write idx vals :
  (forall SD a, P SD -> length a = length (read SD) -> P (write a SD)) ->
  keeps P (assign_field read write idx vals).
Proof.
  intros Hf w H. unfold assign_field, bind, get_SD. cbv beta iota.
  destruct (assign_at _ idx vals) as [[|] | a] eqn:E; cbn; [exact H | exact H |].
  apply Hf; [exact H | exact (assign_at_length _ _ _ _ E)].
Qed.

Lemma keeps_assign_const_field {A} P (read : SDEquilibrium -> list A) write idx c :
  (forall SD a, P SD -> assign_const_at (read SD) idx c = Some a -> P (write a SD)) ->
  keeps P (assign_const_field read write idx c).
Proof.
  intros Hf w H. unfold assign_const_field, bind, get_SD. cbv beta iota.
  destruct (assign_const_at _ idx c) as [a |] eqn:E; cbn; [| exact H].
  exact (Hf _ _ H E).
Qed.

Lemma keeps_assign_const_field_length {A} P (read : SDEquilibrium -> list A) write
    idx c :
  (forall SD a, P SD -> length a = length (read SD) -> P (write a SD)) ->
  keeps P (assign_const_field read write idx c).
Proof.
  intros Hf. apply keeps_assign_const_field. intros SD a H E.
  apply Hf; [exact H | exact (assign_const_at_length _ _ _ _ E)].
Qed.

Lemma keeps_sv_mask_set P mask c :
  (forall SD, P SD -> P (set_sv (mask_set mask c (sv SD)) SD)) ->
  keeps P (sv_mask_set mask c).
Proof.
  intros Hf w H. unfold sv_mask_set, bind, get_SD. cbv beta iota.
  destruct (_ =? _)%nat; cbn; [apply Hf, H | exact H].
Qed.

Lemma keeps_mask_sub_field P read write mask vals :
  (forall SD a, P SD -> length a = length (read SD) -> P (write a SD)) ->
  keeps P (mask_sub_field read write mask vals).
Proof.
  intros Hf w H. unfold mask_sub_field, bind, get_SD. cbv beta iota.
  destruct (_ =? _)%nat; cbn; [| exact H].
  apply Hf; [exact H | apply mask_sub_length].
Qed.

(** One step of a proof that a computation keeps a property; [tac] proves
    that a write keeps it. *)
Ltac keeps_step tac :=
  first
    [ apply keeps_ret
    | apply keeps_raise
    | apply keeps_reads_only; solve [eauto with py_frame]
    | apply keeps_update_SD; solve [tac]
    | apply keeps_total_item_add; solve [tac]
    | apply keeps_female_item_add; solve [tac]
    | apply keeps_put_field_length; solve [tac]
    | apply keeps_assign_field; solve [tac]
    | apply keeps_assign_const_field_length; solve [tac]
    | apply keeps_mask_sub_field; solve [tac]
    | apply keeps_if
    | apply keeps_bind; [| intros ?] ].

(** The write keeps the property by computation. *)
Ltac write_by_conversion := intros; assumption.

(** What [doEvent] and [doEvent2] keep whenever same-length writes to the
    worm arrays and their writes to [sv] keep it. *)
Lemma keeps_worm_death P params :
  (forall SD a, P SD -> length a = length (total (worms SD)) -> P (set_total a SD)) ->
  (forall SD a, P SD -> length a = length (female (worms SD)) -> P (set_female a SD)) ->
  keeps P (worm_death params).
Proof.
  intros Ht Hf. unfold worm_death.
  do 4 (apply keeps_bind; [keeps_step idtac |]; intros ?).
  apply keeps_bind; [apply keeps_total_item_add, Ht |]. intros _.
  do 4 (apply keeps_bind; [keeps_step idtac |]; intros ?).
  apply keeps_if; [apply keeps_female_item_add, Hf | apply keeps_ret].
Qed.

Lemma keeps_worm_acquisition P params event :
  (forall SD a, P SD -> length a = length (total (worms SD)) -> P (set_total a SD)) ->
  (forall SD a, P SD -> length a = length (female (worms SD)) -> P (set_female a SD)) ->
  keeps P (worm_acquisition params event).
Proof.
  intros Ht Hf. unfold worm_acquisition.
  do 4 (apply keeps_bind; [keeps_step idtac |]; intros ?).
  apply keeps_if; [| apply keeps_ret].
  apply keeps_bind; [apply keeps_total_item_add, Ht |]. intros _.
  apply keeps_bind; [keeps_step idtac |]. intros u_s.
  apply keeps_if; [apply keeps_female_item_add, Hf | apply keeps_ret].
Qed.

Lemma keeps_doEvent P rates params :
  (forall SD a, P SD -> length a = length (total (worms SD)) -> P (set_total a SD)) ->
  (forall SD a, P SD -> length a = length (female (worms SD)) -> P (set_female a SD)) ->
  (forall i, keeps P (sv_setitem i 0)) ->
  keeps P (doEvent rates params).
Proof.
  intros Ht Hf Hs. unfold doEvent.
  do 2 (apply keeps_bind; [keeps_step idtac |]; intros ?).
  apply keeps_bind.
  - apply keeps_if; [apply keeps_worm_death; assumption | apply keeps_ret].
  - intros _. apply keeps_if; [apply keeps_worm_acquisition; assumption |].
    apply keeps_if; [apply Hs | apply keeps_ret].
Qed.

Lemma keeps_doEvent2 P sum_rates cumsum_rates params multiplier :
  (forall SD a, P SD -> length a = length (total (worms SD)) -> P (set_total a SD)) ->
  (forall SD a, P SD -> length a = length (female (worms SD)) -> P (set_female a SD)) ->
  (forall idx, keeps P (put_field sv set_sv idx (map (fun _ => 0) idx))) ->
  keeps P (doEvent2 sum_rates cumsum_rates params multiplier).
Proof.
  intros Ht Hf Hs. unfold doEvent2.
  apply keeps_bind; [keeps_step idtac |]. intros us.
  apply keeps_bind.
  { destruct cumsum_rates; keeps_step idtac. }
  intros events_array. cbv zeta.
  do 8 (apply keeps_bind; [keeps_step idtac |]; intros ?).
  apply keeps_bind; [apply Hs |]. intros _.
  do 2 (apply keeps_bind; [keeps_step idtac |]; intros ?).
  apply keeps_bind; [apply keeps_put_field_length, Ht |]. intros _.
  do 2 (apply keeps_bind; [keeps_step idtac |]; intros ?).
  apply keeps_put_field_length, Hf.
Qed.

(** ** What the operators write *)

(** X1: whether they return or raise, [doEvent] and [doEvent2] write
    nothing but [sv] and the two worm arrays: susceptibility, demography,
    age-group indices, compliance, reservoir, counters and logs are left as
    they were. *)
Theorem event_samplers_write_only_status_and_worms params w :
  (forall rates,
     outside_events (population (snd (doEvent rates params w)))
     = outside_events (population w))
  /\ (forall sum_rates cumsum_rates multiplier,
     outside_events
       (population (snd (doEvent2 sum_rates cumsum_rates params multiplier w)))
     = outside_events (population w)).
Proof.
  split.
  - intros rates.
    apply (keeps_doEvent (fun SD => outside_events SD = outside_events (population w)));
      try write_by_conversion; [| reflexivity].
    intros i. apply keeps_sv_setitem. write_by_conversion.
  - intros sum_rates cumsum_rates multiplier.
    apply (keeps_doEvent2 (fun SD => outside_events SD = outside_events (population w)));
      try write_by_conversion; [| reflexivity].
    intros idx. apply keeps_put_field. write_by_conversion.
Qed.

(** ** Vaccine statuses stay 0 or 1 *)

Lemma binary_np_setitem (a a' : list Z) i x :
  Forall (fun s => s = 0 \/ s = 1) a -> (x = 0 \/ x = 1) ->
  np_setitem a i x = Some a' -> Forall (fun s => s = 0 \/ s = 1) a'.
Proof.
  intros Ha Hx H. apply np_setitem_insert in H as (n & _ & ->).
  apply Forall_insert; assumption.
Qed.

Lemma binary_np_put (a : list Z) idx vals :
  Forall (fun s => s = 0 \/ s = 1) a -> Forall (fun s => s = 0 \/ s = 1) vals ->
  Forall (fun s => s = 0 \/ s = 1) (fst (np_put a idx vals)).
Proof.
  revert a vals. induction idx as [| i idx IH]; intros a vals Ha Hv; cbn; [exact Ha |].
  destruct vals as [| v vals]; [exact Ha |].
  destruct (np_setitem a i v) as [a' |] eqn:E; [| exact Ha].
  apply Forall_cons in Hv as [Hv Hvs].
  apply IH; [exact (binary_np_setitem _ _ _ _ Ha Hv E) | exact Hvs].
Qed.

Lemma binary_put_const (a : list Z) idx c :
  Forall (fun s => s = 0 \/ s = 1) a -> (c = 0 \/ c = 1) ->
  Forall (fun s => s = 0 \/ s = 1) (put_const a idx c).
Proof.
  unfold put_const. revert a. induction idx as [| i idx IH]; intros a Ha Hc; cbn.
  - exact Ha.
  - apply IH; [apply Forall_insert; assumption | exact Hc].
Qed.

Lemma binary_mask_set mask (a : list Z) c :
  Forall (fun s => s = 0 \/ s = 1) a -> (c = 0 \/ c = 1) ->
  Forall (fun s => s = 0 \/ s = 1) (mask_set mask c a).
Proof.
  intros Ha Hc. revert a Ha.
  induction mask as [| m mask IH]; intros [| x a] Ha; cbn; try exact Ha.
  apply Forall_cons in Ha as [Hx Ha].
  constructor; [destruct m; assumption | apply IH, Ha].
Qed.

Lemma keeps_binary_sv_mask_set mask : keeps binary_status (sv_mask_set mask 1).
Proof.
  apply keeps_sv_mask_set. intros SD H. unfold binary_status. cbn.
  apply binary_mask_set; [exact H | right; reflexivity].
Qed.

Section StatusInvariant.

Variable getLifeSpans : nat -> Parameters -> Rand (list Q).

(** X2: every operator that writes vaccine statuses keeps them in {0, 1},
    whether it returns or raises: [doEvent], [doEvent2], [doDeath],
    [doVaccine] and [doVaccineAgeRange]. *)
Theorem vaccine_status_stays_binary params w :
  binary_status (population w) ->
  (forall rates, binary_status (population (snd (doEvent rates params w))))
  /\ (forall sum_rates cumsum_rates multiplier,
        binary_status
          (population (snd (doEvent2 sum_rates cumsum_rates params multiplier w))))
  /\ (forall t, binary_status (population (snd (doDeath getLifeSpans params t w))))
  /\ (forall t VaccCoverage,
        binary_status (population (snd (doVaccine params t VaccCoverage w))))
  /\ (forall t minAge maxAge coverage,
        binary_status
          (population (snd (doVaccineAgeRange params t minAge maxAge coverage w)))).
Proof.
  intros Hw. repeat split.
  - intros rates. apply keeps_doEvent; try write_by_conversion.
    intros i. apply keeps_sv_setitem. intros SD a H E. unfold binary_status. cbn.
    exact (binary_np_setitem _ _ _ _ H (or_introl eq_refl) E).
  - intros sum_rates cumsum_rates multiplier.
    apply keeps_doEvent2; try write_by_conversion.
    intros idx. apply keeps_put_field. intros SD H. unfold binary_status. cbn.
    apply binary_np_put; [exact H |].
    apply Forall_forall. intros x Hx. apply list_elem_of_In, in_map_iff in Hx.
    destruct Hx as (_ & <- & _). left. reflexivity.
  - intros t.
    enough (K : keeps binary_status (doDeath getLifeSpans params t)) by exact (K w Hw).
    unfold doDeath, doDeath_with.
    apply keeps_bind; [keeps_step write_by_conversion |]. intros SD.
    apply keeps_bind.
    + apply keeps_if; [| keeps_step write_by_conversion].
      apply keeps_bind.
      { keeps_step write_by_conversion. }
      intros g. apply keeps_bind; [keeps_step write_by_conversion |]. intros _.
      apply keeps_bind.
      { apply keeps_assign_const_field. intros SD' a H E. unfold binary_status. cbn.
        unfold assign_const_at in E. destruct (forallb _ _); [| discriminate E].
        injection E as <-. apply binary_put_const; [exact H | left; reflexivity]. }
      intros _. repeat (keeps_step write_by_conversion).
    + intros _. repeat (keeps_step write_by_conversion).
  - intros t VaccCoverage.
    enough (K : keeps binary_status (doVaccine params t VaccCoverage))
      by exact (K w Hw).
    unfold doVaccine.
    do 6 (apply keeps_bind; [keeps_step write_by_conversion |]; intros ?).
    apply keeps_bind; [apply keeps_binary_sv_mask_set |]. intros _. keeps_step write_by_conversion.
  - intros t minAge maxAge coverage.
    enough (K : keeps binary_status
                  (doVaccineAgeRange params t minAge maxAge coverage))
      by exact (K w Hw).
    unfold doVaccineAgeRange.
    do 4 (apply keeps_bind; [keeps_step write_by_conversion |]; intros ?).
    apply keeps_bind; [apply keeps_binary_sv_mask_set |]. intros _. keeps_step write_by_conversion.
Qed.

End StatusInvariant.

(** X2 on the one-host vaccination world and on the two-host demography
    world. *)
Lemma vaccine_status_stays_binary_witness :
  binary_status
    (population (snd (doVaccine Fixtures.vaccine_params 10%Q Fixtures.vaccine_coverage
                                Fixtures.vaccine_world)))
  /\ binary_status
       (population (snd (doDeath Fixtures.fixed_lifespans (Fixtures.base_params 2) 10%Q
                                 Fixtures.demography_world))).
Proof.
  assert (Hv : binary_status (population Fixtures.vaccine_world)).
  { constructor; [left; reflexivity | constructor]. }
  assert (Hd : binary_status (population Fixtures.demography_world)).
  { repeat (constructor; [right; reflexivity |]). constructor. }
  split.
  - apply (proj1 (proj2 (proj2 (proj2
             (vaccine_status_stays_binary Fixtures.fixed_lifespans
                Fixtures.vaccine_params Fixtures.vaccine_world Hv))))).
  - apply (proj1 (proj2 (proj2
             (vaccine_status_stays_binary Fixtures.fixed_lifespans
                (Fixtures.base_params 2) Fixtures.demography_world Hd)))).
Defined.

(** ** FreeLivingUpdater, further *)

Lemma doFreeLive_run params dt w :
  doFreeLive params dt w
  = match productive_female_worms params (population w) w with
    | (Ok p, _) =>
        match eggs_prod_rate params (population w) p w with
        | (Ok rate, _) =>
            (Ok tt, with_population
                      (set_freeLiving
                         (reservoir_step params dt (freeLiving (population w)) rate)
                         (population w)) w)
        | (Raise e, _) => (Raise e, w)
        end
    | (Raise e, _) => (Raise e, w)
    end.
Proof.
  unfold doFreeLive, bind, get_SD.
  pose proof (productive_female_worms_world params (population w) w) as Hp.
  destruct (productive_female_worms params (population w) w) as [[p | e] w1];
    cbn in Hp; subst w1; [| reflexivity].
  pose proof (eggs_prod_rate_world params (population w) p w) as Hr.
  destruct (eggs_prod_rate params (population w) p w) as [[rate | e] w2];
    cbn in Hr; subst w2; reflexivity.
Qed.

(** X5: [doFreeLive] writes nothing but [freeLiving] and draws no random
    variate, whether it returns or raises. *)
Theorem doFreeLive_writes_only_reservoir params dt w :
  outside_reservoir (population (snd (doFreeLive params dt w)))
  = outside_reservoir (population w)
  /\ generator (snd (doFreeLive params dt w)) = generator w.
Proof.
  rewrite doFreeLive_run.
  destruct (productive_female_worms params (population w) w) as [[p | e] w1];
    [| split; reflexivity].
  destruct (eggs_prod_rate params (population w) p w) as [[rate | e] w2];
    split; reflexivity.
Qed.

(** X6: a reproduction function name other than ["epgFertility"] and
    ["epgMonog"] makes [doFreeLive] raise [ValueError] with the name in the
    message, and the state is left as it was. *)
Theorem doFreeLive_rejects_unknown_reproduction params dt w :
  reproFuncName params <> "epgFertility"%string ->
  reproFuncName params <> "epgMonog"%string ->
  doFreeLive params dt w
  = (Raise (ValueError ("Unsupported reproFuncName : " +:+ reproFuncName params)), w).
Proof.
  intros H1 H2. rewrite doFreeLive_run. unfold productive_female_worms.
  apply String.eqb_neq in H1, H2. rewrite H1, H2. reflexivity.
Qed.

(** X6 at the reproduction function name [epgTypo]. *)
Lemma doFreeLive_rejects_unknown_reproduction_witness :
  doFreeLive Scenarios.unknown_repro_params 1%R Fixtures.death_world
  = (Raise (ValueError "Unsupported reproFuncName : epgTypo"), Fixtures.death_world).
Proof.
  apply (doFreeLive_rejects_unknown_reproduction Scenarios.unknown_repro_params 1%R
           Fixtures.death_world).
  - apply String.eqb_neq. reflexivity.
  - apply String.eqb_neq. reflexivity.
Defined.

Lemma np_item_elem {A} (a : list A) i x : np_item a i = Some x -> x ∈ a.
Proof.
  unfold np_item. destruct (np_position (length a) i) as [n |]; [| discriminate].
  intros H. apply list_elem_of_lookup. exists n. exact H.
Qed.

Lemma np_take_Forall {A} (P : A -> Prop) (a : list A) idx xs :
  Forall P a -> np_take a idx = Some xs -> Forall P xs.
Proof.
  intros Ha. revert xs. induction idx as [| i idx IH]; intros xs; cbn.
  - intros [= <-]. constructor.
  - destruct (np_item a i) as [x |] eqn:Hx; [| discriminate].
    destruct (np_take a idx) as [xs' |]; [| discriminate].
    intros [= <-]. constructor; [| apply IH; reflexivity].
    rewrite Forall_forall in Ha. apply Ha. exact (np_item_elem _ _ _ Hx).
Qed.

Lemma Rsum_nonneg (l : list R) : Forall (fun x => 0 <= x)%R l -> (0 <= Rsum l)%R.
Proof.
  induction 1 as [| x l Hx _ IH]; unfold Rsum in *; cbn; lra.
Qed.

Lemma Rsum_zero (l : list R) : Forall (fun x => x = 0%R) l -> Rsum l = 0%R.
Proof.
  induction 1 as [| x l Hx _ IH]; unfold Rsum in *; cbn; [reflexivity |].
  rewrite Hx, IH. lra.
Qed.

Lemma zip_with_Forall_l {A B C} (P : A -> Prop) (Q : C -> Prop) (f : A -> B -> C) a b :
  (forall x y, P x -> Q (f x y)) -> Forall P a -> Forall Q (zip_with f a b).
Proof.
  intros Hf Ha. revert b. induction Ha as [| x a Hx _ IH]; intros [| y b]; cbn;
    constructor; auto.
Qed.

Lemma zip_with_Forall_both {A B C} (P : A -> Prop) (P' : B -> Prop) (Q : C -> Prop)
    (f : A -> B -> C) a b :
  (forall x y, P x -> P' y -> Q (f x y)) ->
  Forall P a -> Forall P' b -> Forall Q (zip_with f a b).
Proof.
  intros Hf Ha. revert b. induction Ha as [| x a Hx _ IH]; intros b Hb; cbn.
  - constructor.
  - destruct Hb as [| y b Hy Hb]; constructor; auto.
Qed.

(** The production rate [eggs_prod_rate] hands back. *)
Lemma eggs_prod_rate_ok_inv params SD pfw w rate w' :
  eggs_prod_rate params SD pfw w = (Ok rate, w') ->
  exists v2s rhos,
    np_take (v2 params) (sv SD) = Some v2s
    /\ np_take (rho params) (contactAgeGroupIndices SD) = Some rhos
    /\ let weighted :=
         zip_with Rmult
           (zip_with Rmult
              (zip_with (fun p t => (lambda_egg params * IZR p
                                     * exp (- IZR t * gamma params))%R)
                        pfw (total (worms SD)))
              v2s)
           rhos in
       rate = if N params =? 0 then NonFinite
              else Finite (2 * psi params * Rsum weighted / IZR (N params))%R.
Proof.
  unfold eggs_prod_rate. intros H.
  apply bind_ok_inv in H as (a & w1 & Ha & H). apply or_raise_ok_inv in Ha as [Ha ->].
  apply bind_ok_inv in H as (v2s & w1 & Hv & H). apply or_raise_ok_inv in Hv as [Hv ->].
  apply bind_ok_inv in H as (eo & w1 & He & H). apply or_raise_ok_inv in He as [He ->].
  apply bind_ok_inv in H as (rhos & w1 & Hr & H). apply or_raise_ok_inv in Hr as [Hr ->].
  apply bind_ok_inv in H as (wd & w1 & Hw & H). apply or_raise_ok_inv in Hw as [Hw ->].
  apply zip_with_same_Some in Ha as [-> _].
  apply zip_with_same_Some in He as [-> _].
  apply zip_with_same_Some in Hw as [-> _].
  injection H as <- _. exists v2s, rhos. auto.
Qed.

(** The productive female worms are never negative on a population whose
    hosts have [0 <= female <= total]. *)
Lemma productive_female_worms_nonneg params SD w pfw w' :
  Forall2 (fun t f => 0 <= f <= t) (total (worms SD)) (female (worms SD)) ->
  productive_female_worms params SD w = (Ok pfw, w') ->
  Forall (fun p => 0 <= p) pfw.
Proof.
  intros Hwf. unfold productive_female_worms.
  assert (Hfem : Forall (fun f => 0 <= f) (female (worms SD))).
  { induction Hwf; constructor; [lia | assumption]. }
  destruct (_ && SR params).
  - intros H. apply or_raise_ok_inv in H as [H _].
    apply zip_with_same_Some in H as [-> _].
    induction Hwf as [| t f ts fs Htf _ IH]; cbn; constructor.
    + destruct (t =? f); lia.
    + apply IH. inversion Hfem; assumption.
  - destruct (_ && negb (SR params)).
    + intros [= <- _]. exact Hfem.
    + destruct (String.eqb _ "epgMonog"); [| discriminate].
      intros H. apply or_raise_ok_inv in H as [H _].
      apply zip_with_same_Some in H as [-> _].
      clear Hfem. induction Hwf as [| t f ts fs Htf _ IH]; cbn; constructor.
      * lia.
      * exact IH.
Qed.

(** X7: on a population whose hosts have [0 <= female <= total], with
    non-negative fecundity, transmission and contact parameters, a positive
    host count, a non-zero decay rate and [dt >= 0], a [doFreeLive] that
    returns keeps a non-negative reservoir non-negative. *)
Theorem doFreeLive_keeps_reservoir_nonneg params dt w w' f :
  Forall2 (fun t f => 0 <= f <= t)
          (total (worms (population w))) (female (worms (population w))) ->
  (0 <= lambda_egg params)%R -> (0 <= psi params)%R ->
  Forall (fun x => 0 <= x)%R (v2 params) -> Forall (fun x => 0 <= x)%R (rho params) ->
  0 < N params -> LDecayRate params <> 0%R -> (0 <= dt)%R ->
  freeLiving (population w) = Finite f -> (0 <= f)%R ->
  doFreeLive params dt w = (Ok tt, w') ->
  exists f', freeLiving (population w') = Finite f' /\ (0 <= f')%R.
Proof.
  intros Hwf Hlam Hpsi Hv2 Hrho HN HL Hdt Hf Hf0 H. rewrite doFreeLive_run in H.
  destruct (productive_female_worms params (population w) w) as [[p | e] w1] eqn:Hp;
    [| discriminate H].
  destruct (eggs_prod_rate params (population w) p w) as [[rate | e] w2] eqn:Hr;
    [| discriminate H].
  injection H as <-. cbn. rewrite Hf.
  apply eggs_prod_rate_ok_inv in Hr as (v2s & rhos & Hv & Hrh & ->).
  assert ((N params =? 0) = false) as -> by (apply Z.eqb_neq; lia).
  apply reservoir_step_nonneg; try assumption.
  apply Rmult_le_pos.
  - apply Rmult_le_pos; [lra |]. apply Rsum_nonneg.
    apply (zip_with_Forall_both (fun x => 0 <= x)%R (fun x => 0 <= x)%R).
    + intros x y Hx Hy. apply Rmult_le_pos; assumption.
    + apply (zip_with_Forall_both (fun x => 0 <= x)%R (fun x => 0 <= x)%R).
      * intros x y Hx Hy. apply Rmult_le_pos; assumption.
      * apply (zip_with_Forall_l (fun p => 0 <= p)).
        -- intros x y Hx. apply Rmult_le_pos; [| left; apply exp_pos].
           apply Rmult_le_pos; [exact Hlam | apply IZR_le, Hx].
        -- exact (productive_female_worms_nonneg _ _ _ _ _ Hwf Hp).
      * exact (np_take_Forall _ _ _ _ Hv2 Hv).
    + exact (np_take_Forall _ _ _ _ Hrho Hrh).
  - left. apply Rinv_0_lt_compat. apply IZR_lt. exact HN.
Qed.

(** X7 at one host with ten worms, four of them female, and [dt = 1]. *)
Lemma doFreeLive_keeps_reservoir_nonneg_witness :
  exists f',
    freeLiving (population (snd (doFreeLive (Fixtures.base_params 1) 1%R
                                            Fixtures.death_world))) = Finite f'
    /\ (0 <= f')%R.
Proof.
  apply (doFreeLive_keeps_reservoir_nonneg (Fixtures.base_params 1) 1%R
           Fixtures.death_world _ 10%R).
  - constructor; [cbn; lia | constructor].
  - cbn. lra.
  - cbn. lra.
  - repeat (constructor; [lra |]). constructor.
  - constructor; [lra | constructor].
  - reflexivity.
  - cbn. lra.
  - lra.
  - reflexivity.
  - lra.
  - reflexivity.
Defined.

(** Without female worms no eggs are produced and the reservoir only
    decays. *)
Lemma doFreeLive_no_females params dt w w' f :
  Forall (fun x => x = 0) (female (worms (population w))) ->
  Forall (fun t => 0 <= t) (total (worms (population w))) ->
  N params <> 0 -> LDecayRate params <> 0%R ->
  freeLiving (population w) = Finite f ->
  doFreeLive params dt w = (Ok tt, w') ->
  population w'
  = set_freeLiving (Finite (f * exp (- LDecayRate params * dt))%R) (population w).
Proof.
  intros Hfem Htot HN HL Hf H. rewrite doFreeLive_run in H.
  destruct (productive_female_worms params (population w) w) as [[p | e] w1] eqn:Hp;
    [| discriminate H].
  destruct (eggs_prod_rate params (population w) p w) as [[rate | e] w2] eqn:Hr;
    [| discriminate H].
  injection H as <-. unfold with_population. cbn [population].
  rewrite Hf. apply (f_equal (fun l => set_freeLiving l (population w))).
  assert (Hzero : Forall (fun x => x = 0) p).
  { revert Hp. unfold productive_female_worms.
    destruct (_ && SR params).
    - intros H. apply or_raise_ok_inv in H as [H _].
      apply zip_with_same_Some in H as [-> _].
      apply (zip_with_Forall_both (fun _ => True) (fun x => x = 0));
        [| apply Forall_true; auto | exact Hfem].
      intros t x _ ->. destruct (t =? 0); reflexivity.
    - destruct (_ && negb (SR params)).
      + intros [= <- _]. exact Hfem.
      + destruct (String.eqb _ "epgMonog"); [| discriminate].
        intros H. apply or_raise_ok_inv in H as [H _].
        apply zip_with_same_Some in H as [-> _].
        apply (zip_with_Forall_both (fun t => 0 <= t) (fun x => x = 0));
          [| exact Htot | exact Hfem].
        intros t x Ht ->. lia. }
  apply eggs_prod_rate_ok_inv in Hr as (v2s & rhos & Hv & Hrh & ->).
  assert ((N params =? 0) = false) as -> by (apply Z.eqb_neq; exact HN).
  unfold reservoir_step.
  destruct (Req_dec_T (LDecayRate params) 0) as [E | _]; [contradiction |].
  rewrite Rsum_zero.
  - f_equal. field. split; [apply not_0_IZR, HN | exact HL].
  - apply (zip_with_Forall_l (fun x => x = 0%R)).
    { intros x y ->. apply Rmult_0_l. }
    apply (zip_with_Forall_l (fun x => x = 0%R)).
    { intros x y ->. apply Rmult_0_l. }
    apply (zip_with_Forall_l (fun x => x = 0)).
    { intros x y ->. cbn. rewrite Rmult_0_r, Rmult_0_l. reflexivity. }
    exact Hzero.
Qed.

(** X8: when no host has a female worm (and no total is negative), no eggs
    are produced and a [doFreeLive] that returns lets the reservoir decay
    exponentially: the new level is [freeLiving * exp(-LDecayRate * dt)]. *)
Theorem doFreeLive_without_females_decays params dt w w' f :
  Forall (fun x => x = 0) (female (worms (population w))) ->
  Forall (fun t => 0 <= t) (total (worms (population w))) ->
  N params <> 0 -> LDecayRate params <> 0%R ->
  freeLiving (population w) = Finite f ->
  doFreeLive params dt w = (Ok tt, w') ->
  freeLiving (population w') = Finite (f * exp (- LDecayRate params * dt))%R.
Proof.
  intros Hfem Htot HN HL Hf H.
  rewrite (doFreeLive_no_females _ _ _ _ _ Hfem Htot HN HL Hf H).
  destruct (population w). reflexivity.
Qed.

(** X8 at one host with three male worms, decay rate 1 and [dt = 1]. *)
Lemma doFreeLive_without_females_decays_witness :
  freeLiving (population (snd (doFreeLive (Fixtures.base_params 1) 1%R
                                          Scenarios.male_only_world)))
  = Finite (10 * exp (- 1 * 1))%R.
Proof.
  apply (doFreeLive_without_females_decays (Fixtures.base_params 1) 1%R
           Scenarios.male_only_world _ 10%R).
  - constructor; [reflexivity | constructor].
  - constructor; [cbn; lia | constructor].
  - discriminate.
  - cbn. lra.
  - reflexivity.
  - reflexivity.
Defined.

(** ** DemographicUpdater, further *)

Lemma np_where_nil (mask : list bool) :
  Forall (fun b => b = false) mask -> np_where mask = [].
Proof.
  intros H. destruct (np_where mask) as [| i l] eqn:E; [reflexivity |].
  assert (i ∈ np_where mask) as Hi by (rewrite E; apply elem_of_cons; auto).
  apply elem_of_np_where in Hi. rewrite Forall_lookup in H.
  specialize (H _ _ Hi). discriminate H.
Qed.

Section DemographyMore.

Variable getLifeSpans : nat -> Parameters -> Rand (list Q).

(** The tail of [doDeath]: the three age-group arrays are recomputed. *)
Lemma doDeath_indices_inv params t (w w' : World) :
  (contactBreaks <- or_raise (contactAgeGroupBreaks params) AssertionError ;;
   SD <- get_SD ;;
   contactIdx <- or_raise (age_group_indices t SD contactBreaks) not_monotonic ;;
   update_SD (set_contactAgeGroupIndices contactIdx) ;;
   treatmentBreaks <- or_raise (treatmentAgeGroupBreaks params) AssertionError ;;
   vaccBreaks <- or_raise (VaccTreatmentAgeGroupBreaks params) AssertionError ;;
   SD <- get_SD ;;
   treatmentIdx <- or_raise (age_group_indices t SD treatmentBreaks) not_monotonic ;;
   update_SD (set_treatmentAgeGroupIndices treatmentIdx) ;;
   SD <- get_SD ;;
   vaccIdx <- or_raise (age_group_indices t SD vaccBreaks) not_monotonic ;;
   update_SD (set_VaccTreatmentAgeGroupIndices (Some vaccIdx))) w = (Ok tt, w') ->
  exists cb tb vb ci ti vi,
    contactAgeGroupBreaks params = Some cb
    /\ treatmentAgeGroupBreaks params = Some tb
    /\ VaccTreatmentAgeGroupBreaks params = Some vb
    /\ age_group_indices t (population w) cb = Some ci
    /\ age_group_indices t (population w) tb = Some ti
    /\ age_group_indices t (population w) vb = Some vi
    /\ w' = with_population
              (set_VaccTreatmentAgeGroupIndices (Some vi)
                 (set_treatmentAgeGroupIndices ti
                    (set_contactAgeGroupIndices ci (population w)))) w.
Proof.
  intros H.
  apply bind_ok_inv in H as (cb & w2 & Hcb & H). apply or_raise_ok_inv in Hcb as [Hcb ->].
  apply bind_ok_inv in H as (SD1 & w2 & H1 & H). inversion H1; subst SD1 w2; clear H1.
  apply bind_ok_inv in H as (ci & w2 & Hci & H). apply or_raise_ok_inv in Hci as [Hci ->].
  apply bind_ok_inv in H as ([] & w2 & H2 & H). inversion H2; subst w2; clear H2.
  apply bind_ok_inv in H as (tb & w2 & Htb & H). apply or_raise_ok_inv in Htb as [Htb ->].
  apply bind_ok_inv in H as (vb & w2 & Hvb & H). apply or_raise_ok_inv in Hvb as [Hvb ->].
  apply bind_ok_inv in H as (SD2 & w2 & H2 & H). inversion H2; subst SD2 w2; clear H2.
  apply bind_ok_inv in H as (ti & w2 & Hti & H). apply or_raise_ok_inv in Hti as [Hti ->].
  apply bind_ok_inv in H as ([] & w2 & H2 & H). inversion H2; subst w2; clear H2.
  apply bind_ok_inv in H as (SD3 & w2 & H3 & H). inversion H3; subst SD3 w2; clear H3.
  apply bind_ok_inv in H as (vi & w2 & Hvi & H). apply or_raise_ok_inv in Hvi as [Hvi ->].
  inversion H; subst w'; clear H.
  exists cb, tb, vb, ci, ti, vi. repeat split; assumption.
Qed.

Lemma doDeath_indices_run params t (w : World) cb tb vb ci ti vi :
  contactAgeGroupBreaks params = Some cb ->
  treatmentAgeGroupBreaks params = Some tb ->
  VaccTreatmentAgeGroupBreaks params = Some vb ->
  age_group_indices t (population w) cb = Some ci ->
  age_group_indices t (population w) tb = Some ti ->
  age_group_indices t (population w) vb = Some vi ->
  (contactBreaks <- or_raise (contactAgeGroupBreaks params) AssertionError ;;
   SD <- get_SD ;;
   contactIdx <- or_raise (age_group_indices t SD contactBreaks) not_monotonic ;;
   update_SD (set_contactAgeGroupIndices contactIdx) ;;
   treatmentBreaks <- or_raise (treatmentAgeGroupBreaks params) AssertionError ;;
   vaccBreaks <- or_raise (VaccTreatmentAgeGroupBreaks params) AssertionError ;;
   SD <- get_SD ;;
   treatmentIdx <- or_raise (age_group_indices t SD treatmentBreaks) not_monotonic ;;
   update_SD (set_treatmentAgeGroupIndices treatmentIdx) ;;
   SD <- get_SD ;;
   vaccIdx <- or_raise (age_group_indices t SD vaccBreaks) not_monotonic ;;
   update_SD (set_VaccTreatmentAgeGroupIndices (Some vaccIdx))) w
  = (Ok tt, with_population
              (set_VaccTreatmentAgeGroupIndices (Some vi)
                 (set_treatmentAgeGroupIndices ti
                    (set_contactAgeGroupIndices ci (population w)))) w).
Proof.
  intros Hcb Htb Hvb Hci Hti Hvi. rewrite Hcb, Htb, Hvb.
  unfold bind, get_SD, update_SD. cbn. rewrite Hci. cbn.
  unfold age_group_indices in *. cbn. rewrite Hti. cbn. rewrite Hvi. reflexivity.
Qed.

(** The population in the middle of a [doDeath] that returns: after the
    rebirths, before the age-group arrays are recomputed. *)
Lemma doDeath_ok_inv params t w w' :
  doDeath getLifeSpans params t w = (Ok tt, w') ->
  let SD := population w in
  let theDead := np_where (map (fun d => Qltb d t) (deathDate (demography SD))) in
  exists wm cb tb vb ci ti vi,
    contactAgeGroupBreaks params = Some cb
    /\ treatmentAgeGroupBreaks params = Some tb
    /\ VaccTreatmentAgeGroupBreaks params = Some vb
    /\ age_group_indices t (population wm) cb = Some ci
    /\ age_group_indices t (population wm) tb = Some ti
    /\ age_group_indices t (population wm) vb = Some vi
    /\ w' = with_population
              (set_VaccTreatmentAgeGroupIndices (Some vi)
                 (set_treatmentAgeGroupIndices ti
                    (set_contactAgeGroupIndices ci (population wm)))) wm
    /\ ((theDead = [] /\ wm = w)
        \/ (theDead <> []
            /\ exists a_si a_sv a_b a_d a_t a_f a_a a_c,
                assign_const_at (sv SD) theDead 0 = Some a_sv
                /\ assign_const_at (birthDate (demography SD)) theDead
                                   (t - (1 # 1000))%Q = Some a_b
                /\ assign_at (deathDate (demography SD)) theDead
                     (map (fun l => (t + l)%Q)
                        (fst (getLifeSpans (length theDead) params
                                (advance (length theDead) (generator w))))) = inr a_d
                /\ assign_const_at (total (worms SD)) theDead 0 = Some a_t
                /\ assign_const_at (female (worms SD)) theDead 0 = Some a_f
                /\ population wm
                   = set_compliers a_c
                       (set_adherenceFactors a_a
                          (set_female a_f
                             (set_total a_t
                                (set_deathDate a_d
                                   (set_birthDate a_b
                                      (set_sv a_sv (set_si a_si SD))))))))).
Proof.
  intros H SD theDead. unfold doDeath, doDeath_with in H.
  apply bind_ok_inv in H as (SD0 & w0 & H0 & H). inversion H0; subst SD0 w0; clear H0.
  fold SD in H. fold theDead in H.
  apply bind_ok_inv in H as ([] & wm & Hdead & H).
  apply doDeath_indices_inv in H as (cb & tb & vb & ci & ti & vi & H).
  destruct H as (Hcb & Htb & Hvb & Hci & Hti & Hvi & ->).
  exists wm, cb, tb, vb, ci, ti, vi. repeat (split; [assumption |]).
  split; [reflexivity |].
  destruct (negb (length theDead =? 0)%nat) eqn:Hlen.
  2:{ left. inversion Hdead; subst wm.
      apply negb_false_iff, Nat.eqb_eq in Hlen.
      split; [destruct theDead; [reflexivity | discriminate] | reflexivity]. }
  right. split.
  { intros E. rewrite E in Hlen. discriminate Hlen. }
  apply bind_ok_inv in Hdead as (g & wa & Hg & H).
  apply np_random_gamma_ok_inv in Hg. subst wa.
  apply bind_ok_inv in H as ([] & wa & Ha & H).
  apply assign_field_ok_inv in Ha as (a_si & Ha_si & ->).
  apply bind_ok_inv in H as ([] & wa & Ha & H).
  apply assign_const_field_ok_inv in Ha as (a_sv & Ha_sv & ->).
  apply bind_ok_inv in H as ([] & wa & Ha & H).
  apply assign_const_field_ok_inv in Ha as (a_b & Ha_b & ->).
  apply bind_ok_inv in H as (ls & wa & Ha & H).
  apply sample_ok_inv in Ha as [Hls ->].
  apply bind_ok_inv in H as ([] & wa & Ha & H).
  apply assign_field_ok_inv in Ha as (a_d & Ha_d & ->).
  apply bind_ok_inv in H as ([] & wa & Ha & H).
  apply assign_const_field_ok_inv in Ha as (a_t & Ha_t & ->).
  apply bind_ok_inv in H as ([] & wa & Ha & H).
  apply assign_const_field_ok_inv in Ha as (a_f & Ha_f & ->).
  apply bind_ok_inv in H as (ua & wa & Ha & H).
  apply sample_ok_inv in Ha as [_ ->].
  apply bind_ok_inv in H as ([] & wa & Ha & H).
  apply assign_field_ok_inv in Ha as (a_a & Ha_a & ->).
  apply bind_ok_inv in H as (uc & wa & Ha & H).
  apply sample_ok_inv in Ha as [_ ->].
  apply assign_field_ok_inv in H as (a_c & Ha_c & ->).
  cbn in *. subst ls.
  exists a_si, a_sv, a_b, a_d, a_t, a_f, a_a, a_c. auto 10.
Qed.

(** X9: when no host's death date has passed, a [doDeath] that returns has
    drawn no random variate and has written nothing but the three age-group
    index arrays. *)
Theorem doDeath_without_deaths params t w w' :
  Forall (fun d => ~ (d < t)%Q) (deathDate (demography (population w))) ->
  doDeath getLifeSpans params t w = (Ok tt, w') ->
  generator w' = generator w
  /\ population w'
     = set_VaccTreatmentAgeGroupIndices (VaccTreatmentAgeGroupIndices (population w'))
         (set_treatmentAgeGroupIndices (treatmentAgeGroupIndices (population w'))
            (set_contactAgeGroupIndices (contactAgeGroupIndices (population w'))
               (population w))).
Proof.
  intros Halive H.
  apply doDeath_ok_inv in H as (wm & cb & tb & vb & ci & ti & vi & H).
  destruct H as (_ & _ & _ & _ & _ & _ & -> & [[_ ->] | [Hne _]]).
  - split; reflexivity.
  - exfalso. apply Hne. apply np_where_nil.
    apply Forall_forall. intros b Hb.
    apply list_elem_of_In, in_map_iff in Hb as (d & <- & Hd).
    rewrite Forall_forall in Halive. apply list_elem_of_In, Halive in Hd.
    destruct (Qltb d t) eqn:E; [| reflexivity].
    apply Qltb_lt in E. contradiction.
Qed.

(** After a [doDeath] that returns with positive lifespan draws, no death
    date lies before [t]. *)
Lemma doDeath_leaves_no_dead params t w w' :
  doDeath getLifeSpans params t w = (Ok tt, w') ->
  Forall (fun l => (0 < l)%Q)
         (fst (getLifeSpans
                 (length (np_where (map (fun d => Qltb d t)
                                        (deathDate (demography (population w))))))
                 params
                 (advance
                    (length (np_where (map (fun d => Qltb d t)
                                           (deathDate (demography (population w))))))
                    (generator w)))) ->
  Forall (fun d => ~ (d < t)%Q) (deathDate (demography (population w'))).
Proof.
  intros H Hpos.
  apply doDeath_ok_inv in H as (wm & cb & tb & vb & ci & ti & vi & H).
  destruct H as (_ & _ & _ & _ & _ & _ & -> & Hcase). cbn.
  set (theDead := np_where (map (fun d => Qltb d t)
                                (deathDate (demography (population w))))) in *.
  assert (Hmem : forall i d, deathDate (demography (population w)) !! i = Some d ->
                             (i ∈ theDead <-> (d < t)%Q)).
  { intros i d Hd. unfold theDead. rewrite elem_of_np_where, map_lookup, Hd. cbn.
    rewrite <- Qltb_lt. split; [intros [= E]; exact E | intros ->; reflexivity]. }
  apply Forall_lookup. intros i d' Hd'.
  destruct Hcase as [[Hnil ->] | (_ & a_si & a_sv & a_b & a_d & a_t & a_f & a_a & a_c & Hc)].
  - intros Hlt. apply (Hmem i d' Hd') in Hlt. rewrite Hnil in Hlt. inversion Hlt.
  - destruct Hc as (_ & _ & Ha_d & _ & _ & Hpop). rewrite Hpop in Hd'. cbn in Hd'.
    destruct (decide (i ∈ theDead)) as [Hin | Hnin].
    + destruct (assign_at_lookup_in _ _ _ _ i Ha_d Hin) as (v & Hv & Hlook).
      rewrite Hlook in Hd'. injection Hd' as <-.
      apply list_elem_of_In, in_map_iff in Hv as (l & <- & Hl).
      rewrite Forall_forall in Hpos. apply list_elem_of_In, Hpos in Hl.
      apply Qle_not_lt. rewrite <- (Qplus_0_r t) at 1.
      apply Qplus_le_r. apply Qlt_le_weak, Hl.
    + rewrite (assign_at_lookup_other _ _ _ _ i Ha_d Hnin) in Hd'.
      rewrite <- (Hmem i d' Hd'). exact Hnin.
Qed.

(** X10: [doDeath] is idempotent at a fixed time: after a call that returns
    with positive lifespan draws, a second call at the same [t] returns and
    changes neither the population nor the generator. *)
Theorem doDeath_twice params t w w' :
  doDeath getLifeSpans params t w = (Ok tt, w') ->
  Forall (fun l => (0 < l)%Q)
         (fst (getLifeSpans
                 (length (np_where (map (fun d => Qltb d t)
                                        (deathDate (demography (population w))))))
                 params
                 (advance
                    (length (np_where (map (fun d => Qltb d t)
                                           (deathDate (demography (population w))))))
                    (generator w)))) ->
  doDeath getLifeSpans params t w' = (Ok tt, w').
Proof.
  intros H Hpos.
  pose proof (doDeath_leaves_no_dead _ _ _ _ H Hpos) as Halive.
  apply doDeath_ok_inv in H as (wm & cb & tb & vb & ci & ti & vi & H).
  destruct H as (Hcb & Htb & Hvb & Hci & Hti & Hvi & -> & _).
  unfold doDeath, doDeath_with. unfold bind at 1. cbn [get_SD].
  assert (np_where (map (fun d => Qltb d t)
            (deathDate (demography
               (population
                  (with_population
                     (set_VaccTreatmentAgeGroupIndices (Some vi)
                        (set_treatmentAgeGroupIndices ti
                           (set_contactAgeGroupIndices ci (population wm)))) wm)))))
          = []) as ->.
  { apply np_where_nil. apply Forall_forall. intros b Hb.
    apply list_elem_of_In, in_map_iff in Hb as (d & <- & Hd).
    rewrite Forall_forall in Halive. apply list_elem_of_In, Halive in Hd.
    destruct (Qltb d t) eqn:E; [| reflexivity].
    apply Qltb_lt in E. contradiction. }
  cbn [length Nat.eqb negb]. unfold bind at 1. cbn [ret].
  rewrite (doDeath_indices_run params t _ cb tb vb ci ti vi); try assumption.
  reflexivity.
Qed.

(** X11: [doRegular] replaces the dead before it updates the reservoir: when
    every host's death date has passed, a call that returns leaves every
    host without worms and the reservoir receives no eggs from the hosts
    that died; its level is [freeLiving * exp(-LDecayRate * dt)]. *)
Theorem doRegular_after_extinction params t dt w w' f :
  let SD := population w in
  Forall (fun d => (d < t)%Q) (deathDate (demography SD)) ->
  length (total (worms SD)) = length (deathDate (demography SD)) ->
  length (female (worms SD)) = length (deathDate (demography SD)) ->
  N params <> 0 -> LDecayRate params <> 0%R ->
  freeLiving SD = Finite f ->
  doRegular getLifeSpans params t dt w = (Ok tt, w') ->
  Forall (fun x => x = 0) (total (worms (population w')))
  /\ Forall (fun x => x = 0) (female (worms (population w')))
  /\ freeLiving (population w') = Finite (f * exp (- LDecayRate params * dt))%R.
Proof.
  intros SD Hdead Hlt Hlf HN HL Hf H. unfold doRegular in H.
  apply bind_ok_inv in H as ([] & w1 & Hd & H).
  apply doDeath_ok_inv in Hd as (wm & cb & tb & vb & ci & ti & vi & Hd).
  destruct Hd as (_ & _ & _ & _ & _ & _ & Hw1 & Hcase). fold SD in Hcase.
  set (theDead := np_where (map (fun d => Qltb d t) (deathDate (demography SD)))) in *.
  assert (Hin : forall i, (i < length (deathDate (demography SD)))%nat -> i ∈ theDead).
  { intros i Hi. destruct (lookup_lt_is_Some_2 _ _ Hi) as [d Hd].
    unfold theDead. rewrite elem_of_np_where, map_lookup, Hd. cbn. f_equal.
    apply Qltb_lt. rewrite Forall_lookup in Hdead. exact (Hdead i d Hd). }
  assert (Hcleared : forall a a', length a = length (deathDate (demography SD)) ->
                       assign_const_at a theDead 0 = Some a' ->
                       Forall (fun x => x = 0) a').
  { intros a a' Hlen Ha. apply Forall_lookup. intros i x Hx.
    pose proof (lookup_lt_Some _ _ _ Hx) as Hi.
    rewrite (assign_const_at_length _ _ _ _ Ha), Hlen in Hi.
    rewrite (assign_const_at_lookup _ _ _ _ i Ha) in Hx.
    destruct (decide (i ∈ theDead)) as [_ | Hn]; [congruence |].
    exfalso. exact (Hn (Hin i Hi)). }
  assert (Hworms : Forall (fun x => x = 0) (total (worms (population w1)))
                   /\ Forall (fun x => x = 0) (female (worms (population w1)))
                   /\ freeLiving (population w1) = Finite f).
  { subst w1. cbn. destruct Hcase as [[Hnil ->] | (_ & Hc)].
    - assert (deathDate (demography SD) = []) as Hempty.
      { destruct (deathDate (demography SD)) as [| d ds] eqn:E; [reflexivity |].
        exfalso. assert (0%nat ∈ theDead) as H0 by (apply Hin; cbn; lia).
        rewrite Hnil in H0. inversion H0. }
      rewrite Hempty in Hlt, Hlf. cbn in Hlt, Hlf.
      apply nil_length_inv in Hlt, Hlf. fold SD. rewrite Hlt, Hlf.
      repeat split; [constructor | constructor | exact Hf].
    - destruct Hc as (a_si & a_sv & a_b & a_d & a_t & a_f & a_a & a_c & Hc).
      destruct Hc as (_ & _ & _ & Ha_t & Ha_f & ->). cbn.
      repeat split;
        [exact (Hcleared _ _ Hlt Ha_t) | exact (Hcleared _ _ Hlf Ha_f) | exact Hf]. }
  destruct Hworms as (Ht0 & Hf0 & Hlevel).
  assert (Htot : Forall (fun x => 0 <= x) (total (worms (population w1)))).
  { eapply Forall_impl; [exact Ht0 |]. cbn. intros x ->. lia. }
  rewrite (doFreeLive_no_females _ _ _ _ _ Hf0 Htot HN HL Hlevel H).
  destruct (population w1) as [? ? [? ?]]. cbn in *. auto.
Qed.


End DemographyMore.

(** X9 at time 5, before the first death date of the demography world. *)
Lemma doDeath_without_deaths_witness :
  let w := Fixtures.demography_world in
  let w' := snd (doDeath Fixtures.fixed_lifespans (Fixtures.base_params 2) 5%Q w) in
  generator w' = generator w
  /\ population w'
     = set_VaccTreatmentAgeGroupIndices (VaccTreatmentAgeGroupIndices (population w'))
         (set_treatmentAgeGroupIndices (treatmentAgeGroupIndices (population w'))
            (set_contactAgeGroupIndices (contactAgeGroupIndices (population w'))
               (population w))).
Proof.
  intros w w'.
  apply (doDeath_without_deaths Fixtures.fixed_lifespans (Fixtures.base_params 2) 5%Q w w').
  - repeat (constructor; [unfold Qlt; cbn; lia |]). constructor.
  - vm_compute. reflexivity.
Defined.

(** X10 at time 10, when the first host of the demography world has died. *)
Lemma doDeath_twice_witness :
  let w := Fixtures.demography_world in
  let w' := snd (doDeath Fixtures.fixed_lifespans (Fixtures.base_params 2) 10%Q w) in
  doDeath Fixtures.fixed_lifespans (Fixtures.base_params 2) 10%Q w' = (Ok tt, w').
Proof.
  intros w w'.
  apply (doDeath_twice Fixtures.fixed_lifespans (Fixtures.base_params 2) 10%Q w w').
  - vm_compute. reflexivity.
  - vm_compute. repeat constructor.
Defined.

(** X11 at time 100, when both hosts of the demography world have died. *)
Lemma doRegular_after_extinction_witness :
  let w' := snd (doRegular Fixtures.fixed_lifespans (Fixtures.base_params 2) 100%Q 1%R
                           Fixtures.demography_world) in
  Forall (fun x => x = 0) (total (worms (population w')))
  /\ Forall (fun x => x = 0) (female (worms (population w')))
  /\ freeLiving (population w') = Finite (10 * exp (- 1 * 1))%R.
Proof.
  intros w'.
  assert (H : doRegular Fixtures.fixed_lifespans (Fixtures.base_params 2) 100%Q 1%R
                        Fixtures.demography_world = (Ok tt, w'))
    by (vm_compute; reflexivity).
  apply (doRegular_after_extinction Fixtures.fixed_lifespans (Fixtures.base_params 2)
           100%Q 1%R Fixtures.demography_world w' 10%R).
  - repeat (constructor; [reflexivity |]). constructor.
  - reflexivity.
  - reflexivity.
  - discriminate.
  - cbn. lra.
  - reflexivity.
  - exact H.
Defined.

(** ** No operator resizes the population *)

(** The write replaces an array by one of the same length. *)
Ltac write_same_length :=
  intros; unfold array_lengths in *; cbn in *; congruence.

Lemma keeps_lengths_sv_setitem L i x :
  keeps (fun SD => array_lengths SD = L) (sv_setitem i x).
Proof.
  apply keeps_sv_setitem. intros SD a H E. apply np_setitem_length in E.
  write_same_length.
Qed.

Lemma keeps_lengths_sv_mask_set L mask c :
  keeps (fun SD => array_lengths SD = L) (sv_mask_set mask c).
Proof.
  apply keeps_sv_mask_set. intros SD H.
  pose proof (mask_set_length mask c (sv SD)). write_same_length.
Qed.

Section Lengths.

Variable getLifeSpans : nat -> Parameters -> Rand (list Q).
Variable DrugEfficacy : Q.

(** X12: whether they return or raise, the operators never resize a
    per-host array: susceptibility, vaccine status, worm counts, birth and
    death dates, adherence factors and compliance keep their lengths under
    [doEvent], [doEvent2], [doDeath], [doChemo], [doChemoAgeRange],
    [doVaccine] and [doVaccineAgeRange]. *)
Theorem operators_keep_array_lengths params w :
  (forall rates,
     array_lengths (population (snd (doEvent rates params w)))
     = array_lengths (population w))
  /\ (forall sum_rates cumsum_rates multiplier,
     array_lengths (population (snd (doEvent2 sum_rates cumsum_rates params multiplier w)))
     = array_lengths (population w))
  /\ (forall t,
     array_lengths (population (snd (doDeath getLifeSpans params t w)))
     = array_lengths (population w))
  /\ (forall t coverage,
     array_lengths (population (snd (doChemo DrugEfficacy params t coverage w)))
     = array_lengths (population w))
  /\ (forall t minAge maxAge coverage,
     array_lengths (population (snd (doChemoAgeRange params t minAge maxAge coverage w)))
     = array_lengths (population w))
  /\ (forall t VaccCoverage,
     array_lengths (population (snd (doVaccine params t VaccCoverage w)))
     = array_lengths (population w))
  /\ (forall t minAge maxAge coverage,
     array_lengths (population (snd (doVaccineAgeRange params t minAge maxAge coverage w)))
     = array_lengths (population w)).
Proof.
  repeat split.
  - intros rates.
    apply (keeps_doEvent (fun SD => array_lengths SD = array_lengths (population w)));
      [write_same_length | write_same_length | | reflexivity].
    intros i. apply keeps_lengths_sv_setitem.
  - intros sum_rates cumsum_rates multiplier.
    apply (keeps_doEvent2 (fun SD => array_lengths SD = array_lengths (population w)));
      [write_same_length | write_same_length | | reflexivity].
    intros idx. apply keeps_put_field_length. write_same_length.
  - intros t.
    enough (K : keeps (fun SD => array_lengths SD = array_lengths (population w))
                      (doDeath getLifeSpans params t)) by exact (K w eq_refl).
    unfold doDeath, doDeath_with. repeat (keeps_step write_same_length).
  - intros t coverage.
    enough (K : keeps (fun SD => array_lengths SD = array_lengths (population w))
                      (doChemo DrugEfficacy params t coverage)) by exact (K w eq_refl).
    unfold doChemo. repeat (keeps_step write_same_length).
  - intros t minAge maxAge coverage.
    enough (K : keeps (fun SD => array_lengths SD = array_lengths (population w))
                      (doChemoAgeRange params t minAge maxAge coverage))
      by exact (K w eq_refl).
    unfold doChemoAgeRange, treat_with_drug. repeat (keeps_step write_same_length).
  - intros t VaccCoverage.
    enough (K : keeps (fun SD => array_lengths SD = array_lengths (population w))
                      (doVaccine params t VaccCoverage)) by exact (K w eq_refl).
    unfold doVaccine.
    repeat first [apply keeps_lengths_sv_mask_set | keeps_step write_same_length].
  - intros t minAge maxAge coverage.
    enough (K : keeps (fun SD => array_lengths SD = array_lengths (population w))
                      (doVaccineAgeRange params t minAge maxAge coverage))
      by exact (K w eq_refl).
    unfold doVaccineAgeRange.
    repeat first [apply keeps_lengths_sv_mask_set | keeps_step write_same_length].
Qed.

End Lengths.

(** ** InterventionEngine: [doChemo] *)

Lemma np_extract_lookup_rank {A} (mask : list bool) (a : list A) i x :
  mask !! i = Some true -> a !! i = Some x ->
  np_extract mask a !! rank mask i = Some x.
Proof.
  revert a i. induction mask as [| b mask IH]; intros [| y a] i Hm Ha;
    try discriminate.
  destruct i as [| i]; cbn in *.
  - injection Hm as ->. exact Ha.
  - destruct b; cbn; apply IH; assumption.
Qed.

Lemma mask_sub_lookup mask a vals i :
  length mask = length a ->
  mask_sub mask a vals !! i
  = match mask !! i, a !! i with
    | Some true, Some x =>
        Some (match vals !! rank mask i with Some v => x - v | None => x end)
    | _, o => o
    end.
Proof.
  revert a vals i. induction mask as [| b mask IH]; intros [| x a] vals i Hlen;
    try discriminate Hlen.
  - cbn. destruct i; reflexivity.
  - injection Hlen as Hlen. destruct i as [| i].
    + destruct b; [destruct vals |]; reflexivity.
    + destruct b; [destruct vals as [| v vals] |]; cbn.
      * rewrite IH by exact Hlen.
        destruct (mask !! i) as [[|] |]; destruct (a !! i); reflexivity.
      * apply IH, Hlen.
      * apply IH, Hlen.
Qed.

Lemma count_true_all (b : list bool) :
  Forall (fun x => x = true) b -> count_true b = Z.of_nat (length b).
Proof. induction 1 as [| x b -> _ IH]; cbn [count_true length]; lia. Qed.

Lemma binomial_draw_bounds p n g : 0 <= n -> 0 <= fst (binomial_draw p n g) <= n.
Proof.
  intros Hn. unfold binomial_draw, uniform_draws. cbn.
  pose proof (count_true_bounds
                (map (fun u => Qltb u p)
                     (map (uniform_src g) (seq (cursor g) (Z.to_nat n))))) as H.
  rewrite !length_map, length_seq in H. lia.
Qed.

Lemma binomial_draw_src p n g :
  uniform_src (snd (binomial_draw p n g)) = uniform_src g.
Proof. reflexivity. Qed.

Lemma binomial_draws_cons p n ns g :
  binomial_draws p (n :: ns) g
  = (fst (binomial_draw p n g)
       :: fst (binomial_draws p ns (snd (binomial_draw p n g))),
     snd (binomial_draws p ns (snd (binomial_draw p n g)))).
Proof.
  cbn [binomial_draws]. destruct (binomial_draw p n g) as [x g'].
  cbn [fst snd]. destruct (binomial_draws p ns g'). reflexivity.
Qed.

Lemma binomial_draws_bounds p ns g :
  Forall (fun n => 0 <= n) ns ->
  Forall2 (fun n k => 0 <= k <= n) ns (fst (binomial_draws p ns g)).
Proof.
  intros H. revert g. induction H as [| n ns Hn _ IH]; intros g.
  - constructor.
  - rewrite binomial_draws_cons. cbn [fst].
    constructor; [apply binomial_draw_bounds, Hn | apply IH].
Qed.

Lemma binomial_draw_full n g :
  (forall k, (uniform_src g k < 1)%Q) -> 0 <= n -> fst (binomial_draw 1 n g) = n.
Proof.
  intros Hg Hn. unfold binomial_draw, uniform_draws. cbn.
  rewrite count_true_all.
  - rewrite !length_map, length_seq. lia.
  - apply Forall_forall. intros b Hb.
    apply list_elem_of_In, in_map_iff in Hb as (u & <- & Hu).
    apply in_map_iff in Hu as (k & <- & _). apply Qltb_lt, Hg.
Qed.

Lemma binomial_draws_full ns g :
  (forall k, (uniform_src g k < 1)%Q) -> Forall (fun n => 0 <= n) ns ->
  fst (binomial_draws 1 ns g) = ns.
Proof.
  intros Hg H. revert g Hg. induction H as [| n ns Hn _ IH]; intros g Hg.
  - reflexivity.
  - rewrite binomial_draws_cons. cbn [fst]. f_equal.
    + apply binomial_draw_full; assumption.
    + apply IH. intros k. rewrite binomial_draw_src. apply Hg.
Qed.

Lemma binomial_draws_src p ns g :
  uniform_src (snd (binomial_draws p ns g)) = uniform_src g.
Proof.
  revert g. induction ns as [| n ns IH]; intros g; [reflexivity |].
  rewrite binomial_draws_cons. cbn [snd]. rewrite IH. apply binomial_draw_src.
Qed.

Lemma np_random_binomial_ok_inv ns p w ks w' :
  np_random_binomial ns p w = (Ok ks, w') ->
  Forall (fun n => 0 <= n) ns
  /\ ks = fst (binomial_draws p ns (generator w))
  /\ w' = {| population := population w;
             generator := snd (binomial_draws p ns (generator w)) |}.
Proof.
  unfold np_random_binomial. destruct (_ || _); [discriminate |].
  destruct (existsb _ ns) eqn:E; [discriminate |].
  intros H. apply sample_ok_inv in H as [-> ->]. split; [| auto].
  apply Forall_forall. intros n Hn.
  destruct (n <? 0) eqn:Hlt; [| apply Z.ltb_ge in Hlt; exact Hlt].
  assert (existsb (fun n => n <? 0) ns = true) as Hex.
  { apply existsb_exists. exists n. split; [apply list_elem_of_In, Hn | exact Hlt]. }
  congruence.
Qed.

Lemma mask_sub_field_ok_inv read write mask vals w u w' :
  mask_sub_field read write mask vals w = (Ok u, w') ->
  length mask = length (read (population w))
  /\ w' = with_population
            (write (mask_sub mask (read (population w)) vals) (population w)) w.
Proof.
  unfold mask_sub_field, bind, get_SD. cbv beta iota.
  destruct (_ =? _)%nat eqn:E; [| discriminate].
  intros [= <- <-]. split; [apply Nat.eqb_eq, E | reflexivity].
Qed.

Lemma np_mask_index_Some {A} mask (a : list A) r :
  np_mask_index mask a = Some r -> r = np_extract mask a /\ length mask = length a.
Proof.
  unfold np_mask_index. destruct (_ =? _)%nat eqn:E; [| discriminate].
  intros [= <-]. split; [reflexivity | apply Nat.eqb_eq, E].
Qed.

Section ChemoFacts.

Variable DrugEfficacy : Q.

(** What a [doChemo] that returns has done. *)
Lemma doChemo_ok_inv params t coverage w w' :
  doChemo DrugEfficacy params t coverage w = (Ok tt, w') ->
  let SD := population w in
  exists cov toTreatNow g1 g2,
    np_take coverage (treatmentAgeGroupIndices SD) = Some cov
    /\ toTreatNow
       = zip_with andb
           (zip_with Qltb (fst (uniform_draws (Z.to_nat (N params)) (generator w))) cov)
           (compliers SD)
    /\ length toTreatNow = length (female (worms SD))
    /\ length toTreatNow = length (total (worms SD))
    /\ uniform_src g1 = uniform_src (generator w)
    /\ uniform_src g2 = uniform_src (generator w)
    /\ Forall (fun n => 0 <= n) (np_extract toTreatNow (female (worms SD)))
    /\ Forall (fun n => 0 <= n)
              (zip_with Z.sub (np_extract toTreatNow (total (worms SD)))
                              (np_extract toTreatNow (female (worms SD))))
    /\ let femaleToDie :=
         fst (binomial_draws DrugEfficacy
                (np_extract toTreatNow (female (worms SD))) g1) in
       let maleToDie :=
         fst (binomial_draws DrugEfficacy
                (zip_with Z.sub (np_extract toTreatNow (total (worms SD)))
                                (np_extract toTreatNow (female (worms SD)))) g2) in
       population w'
       = set_adherenceFactorAtChemo (adherenceFactorAtChemo SD ++ [adherenceFactors SD])
           (set_ageAtChemo
              (ageAtChemo SD ++ [map (fun b => (t - b)%Q) (birthDate (demography SD))])
              (set_attendanceRecord (attendanceRecord SD ++ [AttendanceMask toTreatNow])
                 (set_total
                    (mask_sub toTreatNow (total (worms SD))
                              (zip_with Z.add maleToDie femaleToDie))
                    (set_female
                       (mask_sub toTreatNow (female (worms SD)) femaleToDie) SD)))).
Proof.
  intros H SD. unfold doChemo in H.
  apply bind_ok_inv in H as (us & w1 & Hus & H).
  unfold np_random_uniform in Hus. destruct (N params <? 0); [discriminate Hus |].
  apply sample_ok_inv in Hus as [-> ->].
  apply bind_ok_inv in H as (SD0 & w0 & H0 & H). inversion H0; subst SD0 w0; clear H0.
  cbn [population] in H. fold SD in H.
  apply bind_ok_inv in H as (cov & w1 & Hcov & H).
  apply or_raise_ok_inv in Hcov as [Hcov ->].
  apply bind_ok_inv in H as (att & w1 & Hatt & H).
  apply or_raise_ok_inv in Hatt as [Hatt ->].
  apply zip_with_same_Some in Hatt as [-> _].
  apply bind_ok_inv in H as (toTreatNow & w1 & Hnow & H).
  apply or_raise_ok_inv in Hnow as [Hnow ->].
  apply zip_with_same_Some in Hnow as [Hnow _].
  apply bind_ok_inv in H as (fem & w1 & Hfem & H).
  apply or_raise_ok_inv in Hfem as [Hfem ->].
  apply np_mask_index_Some in Hfem as [-> Hlenf].
  apply bind_ok_inv in H as (femaleToDie & w1 & Hfd & H).
  apply np_random_binomial_ok_inv in Hfd as (Hfpos & -> & ->).
  apply bind_ok_inv in H as (tot & w1 & Htot & H).
  apply or_raise_ok_inv in Htot as [Htot ->].
  apply np_mask_index_Some in Htot as [-> Hlent].
  apply bind_ok_inv in H as (maleToDie & w1 & Hmd & H).
  apply np_random_binomial_ok_inv in Hmd as (Hmpos & -> & ->).
  apply bind_ok_inv in H as ([] & w1 & Hsf & H).
  apply mask_sub_field_ok_inv in Hsf as [_ ->].
  apply bind_ok_inv in H as ([] & w1 & Hst & H).
  apply mask_sub_field_ok_inv in Hst as [_ ->].
  apply bind_ok_inv in H as ([] & w1 & Hu & H). inversion Hu; subst w1; clear Hu.
  apply bind_ok_inv in H as ([] & w1 & Hu & H). inversion Hu; subst w1; clear Hu.
  inversion H; subst w'; clear H. cbn in *.
  exists cov, toTreatNow, (advance (Z.to_nat (N params)) (generator w)),
    (snd (binomial_draws DrugEfficacy (np_extract toTreatNow (female (worms SD)))
            (advance (Z.to_nat (N params)) (generator w)))).
  split; [exact Hcov |]. split; [exact Hnow |].
  split; [exact Hlenf |]. split; [exact Hlent |].
  split; [reflexivity |].
  split; [rewrite binomial_draws_src; reflexivity |].
  split; [exact Hfpos |]. split; [exact Hmpos | reflexivity].
Qed.

(** X13: a [doChemo] that returns has treated exactly the hosts that attend
    under their age group's coverage and comply.  Every other host keeps its
    worm counts; a treated host had [0 <= female <= total], loses [kf]
    female and [km] male worms with [0 <= kf <= female] and
    [0 <= km <= total - female], and so still has [0 <= female <= total];
    the mask of treated hosts is appended to the attendance record. *)
Theorem doChemo_treats_attending_compliers params t coverage w w' :
  doChemo DrugEfficacy params t coverage w = (Ok tt, w') ->
  let SD := population w in
  let SD' := population w' in
  exists cov,
    np_take coverage (treatmentAgeGroupIndices SD) = Some cov
    /\ let toTreatNow :=
         zip_with andb
           (zip_with Qltb (fst (uniform_draws (Z.to_nat (N params)) (generator w))) cov)
           (compliers SD) in
       attendanceRecord SD' = attendanceRecord SD ++ [AttendanceMask toTreatNow]
       /\ forall i f tt,
            female (worms SD) !! i = Some f -> total (worms SD) !! i = Some tt ->
            (toTreatNow !! i <> Some true ->
               female (worms SD') !! i = Some f /\ total (worms SD') !! i = Some tt)
            /\ (toTreatNow !! i = Some true ->
                  exists kf km,
                    0 <= kf <= f /\ 0 <= km <= tt - f
                    /\ female (worms SD') !! i = Some (f - kf)
                    /\ total (worms SD') !! i = Some (tt - (km + kf))).
Proof.
  intros H SD SD'. subst SD SD'.
  apply doChemo_ok_inv in H as (cov & mask & g1 & g2 & Hcov & Hmask & Hlf & Hlt & H).
  destruct H as (_ & _ & Hfpos & Hmpos & Hpop).
  exists cov. split; [exact Hcov |]. cbv zeta. rewrite <- Hmask.
  rewrite Hpop. cbn. split; [reflexivity |].
  intros i f tt Hf Ht.
  rewrite !mask_sub_lookup by assumption. rewrite Hf, Ht.
  split.
  - intros Hno. destruct (mask !! i) as [[|] |]; [contradiction Hno | |]; auto.
  - intros Hyes. rewrite Hyes.
    pose proof (np_extract_lookup_rank mask _ i f Hyes Hf) as Hfj.
    pose proof (np_extract_lookup_rank mask _ i tt Hyes Ht) as Htj.
    set (j := rank mask i) in *.
    pose proof (binomial_draws_bounds DrugEfficacy _ g1 Hfpos) as Bf.
    pose proof (binomial_draws_bounds DrugEfficacy _ g2 Hmpos) as Bm.
    destruct (Forall2_lookup_l _ _ _ j f Bf Hfj) as (kf & Hkf & Bkf).
    assert (Hsub : zip_with Z.sub (np_extract mask (total (worms (population w))))
                     (np_extract mask (female (worms (population w)))) !! j
                   = Some (tt - f)).
    { rewrite lookup_zip_with, Htj. cbn. rewrite Hfj. reflexivity. }
    destruct (Forall2_lookup_l _ _ _ j (tt - f) Bm Hsub) as (km & Hkm & Bkm).
    exists kf, km. rewrite Hkf.
    rewrite lookup_zip_with, Hkm. cbn. rewrite Hkf. cbn. auto.
Qed.

(** X14: with drug efficacy 1 and uniform variates below 1, a [doChemo]
    that returns leaves every treated host (attending under its age
    group's coverage, and complying) without worms. *)
Theorem doChemo_full_efficacy_clears params t coverage w w' cov i :
  DrugEfficacy = 1%Q ->
  (forall k, (uniform_src (generator w) k < 1)%Q) ->
  doChemo DrugEfficacy params t coverage w = (Ok tt, w') ->
  np_take coverage (treatmentAgeGroupIndices (population w)) = Some cov ->
  zip_with andb
    (zip_with Qltb (fst (uniform_draws (Z.to_nat (N params)) (generator w))) cov)
    (compliers (population w)) !! i = Some true ->
  total (worms (population w')) !! i = Some 0
  /\ female (worms (population w')) !! i = Some 0.
Proof.
  intros Heff Hsrc H Hc Hyes.
  apply doChemo_ok_inv in H as (cov' & mask & g1 & g2 & Hcov & Hmask & Hlf & Hlt & H).
  destruct H as (Hg1 & Hg2 & Hfpos & Hmpos & Hpop). rewrite Hpop. cbn.
  rewrite Hc in Hcov. injection Hcov as <-. rewrite <- Hmask in Hyes.
  destruct (lookup_lt_is_Some_2 (total (worms (population w))) i) as [tt Ht].
  { rewrite <- Hlt. apply lookup_lt_Some in Hyes. exact Hyes. }
  destruct (lookup_lt_is_Some_2 (female (worms (population w))) i) as [f Hf].
  { rewrite <- Hlf. apply lookup_lt_Some in Hyes. exact Hyes. }
  rewrite !mask_sub_lookup by assumption. rewrite Hf, Ht, Hyes.
  pose proof (np_extract_lookup_rank mask _ i f Hyes Hf) as Hfj.
  pose proof (np_extract_lookup_rank mask _ i tt Hyes Ht) as Htj.
  subst DrugEfficacy.
  rewrite !binomial_draws_full; try assumption;
    try (intros k; rewrite ?Hg1, ?Hg2; apply Hsrc).
  rewrite lookup_zip_with, lookup_zip_with, Htj. cbn. rewrite Hfj. cbn.
  split; f_equal; lia.
Qed.

End ChemoFacts.

(** X13 with efficacy 1 and coverage 1: host 0, who never complies, keeps
    its worms. *)
Lemma doChemo_treats_attending_compliers_witness :
  let w := Fixtures.chemo_world in
  let w' := snd (doChemo 1%Q (Fixtures.base_params 2) 10%Q [1%Q] w) in
  female (worms (population w')) !! 0%nat = Some 2
  /\ total (worms (population w')) !! 0%nat = Some 5.
Proof.
  intros w w'.
  assert (H : doChemo 1%Q (Fixtures.base_params 2) 10%Q [1%Q] w = (Ok tt, w'))
    by (vm_compute; reflexivity).
  destruct (doChemo_treats_attending_compliers 1%Q (Fixtures.base_params 2) 10%Q
              [1%Q] w w' H) as (cov & Hcov & _ & Hhosts).
  injection Hcov as <-.
  destruct (Hhosts 0%nat 2 5 eq_refl eq_refl) as [Hkept _].
  apply Hkept. discriminate.
Defined.

(** X14 with coverage 1: host 1, who complies, loses every worm. *)
Lemma doChemo_full_efficacy_clears_witness :
  let w := Fixtures.chemo_world in
  let w' := snd (doChemo 1%Q (Fixtures.base_params 2) 10%Q [1%Q] w) in
  total (worms (population w')) !! 1%nat = Some 0
  /\ female (worms (population w')) !! 1%nat = Some 0.
Proof.
  intros w w'.
  apply (doChemo_full_efficacy_clears 1%Q (Fixtures.base_params 2) 10%Q [1%Q] w w'
           [1%Q; 1%Q] 1%nat).
  - reflexivity.
  - intros [| n]; reflexivity.
  - vm_compute. reflexivity.
  - reflexivity.
  - reflexivity.
Defined.

(** ** Operators that raise before they write *)

Lemma atomic_reads_only {A} (m : Py A) : reads_only m -> atomic_on_error m.
Proof. intros Hm w e _. apply Hm. Qed.

Lemma atomic_bind_reads {A B} (m : Py A) (f : A -> Py B) :
  reads_only m -> (forall a, atomic_on_error (f a)) -> atomic_on_error (bind m f).
Proof.
  intros Hm Hf w e. unfold bind. specialize (Hm w).
  destruct (m w) as [[a | e'] w1]; cbn in *.
  - intros H. rewrite (Hf a w1 e H). exact Hm.
  - intros _. exact Hm.
Qed.

Lemma atomic_bind_total {A B} (m : Py A) (f : A -> Py B) :
  atomic_on_error m -> (forall a e, never_raises e (f a)) ->
  atomic_on_error (bind m f).
Proof.
  intros Hm Hf w e. unfold bind. specialize (Hm w).
  destruct (m w) as [[a | e'] w1]; cbn in *.
  - intros H. exfalso. exact (Hf a e w1 H).
  - intros _. exact (Hm e' eq_refl).
Qed.

Lemma atomic_never {A} (m : Py A) :
  (forall e, never_raises e m) -> atomic_on_error m.
Proof. intros Hm w e H. exfalso. exact (Hm e w H). Qed.

Lemma atomic_sv_mask_set mask c : atomic_on_error (sv_mask_set mask c).
Proof.
  intros w e. unfold sv_mask_set, bind, get_SD. cbv beta iota.
  destruct (_ =? _)%nat; cbn; [discriminate | reflexivity].
Qed.

Section Atomic.

Variable getSetOfEggCounts : list Z -> list Z -> Parameters -> bool -> Rand (list Q).

(** X15: [doVaccine], [doVaccineAgeRange], [conductSurvey] and
    [conductSurveyTwo] check everything before they write: a call that
    raises leaves the population exactly as it was. *)
Theorem vaccines_and_surveys_raise_before_writing params t w e :
  (forall VaccCoverage,
     fst (doVaccine params t VaccCoverage w) = Raise e ->
     population (snd (doVaccine params t VaccCoverage w)) = population w)
  /\ (forall minAge maxAge coverage,
     fst (doVaccineAgeRange params t minAge maxAge coverage w) = Raise e ->
     population (snd (doVaccineAgeRange params t minAge maxAge coverage w))
     = population w)
  /\ (forall sampleSize nSamples,
     fst (conductSurvey getSetOfEggCounts params t sampleSize nSamples w) = Raise e ->
     population (snd (conductSurvey getSetOfEggCounts params t sampleSize nSamples w))
     = population w)
  /\ (forall sampleSize nSamples,
     fst (conductSurveyTwo getSetOfEggCounts params t sampleSize nSamples w) = Raise e ->
     population (snd (conductSurveyTwo getSetOfEggCounts params t sampleSize nSamples w))
     = population w).
Proof.
  repeat split.
  - intros VaccCoverage.
    enough (K : atomic_on_error (doVaccine params t VaccCoverage)) by exact (K w e).
    unfold doVaccine.
    do 6 (apply atomic_bind_reads; [auto with py_frame |]; intros ?).
    apply atomic_bind_total; [apply atomic_sv_mask_set |].
    intros _ e0. apply never_raises_update_SD.
  - intros minAge maxAge coverage.
    enough (K : atomic_on_error (doVaccineAgeRange params t minAge maxAge coverage))
      by exact (K w e).
    unfold doVaccineAgeRange.
    do 4 (apply atomic_bind_reads; [auto with py_frame |]; intros ?).
    apply atomic_bind_total; [apply atomic_sv_mask_set |].
    intros _ e0. apply never_raises_update_SD.
  - intros sampleSize nSamples.
    enough (K : atomic_on_error
                  (conductSurvey getSetOfEggCounts params t sampleSize nSamples))
      by exact (K w e).
    unfold conductSurvey.
    destruct (nSamples <? 1); [apply atomic_reads_only, reads_only_raise |].
    apply atomic_bind_reads; [apply reads_only_egg_reading |]. intros e1.
    apply atomic_bind_reads; [apply reads_only_add_readings |]. intros e2.
    apply atomic_bind_reads; [auto with py_frame |]. intros SD.
    apply atomic_bind_reads.
    { destruct (_ =? _)%nat; auto with py_frame. }
    intros eggs.
    apply atomic_bind_reads; [auto with py_frame |]. intros s.
    apply atomic_never. intros e0.
    apply never_raises_bind; [apply never_raises_update_SD |].
    intros _. apply never_raises_ret.
  - intros sampleSize nSamples.
    enough (K : atomic_on_error
                  (conductSurveyTwo getSetOfEggCounts params t sampleSize nSamples))
      by exact (K w e).
    unfold conductSurveyTwo.
    destruct (nSamples <? 1); [apply atomic_reads_only, reads_only_raise |].
    apply atomic_bind_reads; [apply reads_only_egg_reading |]. intros e1.
    apply atomic_bind_reads; [apply reads_only_add_readings |]. intros e2.
    apply atomic_bind_reads; [auto with py_frame |]. intros s.
    apply atomic_bind_reads; [auto with py_frame |]. intros SD.
    apply atomic_bind_reads; [auto with py_frame |]. intros n2.
    apply atomic_never. intros e0.
    apply never_raises_bind; [apply never_raises_update_SD |].
    intros _. apply never_raises_ret.
Qed.

End Atomic.

(** X15 at a [doVaccineAgeRange] that draws three variates for two hosts
    and raises. *)
Lemma vaccines_and_surveys_raise_before_writing_witness :
  population (snd (doVaccineAgeRange (Fixtures.base_params 3) 10%Q 0%Q 100%Q 1%Q
                                     Fixtures.chemo_world))
  = population Fixtures.chemo_world.
Proof.
  apply (proj1 (proj2 (vaccines_and_surveys_raise_before_writing
                         Fixtures.alternating_readings (Fixtures.base_params 3) 10%Q
                         Fixtures.chemo_world broadcast_error))).
  reflexivity.
Defined.

(** ** [doVaccineAgeRange] *)

Lemma mask_set_all_false {A} mask (c : A) a :
  Forall (fun b => b = false) mask -> mask_set mask c a = a.
Proof.
  intros H. revert a. induction H as [| b mask -> _ IH]; intros [| x a]; cbn;
    try reflexivity.
  rewrite IH. reflexivity.
Qed.

Lemma count_true_all_false mask :
  Forall (fun b => b = false) mask -> count_true mask = 0.
Proof. induction 1 as [| b mask -> _ IH]; cbn [count_true]; lia. Qed.

Lemma set_vaccCount_set_sv_same SD :
  set_vaccCount (vaccCount SD) (set_sv (sv SD) SD) = SD.
Proof. destruct SD. reflexivity. Qed.

(** What a [doVaccineAgeRange] that returns has done. *)
Lemma doVaccineAgeRange_ok_inv params t minAge maxAge coverage w w' :
  doVaccineAgeRange params t minAge maxAge coverage w = (Ok tt, w') ->
  let SD := population w in
  let vaccNow :=
    zip_with andb
      (zip_with andb
         (map (fun u => Qltb u coverage)
              (fst (uniform_draws (Z.to_nat (N params)) (generator w))))
         (compliers SD))
      (map (fun a => Qleb a maxAge && Qleb minAge a)
           (map (fun b => (t - b)%Q) (birthDate (demography SD)))) in
  length vaccNow = length (sv SD)
  /\ population w'
     = set_vaccCount (vaccCount SD + count_true vaccNow)
         (set_sv (mask_set vaccNow 1 (sv SD)) SD).
Proof.
  intros H SD. unfold doVaccineAgeRange in H.
  apply bind_ok_inv in H as (us & w1 & Hus & H).
  unfold np_random_uniform in Hus. destruct (N params <? 0); [discriminate Hus |].
  apply sample_ok_inv in Hus as [-> ->].
  apply bind_ok_inv in H as (SD0 & w0 & H0 & H). inversion H0; subst SD0 w0; clear H0.
  apply bind_ok_inv in H as (v1 & w1 & Hv1 & H).
  apply or_raise_ok_inv in Hv1 as [Hv1 ->].
  apply zip_with_same_Some in Hv1 as [-> _].
  apply bind_ok_inv in H as (v2 & w1 & Hv2 & H).
  apply or_raise_ok_inv in Hv2 as [Hv2 ->].
  apply zip_with_same_Some in Hv2 as [-> _].
  apply bind_ok_inv in H as ([] & w1 & Hset & H).
  unfold sv_mask_set, bind, get_SD in Hset. cbn in Hset.
  destruct (_ =? _)%nat eqn:Hlen; [| discriminate Hset].
  inversion Hset; subst w1; clear Hset. inversion H; subst w'; clear H.
  split; [apply Nat.eqb_eq, Hlen | reflexivity].
Qed.



(** X17: with a coverage of zero (or less) and uniform variates that are
    not negative, a [doVaccineAgeRange] that returns changes nothing in the
    population: no status and not [vaccCount]. *)
Theorem doVaccineAgeRange_zero_coverage params t minAge maxAge coverage w w' :
  (coverage <= 0)%Q ->
  (forall k, (0 <= uniform_src (generator w) k)%Q) ->
  doVaccineAgeRange params t minAge maxAge coverage w = (Ok tt, w') ->
  population w' = population w.
Proof.
  intros Hcov Hsrc H.
  apply doVaccineAgeRange_ok_inv in H as [_ ->].
  set (vaccNow := zip_with andb _ _).
  assert (Hnone : Forall (fun b => b = false) vaccNow).
  { apply (zip_with_Forall_l (fun b => b = false)); [intros x y ->; reflexivity |].
    apply (zip_with_Forall_l (fun b => b = false)); [intros x y ->; reflexivity |].
    apply Forall_forall. intros b Hb.
    apply list_elem_of_In, in_map_iff in Hb as (u & <- & Hu).
    unfold uniform_draws in Hu. cbn in Hu. apply in_map_iff in Hu as (k & <- & _).
    destruct (Qltb _ coverage) eqn:E; [| reflexivity].
    apply Qltb_lt in E. exfalso.
    exact (Qlt_irrefl _ (Qle_lt_trans _ _ _ (Hsrc k) (Qlt_le_trans _ _ _ E Hcov))). }
  rewrite (mask_set_all_false _ _ _ Hnone), (count_true_all_false _ Hnone), Z.add_0_r.
  apply set_vaccCount_set_sv_same.
Qed.

(** X17 with coverage 0. *)
Lemma doVaccineAgeRange_zero_coverage_witness :
  population (snd (doVaccineAgeRange (Fixtures.base_params 2) 10%Q 0%Q 100%Q 0%Q
                                     Fixtures.chemo_world))
  = population Fixtures.chemo_world.
Proof.
  apply (doVaccineAgeRange_zero_coverage (Fixtures.base_params 2) 10%Q 0%Q 100%Q 0%Q
           Fixtures.chemo_world).
  - apply Qle_refl.
  - intros [| n]; apply Qle_refl.
  - vm_compute. reflexivity.
Defined.

(** ** SurveyEngine, further *)




Section SurveyRange.

Variable getSetOfEggCounts : list Z -> list Z -> Parameters -> bool -> Rand (list Q).


End SurveyRange.


(** ** [doChemoAgeRange] outside the drug years *)

Lemma drug_share_not_listed t years split w r w' :
  Forall (fun y => ~ (y == t)%Q) years ->
  drug_share t years split w = (r, w') -> r = Ok 0%Q /\ w' = w.
Proof.
  intros Hy. unfold drug_share.
  assert (first_true (map (fun y => Qeq_bool y t) years) = None) as ->.
  { induction Hy as [| y years Hne _ IH]; [reflexivity |]. cbn.
    destruct (Qeq_bool y t) eqn:E.
    - apply Qeq_bool_iff in E. contradiction.
    - rewrite IH. reflexivity. }
  intros [= <- <-]. auto.
Qed.

(** X19: at a time [t] that is in neither drug's list of years,
    [doChemoAgeRange] treats nobody: a call that returns has only appended
    the hosts' ages and adherence factors to the two logs; worm counts,
    attendance record and the per-drug counters are as they were. *)
Theorem doChemoAgeRange_outside_drug_years params t minAge maxAge coverage w w'
    years1 years2 :
  drug1Years params = Some years1 -> drug2Years params = Some years2 ->
  Forall (fun y => ~ (y == t)%Q) years1 -> Forall (fun y => ~ (y == t)%Q) years2 ->
  doChemoAgeRange params t minAge maxAge coverage w = (Ok tt, w') ->
  let SD := population w in
  population w'
  = set_adherenceFactorAtChemo (adherenceFactorAtChemo SD ++ [adherenceFactors SD])
      (set_ageAtChemo
         (ageAtChemo SD ++ [map (fun b => (t - b)%Q) (birthDate (demography SD))]) SD).
Proof.
  intros Hy1 Hy2 Hn1 Hn2 H SD. unfold doChemoAgeRange in H.
  apply bind_ok_inv in H as (us & w1 & Hus & H).
  apply (reads_only_ok _ _ _ _ (reads_only_np_random_uniform _)) in Hus.
  apply bind_ok_inv in H as (SD0 & w0 & H0 & H). inversion H0; subst SD0 w0; clear H0.
  apply bind_ok_inv in H as (m1 & w2 & Hm1 & H). apply or_raise_ok_inv in Hm1 as [_ ->].
  apply bind_ok_inv in H as (m2 & w2 & Hm2 & H). apply or_raise_ok_inv in Hm2 as [_ ->].
  rewrite Hy1, Hy2 in H.
  apply bind_ok_inv in H as (y1 & w2 & Ha & H). apply or_raise_ok_inv in Ha as [[= <-] ->].
  apply bind_ok_inv in H as (y2 & w2 & Ha & H). apply or_raise_ok_inv in Ha as [[= <-] ->].
  apply bind_ok_inv in H as (s1 & w2 & Ha & H). apply or_raise_ok_inv in Ha as [_ ->].
  apply bind_ok_inv in H as (s2 & w2 & Ha & H). apply or_raise_ok_inv in Ha as [_ ->].
  apply bind_ok_inv in H as (d1 & w2 & Hd1 & H).
  apply (drug_share_not_listed _ _ _ _ _ _ Hn1) in Hd1 as [[= ->] ->].
  apply bind_ok_inv in H as (d2 & w2 & Hd2 & H).
  apply (drug_share_not_listed _ _ _ _ _ _ Hn2) in Hd2 as [[= ->] ->].
  change (Qltb 0 0) with false in H. cbv iota in H.
  apply bind_ok_inv in H as (drug & w2 & Hd & H). inversion Hd; subst drug w2; clear Hd.
  apply bind_ok_inv in H as ([] & w2 & Hd & H). inversion Hd; subst w2; clear Hd.
  apply bind_ok_inv in H as ([] & w2 & Hd & H). inversion Hd; subst w2; clear Hd.
  apply bind_ok_inv in H as ([] & w2 & Hd & H). inversion Hd; subst w2; clear Hd.
  inversion H; subst w'; clear H. cbn. rewrite Hus. reflexivity.
Qed.

(** X19 at year 11, when drug 1 is given in year 10 only and drug 2
    never. *)
Lemma doChemoAgeRange_outside_drug_years_witness :
  let SD := population Fixtures.chemo_world in
  population (snd (doChemoAgeRange (Fixtures.base_params 2) 11%Q 0 100 1%Q
                                   Fixtures.chemo_world))
  = set_adherenceFactorAtChemo (adherenceFactorAtChemo SD ++ [adherenceFactors SD])
      (set_ageAtChemo
         (ageAtChemo SD ++ [map (fun b => (11 - b)%Q) (birthDate (demography SD))]) SD).
Proof.
  apply (doChemoAgeRange_outside_drug_years (Fixtures.base_params 2) 11%Q 0 100 1%Q
           Fixtures.chemo_world _ [10%Q] []).
  - reflexivity.
  - reflexivity.
  - constructor; [unfold Qeq; cbn; lia | constructor].
  - constructor.
  - vm_compute. reflexivity.
Defined.

(** ** [doEvent2] with an empty batch *)

(** X20: [doEvent2] with a batch size of zero or less changes nothing in
    the population; a negative batch size raises [ValueError] at once. *)
Theorem doEvent2_empty_batch sum_rates cumsum_rates params multiplier w :
  multiplier <= 0 ->
  population (snd (doEvent2 sum_rates cumsum_rates params multiplier w)) = population w
  /\ (multiplier < 0 ->
      doEvent2 sum_rates cumsum_rates params multiplier w
      = (Raise negative_dimensions, w)).
Proof.
  intros Hm. destruct (multiplier <? 0) eqn:Hneg.
  - assert (Hraise : doEvent2 sum_rates cumsum_rates params multiplier w
                     = (Raise negative_dimensions, w)).
    { unfold doEvent2, bind, np_random_uniform. rewrite Hneg. reflexivity. }
    rewrite Hraise. split; [reflexivity | intros _; reflexivity].
  - apply Z.ltb_ge in Hneg. assert (multiplier = 0) as -> by lia.
    split; [| intros Hlt; lia].
    destruct w as [SD g].
    unfold doEvent2, bind, np_random_uniform, sample, or_raise, put_field,
      get_SD, update_SD, ret, raise.
    destruct cumsum_rates as [| c cs]; cbn; [reflexivity |].
    destruct SD as [? ? [? ?]]; reflexivity.
Qed.

(** X20 at a batch size of [-1]. *)
Lemma doEvent2_empty_batch_witness :
  doEvent2 3%Q Fixtures.batch_cumsum (Fixtures.base_params 1) (-1) Fixtures.batch_world
  = (Raise negative_dimensions, Fixtures.batch_world).
Proof.
  assert (H : -1 <= 0) by lia.
  apply (proj2 (doEvent2_empty_batch 3%Q Fixtures.batch_cumsum (Fixtures.base_params 1)
                  (-1) Fixtures.batch_world H)).
  lia.
Defined.
